(** * two_resource_dqn/dqn_agent.py: replay buffer, reward and DQN agent

    A shallow embedding of [QNet], [ReplayBuffer] and [DQNAgent].

    Conventions of the embedding.
    - Python [int]s are [Z]; Python/torch floating-point numbers are idealised
      as exact rationals [Q] (compared with [==]).
    - A raised exception is a value [Raise e]; the calls to the [random]
      module are finite probability distributions: a list of weighted
      outcomes, which the code's control flow composes with [mbind].
    - Network tensors live in a heap of storages addressed by location, so
      that who shares a storage with whom is explicit. What the layers
      compute is left abstract; which shapes they accept is spelt out
      (module [Shapes]).
    - Devices are left out: [x.to(device)] is [x]. *)

From Stdlib Require Import ZArith QArith Qminmax Lqa Lia.
From stdpp Require Import base list strings.

Local Open Scope Z_scope.

(** ** Exceptions *)

Inductive exn : Type :=
| AssertionError
| IndexError
| ValueError
| OverflowError
| RuntimeError.

Inductive result (A : Type) : Type :=
| Ok (a : A)
| Raise (e : exn).
Arguments Ok {A} a.
Arguments Raise {A} e.

Definition is_ok {A} (r : result A) : bool :=
  match r with Ok _ => true | Raise _ => false end.

Definition rbind {A B} (r : result A) (f : A -> result B) : result B :=
  match r with
  | Ok a => f a
  | Raise e => Raise e
  end.

Notation "'let+' x ':=' r 'in' k" := (rbind r (fun x => k))
  (at level 10, x name, r at level 100, k at level 200, only parsing).
Notation "'let+' ' p ':=' r 'in' k" := (rbind r (fun x => let 'p := x in k))
  (at level 10, p pattern, r at level 100, k at level 200, only parsing).

(** ** The [random] module: finite distributions *)

(** A distribution is the list of its outcomes, each with its probability. *)
Definition dist (A : Type) : Type := list (Q * A).

Definition dret {A} (a : A) : dist A := [(1%Q, a)].

Definition dscale {A} (w : Q) (d : dist A) : dist A :=
  List.map (fun va => ((w * fst va)%Q, snd va)) d.

Definition dbind {A B} (m : dist A) (f : A -> dist B) : dist B :=
  List.flat_map (fun wa => dscale (fst wa) (f (snd wa))) m.

(** Computations that draw random numbers and may raise. *)
Definition M (A : Type) : Type := dist (result A).

Definition mret {A} (a : A) : M A := dret (Ok a).
Definition mraise {A} (e : exn) : M A := dret (Raise e).
Definition mbind {A B} (m : M A) (f : A -> M B) : M B :=
  dbind m (fun r => match r with Ok a => f a | Raise e => mraise e end).
Definition lift {A} (r : result A) : M A := dret r.

Notation "'let*' x ':=' m 'in' k" := (mbind m (fun x => k))
  (at level 10, x name, m at level 100, k at level 200, only parsing).
Notation "'let*' ' p ':=' m 'in' k" := (mbind m (fun x => let 'p := x in k))
  (at level 10, p pattern, m at level 100, k at level 200, only parsing).

(** [x] is a possible result of [m]. *)
Definition outcome {A} (m : dist A) (x : A) : Prop := exists w, In (w, x) m.

(** [range(n)]: the integers 0, 1, ..., n-1, empty when [n <= 0]. *)
Definition range (n : Z) : list Z := List.map Z.of_nat (seq 0 (Z.to_nat n)).

(** [random.choice(seq)]: [IndexError] on an empty sequence, otherwise every
    element with the same probability. *)
Definition random_choice {A} (l : list A) : M A :=
  match l with
  | [] => mraise IndexError
  | _ => List.map (fun x => ((1 / inject_Z (Z.of_nat (length l)))%Q, Ok x)) l
  end.

(** [random.random() < eps]: true with probability [eps] cut to [0, 1]. *)
Definition random_lt (eps : Q) : M bool :=
  let p := Qmax 0 (Qmin 1 eps) in
  [(p, Ok true); ((1 - p)%Q, Ok false)].

(** ** Python sequence indexing *)

(** [l[i]] for a list, deque or 1-d tensor: a negative [i] counts from the
    end, anything outside [-len, len) raises [IndexError]. *)
Definition py_index {A} (l : list A) (i : Z) : result A :=
  let n := Z.of_nat (length l) in
  let j := if i <? 0 then i + n else i in
  if (j <? 0) || (n <=? j) then Raise IndexError
  else match l !! Z.to_nat j with
       | Some x => Ok x
       | None => Raise IndexError
       end.

(** ** [collections.deque(maxlen=...)] *)

Module deque.
Record t (A : Type) : Type := mk { maxlen : Z; items : list A }.
Arguments mk {A}.
Arguments maxlen {A}.
Arguments items {A}.

(** [deque(maxlen=n)]: CPython first converts [maxlen] to a C
    [Py_ssize_t] (64 bits here), which raises [OverflowError] outside
    [-2^63, 2^63); a negative [maxlen] is then refused with
    [ValueError]. *)
Definition new {A} (n : Z) : result (t A) :=
  if (n <? - 2 ^ 63) || (2 ^ 63 <=? n) then Raise OverflowError
  else if n <? 0 then Raise ValueError
  else Ok (mk n []).

Definition len {A} (d : t A) : Z := Z.of_nat (length (items d)).

(** [append] adds on the right, then drops the leftmost item when the
    length has gone over [maxlen]. *)
Definition append {A} (d : t A) (x : A) : t A :=
  let l := items d ++ [x] in
  if maxlen d <? Z.of_nat (length l) then mk (maxlen d) (tl l)
  else mk (maxlen d) l.

Definition getitem {A} (d : t A) (i : Z) : result A := py_index (items d) i.

Definition clear {A} (d : t A) : t A := mk (maxlen d) [].
End deque.

(** ** ReplayBuffer *)

Record Experience (Obs : Type) : Type :=
  mkExperience { observation : Obs; action : Z; next_observation : Obs }.
Arguments mkExperience {Obs}.
Arguments observation {Obs}.
Arguments action {Obs}.
Arguments next_observation {Obs}.

Module ReplayBuffer.
Section Buffer.
Context {Obs : Type}.

Record t : Type := mk {
  buffer_size : Z;
  buffer_experience : deque.t (Experience Obs);
  n_experience : Z
}.

Definition __init__ (buffer_size : Z) : result t :=
  match deque.new buffer_size with
  | Raise e => Raise e
  | Ok d => Ok (mk buffer_size d (deque.len d))
  end.

Definition append (self : t) (observation : Obs) (action : Z)
    (next_observation : Obs) : t :=
  let d := deque.append (buffer_experience self)
             (mkExperience observation action next_observation) in
  mk (buffer_size self) d (deque.len d).

(** The [assert] raises [AssertionError] unless
    [n_experience - 1 > time_step]; the deque is indexed after it. *)
Definition get_single_experience (self : t) (time_step : Z)
  : result (Experience Obs) :=
  if n_experience self - 1 >? time_step
  then deque.getitem (buffer_experience self) time_step
  else Raise AssertionError.

Fixpoint batch_loop (self : t) (k : nat) (batch : list (Experience Obs))
  : M (list (Experience Obs)) :=
  match k with
  | O => mret batch
  | S k' =>
      let* index := random_choice (range (n_experience self - 1)) in
      let* e := lift (get_single_experience self index) in
      batch_loop self k' (batch ++ [e])
  end.

(** [for i in range(batch_size)] runs [max 0 batch_size] times. *)
Definition get_batch_experience (self : t) (batch_size : Z)
  : M (list (Experience Obs)) :=
  batch_loop self (Z.to_nat batch_size) [].

Definition clear (self : t) : t :=
  let d := deque.clear (buffer_experience self) in
  mk (buffer_size self) d (deque.len d).

(** The experiences held, oldest first. *)
Definition contents (self : t) : list (Experience Obs) :=
  deque.items (buffer_experience self).

(** What [__init__] establishes and every method keeps: the counter is the
    deque's length and the deque respects its bound. *)
Definition wf (self : t) : Prop :=
  n_experience self = deque.len (buffer_experience self)
  /\ deque.maxlen (buffer_experience self) = buffer_size self
  /\ 0 <= buffer_size self
  /\ deque.len (buffer_experience self) <= buffer_size self.

(** Appending a list of experiences one by one. *)
Definition append_all (self : t) (es : list (Experience Obs)) : t :=
  fold_left
    (fun b e => append b (observation e) (action e) (next_observation e))
    es self.

End Buffer.
Arguments t : clear implicits.
End ReplayBuffer.

(** ** torch: storages, tracked tensors and the operations left abstract *)

(** The storage behind a network tensor ([nn.Param] or module buffer):
    its shape, its contents, the gradient accumulated by [backward] and
    whether autograd treats it as a leaf. *)
Record Storage (Data : Type) : Type := mkStorage {
  shape : list Z;
  data : Data;
  grad : option Data;
  requires_grad : bool
}.
Arguments mkStorage {Data}.
Arguments shape {Data}.
Arguments data {Data}.
Arguments grad {Data}.
Arguments requires_grad {Data}.

(** Named tensor values: what [state_dict()] hands out. *)
Definition named_values (Data : Type) : Type := list (string * (list Z * Data)).

(** What this file takes from torch without looking inside: the image
    tensors, of which only the shape is looked at, and the same elements
    under another shape; the tensor payloads, the function the layers of
    [QNet] compute from their weights (in training mode, where batch
    normalisation uses the statistics of its input), the running
    statistics batch normalisation keeps, the derivative computed by
    [backward], the update rule of [torch.optim.Adam], and which position
    [topk(1)] returns: that of a largest entry, without saying which one
    when several entries are largest. Element types are taken to fit. *)
Class Torch : Type := {
  Image : Type;
  image_shape : Image -> list Z;
  reshape : Image -> list Z -> Image;
  image_shape_reshape :
    forall (x : Image) (shp : list Z), image_shape (reshape x shp) = shp;
  Data : Type;
  AdamState : Type;
  qnet_forward : named_values Data -> Image -> list Q -> list Q;
  bn_running : named_values Data -> Image -> string -> Data -> Data;
  autograd : (list (Storage Data) -> Q) -> list (Storage Data) -> nat -> Data;
  adam_update : Q -> Q -> Q -> Data -> Data -> option AdamState
                -> Data * AdamState;
  topk_index : list Q -> nat;
  topk_index_max :
    forall l : list Q, l <> [] ->
    exists m, l !! topk_index l = Some m /\ Forall (fun x => Qle x m) l
}.

(** The heap: storages indexed by location. *)
Abbreviation heap := (list (Storage Data)) (only parsing).

Section TorchModel.
Context `{Torch}.

(** A float tensor as the program sees it: its value, the leaf storages
    autograd would differentiate it by (none when it carries no gradient),
    and the value as a function of the heap's contents, which is what
    [backward] differentiates. *)
Record Tensor (A : Type) : Type := mkTensor {
  value : A;
  leaves : list nat;
  fn : heap -> A
}.
Arguments mkTensor {A}.
Arguments value {A}.
Arguments leaves {A}.
Arguments fn {A}.

Definition Scalar : Type := Tensor Q.
Definition Vector : Type := Tensor (list Q).

Definition carries_grad {A} (x : Tensor A) : bool :=
  match leaves x with [] => false | _ => true end.

(** [torch.tensor(v)]: plain data. *)
Definition constant {A} (v : A) : Tensor A := mkTensor v [] (fun _ => v).

Definition detach {A} (x : Tensor A) : Tensor A := constant (value x).

Definition map1 {A B} (f : A -> B) (x : Tensor A) : Tensor B :=
  mkTensor (f (value x)) (leaves x) (fun h => f (fn x h)).

Definition map2 {A B C} (f : A -> B -> C) (x : Tensor A) (y : Tensor B)
  : Tensor C :=
  mkTensor (f (value x) (value y)) (leaves x ++ leaves y)
           (fun h => f (fn x h) (fn y h)).

Definition Qclamp (lo hi x : Q) : Q := Qmin (Qmax x lo) hi.
Definition Qsum (l : list Q) : Q := fold_left Qplus l 0%Q.

(** [x.pow(2.0)], [x.sum()], [x.clamp(min, max)], [c * x], [x + y],
    [x - y], [x / n]. *)
Definition pow2 (x : Scalar) : Scalar := map1 (fun v => (v * v)%Q) x.
Definition vpow2 (x : Vector) : Vector :=
  map1 (List.map (fun v => (v * v)%Q)) x.
Definition vsum (x : Vector) : Scalar := map1 Qsum x.
Definition clamp (lo hi : Q) (x : Scalar) : Scalar := map1 (Qclamp lo hi) x.
Definition scale (c : Q) (x : Scalar) : Scalar := map1 (Qmult c) x.
Definition add (x y : Scalar) : Scalar := map2 Qplus x y.
Definition sub (x y : Scalar) : Scalar := map2 Qminus x y.
Definition div_int (x : Scalar) (n : Z) : Scalar :=
  map1 (fun v => (v / inject_Z n)%Q) x.

Definition Qlist_max (l : list Q) : option Q :=
  match l with
  | [] => None
  | x :: l' => Some (fold_left Qmax l' x)
  end.

(** [x.max()]: refused on an empty tensor. *)
Definition vmax (x : Vector) : result Scalar :=
  match Qlist_max (value x) with
  | None => Raise RuntimeError
  | Some m =>
      Ok (mkTensor m (leaves x)
            (fun h => match Qlist_max (fn x h) with Some v => v | None => 0%Q end))
  end.

(** [x[i]] on a 1-d tensor. *)
Definition vindex (x : Vector) (i : Z) : result Scalar :=
  match py_index (value x) i with
  | Raise e => Raise e
  | Ok v =>
      Ok (mkTensor v (leaves x)
            (fun h => match py_index (fn x h) i with Ok u => u | Raise _ => 0%Q end))
  end.

(** [x.topk(1)] index: refused on an empty tensor; otherwise the
    position torch picks among the largest entries. *)
Definition topk1 (x : Vector) : result Z :=
  match value x with
  | [] => Raise RuntimeError
  | v :: l => Ok (Z.of_nat (topk_index (v :: l)))
  end.

(** [x.numel()]. *)
Definition numel (x : Image) : Z := fold_right Z.mul 1 (image_shape x).

(** The shape [view] settles on for a tensor of [numel] elements: one
    dimension may be left to torch as [-1]; any other negative dimension,
    a second [-1], a product that is not [numel], or a [-1] that no value
    or every value would fit, is a [RuntimeError]. *)
Definition infer_size (shape : list Z) (numel : Z) : result (list Z) :=
  let known := List.filter (fun d => negb (d =? -1)) shape in
  let newsize := fold_right Z.mul 1 known in
  if negb (forallb (fun d => 0 <=? d) known) then Raise RuntimeError
  else match (length shape - length known)%nat with
       | O => if numel =? newsize then Ok shape else Raise RuntimeError
       | 1%nat =>
           if (0 <? newsize) && (numel mod newsize =? 0)
           then Ok (List.map (fun d => if d =? -1 then numel / newsize else d)
                      shape)
           else Raise RuntimeError
       | _ => Raise RuntimeError
       end.

(** [x.view(shape)] of a freshly built, contiguous tensor. *)
Definition view (x : Image) (shape : list Z) : result Image :=
  let+ shp := infer_size shape (numel x) in
  Ok (reshape x shp).

Record Observation : Type := mkObservation { image : Image; vector : Vector }.

End TorchModel.

Arguments Tensor {_} A.
Arguments mkTensor {_ A}.
Arguments value {_ A}.
Arguments leaves {_ A}.
Arguments fn {_ A}.

(** ** The shapes through [QNet.forward] *)

(** What the layers of [QNet] accept and return, shape by shape: the part
    of [forward] that does not depend on the values. *)
Module Shapes.

(** [nn.Conv2d(in_channels, out_channels, kernel_size, stride=1)], no
    padding: a batched or an unbatched image whose channels are
    [in_channels] and which is not smaller than the kernel. *)
Definition Conv2d (in_channels out_channels kernel_size : Z) (x : list Z)
  : result (list Z) :=
  let out (batch : list Z) (c h w : Z) :=
    if (c =? in_channels) && (kernel_size <=? h) && (kernel_size <=? w)
    then Ok (batch ++ [out_channels; h - kernel_size + 1;
                       w - kernel_size + 1])
    else Raise RuntimeError in
  match x with
  | [n; c; h; w] => out [n] c h w
  | [c; h; w] => out [] c h w
  | _ => Raise RuntimeError
  end.

(** [nn.BatchNorm2d(num_features)]: a 4-d input; in training mode more
    than one value per channel. *)
Definition BatchNorm2d (num_features : Z) (training : bool) (x : list Z)
  : result (list Z) :=
  match x with
  | [n; c; h; w] =>
      if training && (n * h * w =? 1) then Raise ValueError
      else if c =? num_features then Ok x
      else Raise RuntimeError
  | _ => Raise ValueError
  end.

Definition Softplus (x : list Z) : list Z := x.

Definition flatten (x : list Z) : list Z := [fold_right Z.mul 1 x].

(** [nn.Linear(in_features, out_features)] acts on the last dimension. *)
Definition Linear (in_features out_features : Z) (x : list Z)
  : result (list Z) :=
  match reverse x with
  | [] => Raise RuntimeError
  | d :: batch =>
      if d =? in_features then Ok (reverse batch ++ [out_features])
      else Raise RuntimeError
  end.

(** [torch.cat([a, b], dim=0)] for a flattened [a] of [la] elements: [b]
    must be 1-d too, except that an empty [a] is skipped. *)
Definition cat (la : Z) (b : list Z) : result (list Z) :=
  match b with
  | [] => Raise RuntimeError
  | [lb] => Ok [la + lb]
  | _ => if la =? 0 then Ok b else Raise RuntimeError
  end.

(** The shape [QNet(n_images, vector_dim, n_action).forward] returns. *)
Definition forward (training : bool) (n_images vector_dim n_action : Z)
    (image_tensor vector_tensor : list Z) : result (list Z) :=
  let+ x_im := Conv2d (3 * n_images) 8 3 image_tensor in
  let+ x_im := BatchNorm2d 8 training x_im in
  let x_im := Softplus x_im in
  let+ x_im := Conv2d 8 16 3 x_im in
  let+ x_im := BatchNorm2d 16 training x_im in
  let x_im := Softplus x_im in
  let x_im := flatten x_im in
  let+ x_int := Linear vector_dim 50 vector_tensor in
  let x_int := Softplus x_int in
  let+ x := cat (fold_right Z.mul 1 x_im) x_int in
  let+ x := Linear 12594 400 x in
  let x := Softplus x in
  Linear 400 n_action x.

End Shapes.

(** ** QNet *)

Module QNet.
Section Net.
Context `{Torch}.

Inductive kind : Type := Param | Buf.

(** An [nn.Module]: the [training] flag, the sizes its layers were built
    with and, in [state_dict()] order, the name, the kind and the storage
    of each registered tensor. *)
Record t : Type := mk {
  training : bool;
  n_images : Z;
  vector_dim : Z;
  n_action : Z;
  entries : list (string * kind * nat)
}.

(** The tensors that the layers created in [__init__] register, with their
    shapes: [Conv2d] and [Linear] a weight and a bias, [BatchNorm2d] a
    weight, a bias and its three running-statistics buffers; [Softplus]
    none. *)
Definition layout (n_images vector_dim n_action : Z)
  : list (string * kind * list Z) :=
  [ ("conv1.weight"%string, Param, [8; 3 * n_images; 3; 3]);
    ("conv1.bias"%string, Param, [8]);
    ("bn1.weight"%string, Param, [8]);
    ("bn1.bias"%string, Param, [8]);
    ("bn1.running_mean"%string, Buf, [8]);
    ("bn1.running_var"%string, Buf, [8]);
    ("bn1.num_batches_tracked"%string, Buf, []);
    ("conv2.weight"%string, Param, [16; 8; 3; 3]);
    ("conv2.bias"%string, Param, [16]);
    ("bn2.weight"%string, Param, [16]);
    ("bn2.bias"%string, Param, [16]);
    ("bn2.running_mean"%string, Buf, [16]);
    ("bn2.running_var"%string, Buf, [16]);
    ("bn2.num_batches_tracked"%string, Buf, []);
    ("fc_vec.weight"%string, Param, [50; vector_dim]);
    ("fc_vec.bias"%string, Param, [50]);
    ("fc1.weight"%string, Param, [400; 12594]);
    ("fc1.bias"%string, Param, [400]);
    ("fc2.weight"%string, Param, [n_action; 400]);
    ("fc2.bias"%string, Param, [n_action]) ].

Definition is_parameter (k : kind) : bool :=
  match k with Param => true | Buf => false end.

(** Each tensor gets a storage of its own at the end of the heap; [init]
    stands for the initial values torch draws. *)
Fixpoint alloc_all (init : string -> Data) (h : heap)
    (l : list (string * kind * list Z)) : list (string * kind * nat) * heap :=
  match l with
  | [] => ([], h)
  | (name, k, shp) :: l' =>
      let s := mkStorage shp (init name) None (is_parameter k) in
      let '(es, h') := alloc_all init (h ++ [s]) l' in
      ((name, k, length h) :: es, h')
  end.

(** A tensor with a negative dimension cannot be created. *)
Definition __init__ (h : heap) (n_images vector_dim n_action : Z)
    (init : string -> Data) : result (t * heap) :=
  let lay := layout n_images vector_dim n_action in
  if forallb (fun e => forallb (fun d => 0 <=? d) (snd e)) lay
  then let '(es, h') := alloc_all init h lay in
       Ok (mk true n_images vector_dim n_action es, h')
  else Raise RuntimeError.

(** [parameters()]: the storages of the [nn.Param]s. *)
Definition parameters (self : t) : list nat :=
  omap (fun e => match e with
                 | (_, Param, l) => Some l
                 | (_, Buf, _) => None
                 end) (entries self).

Definition buffers (self : t) : list nat :=
  omap (fun e => match e with
                 | (_, Buf, l) => Some l
                 | (_, Param, _) => None
                 end) (entries self).

Definition read (h : heap) (name : string) (l : nat)
  : option (string * (list Z * Data)) :=
  match h !! l with
  | Some s => Some (name, (shape s, data s))
  | None => None
  end.

(** The current values of the parameters, by name. *)
Definition param_values (self : t) (h : heap) : named_values Data :=
  omap (fun e => match e with
                 | (name, Param, l) => read h name l
                 | (_, Buf, _) => None
                 end) (entries self).

(** [state_dict()]: parameters and buffers, by name. *)
Definition state_dict (self : t) (h : heap) : named_values Data :=
  omap (fun e => read h (fst (fst e)) (snd e)) (entries self).

Fixpoint assoc {A} (k : string) (l : list (string * A)) : option A :=
  match l with
  | [] => None
  | (k', v) :: l' => if String.eqb k k' then Some v else assoc k l'
  end.

Definition set_data (d : Data) (s : Storage Data) : Storage Data :=
  mkStorage (shape s) d (grad s) (requires_grad s).

(** For each of the module's own tensors: the key must be present and the
    shapes must agree; the value is then copied into the module's storage. *)
Fixpoint load_entries (es : list (string * kind * nat))
    (sd : named_values Data) (h : heap) : result heap :=
  match es with
  | [] => Ok h
  | (name, _, l) :: es' =>
      match assoc name sd, h !! l with
      | Some (shp, d), Some s =>
          if bool_decide (shape s = shp)
          then load_entries es' sd (<[l := set_data d s]> h)
          else Raise RuntimeError
      | _, _ => Raise RuntimeError
      end
  end.

(** [load_state_dict(sd)] with the default [strict=True]: a key of [sd]
    that the module does not have, a missing key or a size mismatch is a
    [RuntimeError]. *)
Definition load_state_dict (self : t) (sd : named_values Data) (h : heap)
  : result heap :=
  if forallb (fun kv => existsb (fun e => String.eqb (fst kv) (fst (fst e)))
                          (entries self)) sd
  then load_entries (entries self) sd h
  else Raise RuntimeError.

(** In training mode every batch-normalisation layer updates its running
    statistics at each call. *)
Definition track_running_stats (self : t) (theta : named_values Data)
    (image_tensor : Image) (h : heap) : heap :=
  fold_left
    (fun h e => match e with
                | (name, Buf, l) =>
                    alter (fun s => set_data
                                      (bn_running theta image_tensor name (data s)) s)
                          l h
                | (_, Param, _) => h
                end)
    (entries self) h.

(** The value [self(image_tensor, vector_tensor)] returns. Outside
    [torch.no_grad()] it is tracked back to the module's parameters. *)
Definition forward_output (self : t) (h : heap) (grad_enabled : bool)
    (image_tensor : Image) (vector_tensor : Vector) : Vector :=
  let theta := param_values self h in
  if grad_enabled
  then mkTensor (qnet_forward theta image_tensor (value vector_tensor))
         (parameters self ++ leaves vector_tensor)
         (fun h' => qnet_forward (param_values self h') image_tensor
                      (fn vector_tensor h'))
  else constant (qnet_forward theta image_tensor (value vector_tensor)).

(** The heap the call leaves behind. *)
Definition forward_heap (self : t) (h : heap) (image_tensor : Image) : heap :=
  if training self
  then track_running_stats self (param_values self h) image_tensor h
  else h.

(** [self(image_tensor, vector_tensor)]: the layers first have to accept
    the shapes they are given. *)
Definition forward (self : t) (h : heap) (grad_enabled : bool)
    (image_tensor : Image) (vector_tensor : Vector)
  : result (Vector * heap) :=
  let+ _ := Shapes.forward (training self) (n_images self) (vector_dim self)
              (n_action self) (image_shape image_tensor)
              [Z.of_nat (length (value vector_tensor))] in
  Ok (forward_output self h grad_enabled image_tensor vector_tensor,
      forward_heap self h image_tensor).

End Net.
End QNet.

(** ** torch.optim.Adam *)

Module Adam.
Section Optimizer.
Context `{Torch}.

Record t : Type := mk {
  params : list nat;
  lr : Q;
  eps : Q;
  weight_decay : Q;
  state : list (nat * AdamState)
}.

Definition Qneg_b (x : Q) : bool :=
  match Qlt_le_dec x 0 with left _ => true | right _ => false end.

(** The constructor refuses a negative learning rate, epsilon or weight
    decay. *)
Definition __init__ (params : list nat) (lr eps weight_decay : Q) : result t :=
  if Qneg_b lr || Qneg_b eps || Qneg_b weight_decay then Raise ValueError
  else Ok (mk params lr eps weight_decay []).

Definition set_grad (g : option Data) (s : Storage Data) : Storage Data :=
  mkStorage (shape s) (data s) g (requires_grad s).

Definition zero_grad (self : t) (h : heap) : heap :=
  fold_left (fun h p => alter (set_grad None) p h) (params self) h.

Fixpoint lookup_state (p : nat) (st : list (nat * AdamState))
  : option AdamState :=
  match st with
  | [] => None
  | (q, a) :: st' => if Nat.eqb p q then Some a else lookup_state p st'
  end.

(** One parameter of the group: skipped when it has no gradient. *)
Definition step_param (self : t) (acc : list (nat * AdamState) * heap)
    (p : nat) : list (nat * AdamState) * heap :=
  let '(st, h) := acc in
  match h !! p with
  | Some s =>
      match grad s with
      | Some g =>
          let '(d, a) := adam_update (lr self) (eps self) (weight_decay self)
                           (data s) g (lookup_state p st) in
          ((p, a) :: st, <[p := QNet.set_data d s]> h)
      | None => acc
      end
  | None => acc
  end.

Definition step (self : t) (h : heap) : t * heap :=
  let '(st, h') := fold_left (step_param self) (params self) (state self, h) in
  (mk (params self) (lr self) (eps self) (weight_decay self) st, h').

End Optimizer.
End Adam.

(** ** DQNAgent *)

Module DQNAgent.
Section Agent.
Context `{Torch}.

(** The entries of [config] that [__init__] reads, already parsed by
    [int(...)] and [float(...)]. *)
Record Config : Type := mkConfig {
  qn_input_time_horizon : Z;
  qn_training_start_from : Z;
  qn_iteration : Z;
  qn_replay_buffer_size : Z;
  qn_reward_discount : Q;
  dnn_learning_rate : Q;
  dnn_adam_eps : Q;
  dnn_batch_size : Z;
  dnn_weight_decay : Q
}.

(** What [print] writes. *)
Inductive line : Type :=
| BufferProgress (n size : Z)
| QnetIterationDone.

(** The attributes of the agent, then the two pieces of the world its
    methods act on: the heap of network storages and the standard output. *)
Record t : Type := mk {
  input_time_horizon : Z;
  action_size : Z;
  shape_obs_image : Z * Z * Z;
  shape_vector_obs : list Z;
  n_action : Z;
  qnet : QNet.t;
  qnet_support : QNet.t;
  training_start_from : Z;
  learning_rate : Q;
  adam_eps : Q;
  batch_size : Z;
  iteration : Z;
  _optimizer : Adam.t;
  replay_buffer_size : Z;
  replay_buffer : ReplayBuffer.t Observation;
  _reward_discount : Q;
  eps_e_greedy : Q;
  time_tick : Z;
  _prev_observation : option Observation;
  _prev_action : option Z;
  memory : heap;
  stdout : list line
}.

Definition with_replay_buffer (b : ReplayBuffer.t Observation) (a : t) : t :=
  mk (input_time_horizon a) (action_size a) (shape_obs_image a)
     (shape_vector_obs a) (n_action a) (qnet a) (qnet_support a)
     (training_start_from a) (learning_rate a) (adam_eps a) (batch_size a)
     (iteration a) (_optimizer a) (replay_buffer_size a) b
     (_reward_discount a) (eps_e_greedy a) (time_tick a)
     (_prev_observation a) (_prev_action a) (memory a) (stdout a).

Definition with_optimizer (o : Adam.t) (a : t) : t :=
  mk (input_time_horizon a) (action_size a) (shape_obs_image a)
     (shape_vector_obs a) (n_action a) (qnet a) (qnet_support a)
     (training_start_from a) (learning_rate a) (adam_eps a) (batch_size a)
     (iteration a) o (replay_buffer_size a) (replay_buffer a)
     (_reward_discount a) (eps_e_greedy a) (time_tick a)
     (_prev_observation a) (_prev_action a) (memory a) (stdout a).

Definition with_eps_e_greedy (v : Q) (a : t) : t :=
  mk (input_time_horizon a) (action_size a) (shape_obs_image a)
     (shape_vector_obs a) (n_action a) (qnet a) (qnet_support a)
     (training_start_from a) (learning_rate a) (adam_eps a) (batch_size a)
     (iteration a) (_optimizer a) (replay_buffer_size a) (replay_buffer a)
     (_reward_discount a) v (time_tick a)
     (_prev_observation a) (_prev_action a) (memory a) (stdout a).

Definition with_time_tick (n : Z) (a : t) : t :=
  mk (input_time_horizon a) (action_size a) (shape_obs_image a)
     (shape_vector_obs a) (n_action a) (qnet a) (qnet_support a)
     (training_start_from a) (learning_rate a) (adam_eps a) (batch_size a)
     (iteration a) (_optimizer a) (replay_buffer_size a) (replay_buffer a)
     (_reward_discount a) (eps_e_greedy a) n
     (_prev_observation a) (_prev_action a) (memory a) (stdout a).

Definition with_prev (o : option Observation) (act : option Z) (a : t) : t :=
  mk (input_time_horizon a) (action_size a) (shape_obs_image a)
     (shape_vector_obs a) (n_action a) (qnet a) (qnet_support a)
     (training_start_from a) (learning_rate a) (adam_eps a) (batch_size a)
     (iteration a) (_optimizer a) (replay_buffer_size a) (replay_buffer a)
     (_reward_discount a) (eps_e_greedy a) (time_tick a)
     o act (memory a) (stdout a).

Definition with_memory (h : heap) (a : t) : t :=
  mk (input_time_horizon a) (action_size a) (shape_obs_image a)
     (shape_vector_obs a) (n_action a) (qnet a) (qnet_support a)
     (training_start_from a) (learning_rate a) (adam_eps a) (batch_size a)
     (iteration a) (_optimizer a) (replay_buffer_size a) (replay_buffer a)
     (_reward_discount a) (eps_e_greedy a) (time_tick a)
     (_prev_observation a) (_prev_action a) h (stdout a).

Definition print (l : line) (a : t) : t :=
  mk (input_time_horizon a) (action_size a) (shape_obs_image a)
     (shape_vector_obs a) (n_action a) (qnet a) (qnet_support a)
     (training_start_from a) (learning_rate a) (adam_eps a) (batch_size a)
     (iteration a) (_optimizer a) (replay_buffer_size a) (replay_buffer a)
     (_reward_discount a) (eps_e_greedy a) (time_tick a)
     (_prev_observation a) (_prev_action a) (memory a) (stdout a ++ [l]).

(** [init_qnet] and [init_support] stand for the initial values torch
    draws for the two networks; the process starts with an empty heap. *)
Definition __init__ (config : Config) (n_action action_size : Z)
    (shape_vector_obs : list Z) (shape_obs_image : Z * Z * Z) (eps_start : Q)
    (init_qnet init_support : string -> Data) : result t :=
  let input_time_horizon := qn_input_time_horizon config in
  let+ '(qnet, h) := QNet.__init__ [] input_time_horizon 2 n_action init_qnet in
  let+ '(qnet_support, h) := QNet.__init__ h 1 2 n_action init_support in
  let+ h := QNet.load_state_dict qnet_support (QNet.state_dict qnet h) h in
  let training_start_from := qn_training_start_from config in
  let learning_rate := dnn_learning_rate config in
  let adam_eps := dnn_adam_eps config in
  let batch_size := dnn_batch_size config in
  let iteration := qn_iteration config in
  let+ _optimizer := Adam.__init__ (QNet.parameters qnet) learning_rate adam_eps
                       (dnn_weight_decay config) in
  let replay_buffer_size := qn_replay_buffer_size config in
  let+ replay_buffer := ReplayBuffer.__init__ replay_buffer_size in
  Ok (mk input_time_horizon action_size shape_obs_image shape_vector_obs
         n_action qnet qnet_support training_start_from learning_rate
         adam_eps batch_size iteration _optimizer replay_buffer_size
         replay_buffer (qn_reward_discount config) eps_start 0 None None
         h []).

Definition reset_for_new_episode (self : t) : t := with_prev None None self.

(** [reward] does not read [self]. *)
Definition reward (vector_obs next_vector_obs : Vector) : Scalar :=
  let reward := scale (- (1 # 100)) (vsum (vpow2 vector_obs)) in
  let reward := clamp (- (3)) 3 reward in
  detach reward.

(** The raw observation is an image array and a flat list of numbers.
    [view] puts the image under the shape (1, channels, height, width)
    read from [shape_obs_image] = (height, width, channels), and refuses
    an image whose number of elements does not fit. *)
Definition obs_to_tensor (self : t) (raw_observation : Image * list Q)
  : result (Image * Vector) :=
  let '(s0, s1, s2) := shape_obs_image self in
  let+ im_tensor := view (fst raw_observation) [1; s2; s0; s1] in
  let vec_tensor := constant (snd raw_observation) in
  Ok (im_tensor, vec_tensor).

Definition get_greedy_action (self : t) (grad_enabled : bool)
    (im_tensor : Image) (vec_tensor : Vector) : result (Z * Vector * t) :=
  let+ '(q, h) := QNet.forward (qnet self) (memory self) grad_enabled
                    im_tensor vec_tensor in
  let self := with_memory h self in
  let q_val := detach q in
  let+ index := topk1 q_val in
  Ok (index, q_val, self).

(** The body of [for experience in data_batch]. *)
Definition train_example (acc : result (Scalar * t))
    (experience : Experience Observation) : result (Scalar * t) :=
  let+ '(loss, self) := acc in
  let action := action experience in
  let im_tensor := image (observation experience) in
  let vec_tensor := vector (observation experience) in
  let+ '(q, h) := QNet.forward (qnet self) (memory self) true
                    im_tensor vec_tensor in
  let self := with_memory h self in
  let+ q_val := vindex q action in
  let next_im_tensor := image (next_observation experience) in
  let next_vec_tensor := vector (next_observation experience) in
  let+ '(qn, h) := QNet.forward (qnet_support self) (memory self) true
                     next_im_tensor next_vec_tensor in
  let self := with_memory h self in
  let+ m := vmax qn in
  let q_vec_next := detach m in
  let reward_tensor := reward vec_tensor next_vec_tensor in
  let target := add reward_tensor (scale (_reward_discount self) q_vec_next) in
  Ok (add loss (pow2 (clamp (- (1)) 1 (sub target q_val))), self).

(** From [loss = torch.zeros(1)] to [loss /= self.batch_size]. *)
Definition batch_loss (self : t) (data_batch : list (Experience Observation))
  : result (Scalar * t) :=
  let loss := constant 0%Q in
  let+ '(loss, self) := fold_left train_example data_batch (Ok (loss, self)) in
  Ok (div_int loss (batch_size self), self).

(** [loss.backward()]: refused when the loss is not tracked; otherwise
    every leaf receives the derivative of the loss by its storage (the
    gradients were reset just before, so nothing is accumulated). *)
Definition backward (loss : Scalar) (h : heap) : result heap :=
  match leaves loss with
  | [] => Raise RuntimeError
  | ls =>
      Ok (fold_left
            (fun h' l => alter (Adam.set_grad (Some (autograd (fn loss) h l))) l h')
            ls h)
  end.

Definition train (self : t) : M t :=
  let self := with_memory (Adam.zero_grad (_optimizer self) (memory self)) self in
  let* data_batch :=
    ReplayBuffer.get_batch_experience (replay_buffer self) (batch_size self) in
  let* '(loss, self) := lift (batch_loss self data_batch) in
  let* h := lift (backward loss (memory self)) in
  let '(o, h) := Adam.step (_optimizer self) h in
  mret (with_memory h (with_optimizer o self)).

Definition step (self : t) (observation : Image * list Q) (done : bool)
  : M (Z * t) :=
  let* '(im_tensor, vec_tensor) := lift (obs_to_tensor self observation) in
  (* Stock into the replay buffer *)
  let obs_now := mkObservation im_tensor vec_tensor in
  let self :=
    match _prev_action self, _prev_observation self with
    | Some prev_action, Some prev_observation =>
        with_replay_buffer
          (ReplayBuffer.append (replay_buffer self) prev_observation
             prev_action obs_now) self
    | _, _ => self
    end in
  (* Get Action *)
  let* '(greedy_action, q_vec, self) :=
    lift (get_greedy_action self false im_tensor vec_tensor) in
  let* explore := random_lt (eps_e_greedy self) in
  let* next_action :=
    if explore then random_choice (range (n_action self))
    else mret greedy_action in
  (* Train Agent *)
  let n := ReplayBuffer.n_experience (replay_buffer self) in
  let* self :=
    if n >? training_start_from self then train self
    else if n mod 500 =? 0
         then mret (print (BufferProgress n (replay_buffer_size self)) self)
         else mret self in
  (* Copy Q net to the support network *)
  let* self :=
    if time_tick self =? iteration self
    then
      let self := with_time_tick 0 self in
      let* h := lift (QNet.load_state_dict (qnet_support self)
                        (QNet.state_dict (qnet self) (memory self))
                        (memory self)) in
      mret (print QnetIterationDone (with_memory h self))
    else mret (with_time_tick (time_tick self + 1) self) in
  (* Set for next step *)
  let self := with_prev (Some obs_now) (Some next_action) self in
  mret (next_action, self).

(** Consecutive calls of [step], one per observation. *)
Fixpoint run (self : t) (observations : list (Image * list Q)) : M t :=
  match observations with
  | [] => mret self
  | o :: os => let* '(_, self) := step self o false in run self os
  end.

(** How often the target network was synchronised inside [step]. *)
Definition is_sync (l : line) : bool :=
  match l with QnetIterationDone => true | BufferProgress _ _ => false end.

Definition syncs (self : t) : Z :=
  Z.of_nat (length (List.filter is_sync (stdout self))).

End Agent.
End DQNAgent.

(** ** A small instance to run the definitions on *)

Module Demo.

(** An image is its shape and payloads are single numbers. The network
    returns the vector of the observation as its scores (two actions, two
    components) as long as it has weights; every call of a
    batch-normalisation layer and every optimizer step bumps the payload
    it writes. *)
Definition demo_forward (theta : named_values nat) (im : list Z)
    (vec : list Q) : list Q :=
  match theta with
  | [] => []
  | _ :: _ => vec
  end.

(** Among several largest scores the small instance picks the first. *)
Fixpoint argmax_from (best : Q) (besti : nat) (i : nat) (l : list Q) : nat :=
  match l with
  | [] => besti
  | x :: l' =>
      if Qle_bool x best then argmax_from best besti (S i) l'
      else argmax_from x i (S i) l'
  end.

Definition first_max (l : list Q) : nat :=
  match l with
  | [] => 0%nat
  | v :: l' => argmax_from v 0 1 l'
  end.

#[global] Program Instance demo_torch : Torch := {|
  Image := list Z;
  image_shape := fun x => x;
  reshape := fun _ shp => shp;
  image_shape_reshape := fun _ _ => eq_refl;
  Data := nat;
  AdamState := unit;
  qnet_forward := demo_forward;
  bn_running := fun _ _ _ d => S d;
  autograd := fun _ _ l => l;
  adam_update := fun _ _ _ d g _ => (S d, tt);
  topk_index := first_max
|}.
Next Obligation.
  intros l.
  assert (Hspec : forall (l : list Q) (best : Q) (besti i : nat),
            exists m,
              ((argmax_from best besti i l = besti /\ m = best)
               \/ exists k : nat, l !! k = Some m
                                  /\ argmax_from best besti i l = (i + k)%nat)
              /\ (best <= m)%Q
              /\ Forall (fun x => (x <= m)%Q) l).
  { clear l. intros l. induction l as [|x l IH]; intros best besti i.
    - exists best. split; [now left|]. split; [lra | constructor].
    - cbn [argmax_from]. destruct (Qle_bool x best) eqn:Eb.
      + apply Qle_bool_iff in Eb.
        destruct (IH best besti (S i)) as (m & Hcase & Hm & Hall).
        exists m.
        split; [|split; [assumption | constructor; [lra | assumption]]].
        destruct Hcase as [[E ->] | (k & Hk & E)]; [now left|].
        right. exists (S k). split; [exact Hk|]. rewrite E. lia.
      + assert (Hlt : (best < x)%Q).
        { apply Qnot_le_lt. intros Hle. apply Qle_bool_iff in Hle.
          congruence. }
        destruct (IH x i (S i)) as (m & Hcase & Hm & Hall).
        exists m. split; [|split; [lra | constructor; assumption]].
        right. destruct Hcase as [[E ->] | (k & Hk & E)].
        * exists 0%nat. split; [reflexivity|]. rewrite E. lia.
        * exists (S k). split; [exact Hk|]. rewrite E. lia. }
  destruct l as [|v l]; [congruence|]. intros _. cbn [first_max].
  destruct (Hspec l v 0%nat 1%nat) as (m & Hcase & Hm & Hall).
  exists m. split; [|constructor; assumption].
  destruct Hcase as [[-> ->] | (k & Hk & ->)]; [reflexivity | exact Hk].
Qed.

Definition config (horizon start iteration size batch : Z)
  : DQNAgent.Config :=
  DQNAgent.mkConfig horizon start iteration size (9 # 10) (1 # 10) (1 # 100)
    batch 0.

Definition init_a (name : string) : nat := 1%nat.
Definition init_b (name : string) : nat := 2%nat.

Definition agent (horizon start iteration size batch : Z)
  : result DQNAgent.t :=
  DQNAgent.__init__ (config horizon start iteration size batch) 2 2 [2]
    (32, 32, 3) (1 # 2) init_a init_b.

Definition obs (a b : Q) : list Z * list Q := ([32; 32; 3], [a; b]).

(** Replay buffers whose observations are plain numbers. *)
Definition exp (i : nat) : Experience nat := mkExperience i 0 (S i).

Definition buffer_of (capacity : Z) (es : list (Experience nat))
  : ReplayBuffer.t nat :=
  ReplayBuffer.append_all
    (ReplayBuffer.mk capacity (deque.mk capacity []) 0) es.

(** The first outcome that is a normal return. *)
Definition first_ok {A} (m : M A) : option A :=
  head (omap (fun wr => match snd wr with
                        | Ok a => Some a
                        | Raise _ => None
                        end) m).

Definition blank : DQNAgent.t :=
  DQNAgent.mk 0 0 (0, 0, 0) [] 0 (QNet.mk true 0 0 0 []) (QNet.mk true 0 0 0 [])
    0 0 0 0 0 (Adam.mk [] 0 0 0 []) 0
    (ReplayBuffer.mk 0 (deque.mk 0 []) 0) 0 0 0 None None [] [].

Definition observations : list (list Z * list Q) := [obs 1 2; obs 3 4; obs 5 6].

(** The agent after consecutive steps, along the first outcome. *)
Definition after (a : result DQNAgent.t) (os : list (list Z * list Q))
  : DQNAgent.t :=
  match a with
  | Ok s => match first_ok (DQNAgent.run s os) with
            | Some s' => s'
            | None => blank
            end
  | Raise _ => blank
  end.

(** An agent that synchronises on every third step: as constructed, and
    after three steps. *)
Definition fresh : DQNAgent.t :=
  Eval vm_compute in after (agent 1 5 2 10 2) [].

Definition synced : DQNAgent.t :=
  Eval vm_compute in after (agent 1 5 2 10 2) observations.

(** An agent with two stored experiences, a batch drawn from its buffer
    and the agent after one training update. *)
Definition cold : DQNAgent.t :=
  Eval vm_compute in after (agent 1 5 5 10 2) [].

Definition warm : DQNAgent.t :=
  Eval vm_compute in after (agent 1 5 5 10 2) observations.

Definition warm_batch : list (Experience Observation) :=
  Eval vm_compute in
    match first_ok (ReplayBuffer.get_batch_experience
                      (DQNAgent.replay_buffer warm)
                      (DQNAgent.batch_size warm)) with
    | Some b => b
    | None => []
    end.

Definition trained : DQNAgent.t :=
  Eval vm_compute in
    match first_ok (DQNAgent.train warm) with
    | Some s => s
    | None => blank
    end.

(** One step along its first outcome, and the agent [fresh] after one
    step and after two. *)
Definition first_step (s : DQNAgent.t) (o : list Z * list Q)
  : Z * DQNAgent.t :=
  match first_ok (DQNAgent.step s o false) with
  | Some r => r
  | None => (0, blank)
  end.

Definition stepped : Z * DQNAgent.t :=
  Eval vm_compute in first_step fresh (obs 1 2).

Definition stepped_twice : Z * DQNAgent.t :=
  Eval vm_compute in first_step (snd stepped) (obs 3 4).

(** What [get_greedy_action] returns on the first observation of
    [fresh]. *)
Definition looked : Z * Vector * DQNAgent.t :=
  Eval vm_compute in
    match DQNAgent.get_greedy_action fresh false [1; 3; 32; 32]
            (constant [1; 2]%Q) with
    | Ok r => r
    | Raise _ => (0, constant [], blank)
    end.

(** An agent configured to train from the first stored experience on,
    after its first step. *)
Definition eager : DQNAgent.t :=
  Eval vm_compute in after (agent 1 0 2 10 2) [obs 1 2].

(** The tick counter and the number of synchronisations in every outcome
    of consecutive steps. *)
Definition ticks (a : result DQNAgent.t) (os : list (list Z * list Q))
  : list (option (Z * Z)) :=
  match a with
  | Ok s =>
      List.map (fun wr => match snd wr with
                          | Ok s' => Some (DQNAgent.time_tick s',
                                           DQNAgent.syncs s')
                          | Raise _ => None
                          end) (DQNAgent.run s os)
  | Raise _ => []
  end.

End Demo.

(** ** Vocabulary of the statements *)

(** All the tuples of [k] indices below [m], each listed once. *)
Fixpoint tuples (k m : nat) : list (list nat) :=
  match k with
  | O => [[]]
  | S k' => List.flat_map (fun i => List.map (cons i) (tuples k' m)) (seq 0 m)
  end.

(** The experiences at the given ordinal positions, oldest entry first. *)
Definition batch_of {Obs} (rb : ReplayBuffer.t Obs) (idxs : list nat)
  : list (Experience Obs) :=
  omap (fun i => ReplayBuffer.contents rb !! i) idxs.

Fixpoint Qpow_nat (q : Q) (k : nat) : Q :=
  match k with
  | O => 1%Q
  | S k' => (q * Qpow_nat q k')%Q
  end.

(** The reward in the words of the specification: -0.01 times the sum of
    the squared components, cut to the closed interval [-3, 3]. *)
Definition sum_of_squares (xs : list Q) : Q :=
  fold_right (fun x acc => (x * x + acc)%Q) 0%Q xs.

Definition cut_to (lo hi x : Q) : Q :=
  if Qlt_le_dec x lo then lo else if Qlt_le_dec hi x then hi else x.

Definition reward_formula (xs : list Q) : Q :=
  cut_to (- (3)) 3 (- (1 # 100) * sum_of_squares xs).

(** The names [QNet] registers, whatever its dimensions. *)
Definition names_of_layout : list string :=
  Eval cbv in List.map (fun e => fst (fst e)) (QNet.layout 0 0 0).

Section AgentVocabulary.
Context `{Torch}.

(** What a storage holds, gradient aside. *)
Definition val (h : heap) (l : nat) : option (list Z * Data) :=
  match h !! l with
  | Some s => Some (shape s, data s)
  | None => None
  end.

Definition locs (net : QNet.t) : list nat :=
  List.map snd (QNet.entries net).

Definition names (net : QNet.t) : list string :=
  List.map (fun e => fst (fst e)) (QNet.entries net).

(** A tensor that is plain data: no autograd leaves, constant under
    differentiation. *)
Definition plain {A} (x : Tensor A) : Prop :=
  leaves x = [] /\ forall h, fn x h = value x.

Definition plain_exp (e : Experience Observation) : Prop :=
  plain (vector (observation e)) /\ plain (vector (next_observation e)).

(** What [DQNAgent.__init__] establishes and [step] keeps: the two
    networks register the same names and own pairwise distinct storages,
    all allocated; the optimizer holds the online parameters; the replay
    buffer is well formed and stores plain data. *)
Definition inv (s : DQNAgent.t) : Prop :=
  NoDup (locs (DQNAgent.qnet s) ++ locs (DQNAgent.qnet_support s))
  /\ names (DQNAgent.qnet_support s) = names (DQNAgent.qnet s)
  /\ NoDup (names (DQNAgent.qnet s))
  /\ Forall (fun l => (l < length (DQNAgent.memory s))%nat)
        (locs (DQNAgent.qnet s) ++ locs (DQNAgent.qnet_support s))
  /\ Adam.params (DQNAgent._optimizer s) = QNet.parameters (DQNAgent.qnet s)
  /\ ReplayBuffer.wf (DQNAgent.replay_buffer s)
  /\ Forall plain_exp (ReplayBuffer.contents (DQNAgent.replay_buffer s))
  /\ (forall o, DQNAgent._prev_observation s = Some o -> plain (vector o)).

(** The online network's scores for an experience's observation, with the
    weights read from [h]. *)
Definition online_scores (s : DQNAgent.t) (h : heap)
    (e : Experience Observation) : list Q :=
  qnet_forward (QNet.param_values (DQNAgent.qnet s) h)
    (image (observation e)) (value (vector (observation e))).

(** The target network's scores for the successor observation. *)
Definition target_scores (s : DQNAgent.t) (h : heap)
    (e : Experience Observation) : list Q :=
  qnet_forward (QNet.param_values (DQNAgent.qnet_support s) h)
    (image (next_observation e)) (value (vector (next_observation e))).

Definition predicted (s : DQNAgent.t) (h : heap)
    (e : Experience Observation) : Q :=
  match py_index (online_scores s h e) (action e) with
  | Ok v => v
  | Raise _ => 0%Q
  end.

(** reward + discount * (largest target score). *)
Definition td_target (s : DQNAgent.t) (h : heap)
    (e : Experience Observation) : Q :=
  (reward_formula (value (vector (observation e)))
   + DQNAgent._reward_discount s
     * match Qlist_max (target_scores s h e) with
       | Some m => m
       | None => 0
       end)%Q.

(** The batch loss in the words of the specification: the squared TD
    errors, each cut to [-1, 1] first, summed and divided by [batch_size].
    The targets are read at [h0], the predictions at [h]. *)
Definition loss_formula (s : DQNAgent.t) (h0 h : heap)
    (batch : list (Experience Observation)) : Q :=
  (fold_right
     (fun e acc =>
        let d := cut_to (- (1)) 1 (td_target s h0 e - predicted s h e) in
        d * d + acc)
     0 batch
   / inject_Z (DQNAgent.batch_size s))%Q.

(** The layers of a network accept an observation's shapes. *)
Definition accepted (net : QNet.t) (o : Observation) : Prop :=
  is_ok (Shapes.forward (QNet.training net) (QNet.n_images net)
           (QNet.vector_dim net) (QNet.n_action net)
           (image_shape (image o))
           [Z.of_nat (length (value (vector o)))]) = true.

(** The scores needed to process an experience exist: the online network
    accepts its observation, the target network the successor, and the
    scores the loop indexes are there. *)
Definition scored (s : DQNAgent.t) (h : heap)
    (e : Experience Observation) : Prop :=
  accepted (DQNAgent.qnet s) (observation e)
  /\ accepted (DQNAgent.qnet_support s) (next_observation e)
  /\ is_ok (py_index (online_scores s h e) (action e)) = true
  /\ target_scores s h e <> [].

End AgentVocabulary.

(** ** Vocabulary of the further properties *)

(** The expectation of [g] under a distribution. *)
Definition expect {A} (m : dist A) (g : A -> Q) : Q :=
  fold_right (fun wa acc => (fst wa * g (snd wa) + acc)%Q) 0%Q m.

(** The probability that a computation returns a value satisfying [P]. *)
Definition prob {A} (m : M A) (P : A -> bool) : Q :=
  expect m (fun r => match r with
                     | Ok a => if P a then 1%Q else 0%Q
                     | Raise _ => 0%Q
                     end).

(** The number of elements of [l] satisfying [P], as a rational. *)
Definition count_Q {A} (P : A -> bool) (l : list A) : Q :=
  fold_right (fun x acc => ((if P x then 1 else 0) + acc)%Q) 0%Q l.

Section StepVocabulary.
Context `{Torch}.

Import DQNAgent.

(** The shape of the storage at a location. *)
Definition shape_at (h : heap) (l : nat) : option (list Z) :=
  match h !! l with
  | Some s => Some (shape s)
  | None => None
  end.

(** No storage was added or removed and every storage kept its shape. *)
Definition same_shapes (h h' : heap) : Prop :=
  length h' = length h /\ forall l, shape_at h' l = shape_at h l.

(** [Observation(image=im_tensor, vector=vec_tensor)] for a raw
    observation that [obs_to_tensor] accepts. *)
Definition obs_now (s : DQNAgent.t) (obs : Image * list Q) : Observation :=
  match obs_to_tensor s obs with
  | Ok (im_tensor, vec_tensor) => mkObservation im_tensor vec_tensor
  | Raise _ => mkObservation (fst obs) (constant (snd obs))
  end.

(** The agent once [step] is past its "Stock into the replay buffer"
    block. *)
Definition stored (s : DQNAgent.t) (o : Observation) : DQNAgent.t :=
  match _prev_action s, _prev_observation s with
  | Some prev_action, Some prev_observation =>
      with_replay_buffer
        (ReplayBuffer.append (replay_buffer s) prev_observation
           prev_action o) s
  | _, _ => s
  end.

(** The agent once the scores of the observation have been computed. *)
Definition seen (s : DQNAgent.t) (obs : Image * list Q) : DQNAgent.t :=
  let s1 := stored s (obs_now s obs) in
  with_memory
    (QNet.forward_heap (qnet s1) (memory s1) (image (obs_now s obs))) s1.

(** The scores [get_greedy_action] ranks inside [step]. *)
Definition step_scores (s : DQNAgent.t) (obs : Image * list Q) : list Q :=
  qnet_forward (QNet.param_values (qnet s) (memory s))
    (image (obs_now s obs)) (snd obs).

(** The experiences a sequence of observations and actions gives rise
    to: each observation with the action taken on it and the observation
    that followed. *)
Fixpoint transitions (os : list Observation) (acts : list Z)
  : list (Experience Observation) :=
  match os, acts with
  | o :: ((o' :: _) as os'), a :: acts' =>
      mkExperience o a o' :: transitions os' acts'
  | _, _ => []
  end.

(** Consecutive calls of [step] that return: the observations passed,
    the actions returned, and the agent the last call leaves. The [done]
    flags are any. *)
Inductive steps : DQNAgent.t -> list (Image * list Q) -> list Z
                  -> DQNAgent.t -> Prop :=
| steps_nil (s : DQNAgent.t) : steps s [] [] s
| steps_cons (s s1 s' : DQNAgent.t) (o : Image * list Q) (done : bool)
    (a : Z) (os : list (Image * list Q)) (acts : list Z) :
    outcome (step s o done) (Ok (a, s1)) ->
    steps s1 os acts s' ->
    steps s (o :: os) (a :: acts) s'.

(** What no method ever changes after construction: the two modules, the
    settings read from the configuration, the list of parameters the
    optimizer was given, and the number and shapes of the storages. *)
Definition same_setup (s s' : DQNAgent.t) : Prop :=
  qnet s' = qnet s /\ qnet_support s' = qnet_support s
  /\ n_action s' = n_action s
  /\ training_start_from s' = training_start_from s
  /\ batch_size s' = batch_size s
  /\ iteration s' = iteration s
  /\ replay_buffer_size s' = replay_buffer_size s
  /\ eps_e_greedy s' = eps_e_greedy s
  /\ _reward_discount s' = _reward_discount s
  /\ Adam.params (_optimizer s') = Adam.params (_optimizer s)
  /\ same_shapes (memory s) (memory s')
  /\ shape_obs_image s' = shape_obs_image s.

(** The names and shapes a module's tensors have in a heap, in
    [state_dict()] order. *)
Definition signature (net : QNet.t) (h : heap)
  : list (string * option (list Z)) :=
  List.map (fun e => (fst (fst e), shape_at h (snd e))) (QNet.entries net).

(** Name by name, the tensors of the target network have the shapes of
    the online network's. *)
Definition aligned (s : DQNAgent.t) : Prop :=
  signature (qnet_support s) (memory s) = signature (qnet s) (memory s).

(** The names and shapes a layout asks for. *)
Definition layout_signature (lay : list (string * QNet.kind * list Z))
  : list (string * option (list Z)) :=
  List.map (fun e => (fst (fst e), Some (snd e))) lay.

End StepVocabulary.

(** * Properties *)

(** ** The distribution monad *)

Lemma outcome_dret {A} (x y : A) : outcome (dret x) y <-> x = y.
Proof.
  unfold outcome, dret. split.
  - intros [w [E | []]]. congruence.
  - intros ->. exists 1%Q. now left.
Qed.

Lemma outcome_dbind {A B} (m : dist A) (f : A -> dist B) (y : B) :
  outcome (dbind m f) y <-> exists x, outcome m x /\ outcome (f x) y.
Proof.
  unfold outcome, dbind, dscale. split.
  - intros [w Hin]. apply in_flat_map in Hin as [[v x] [Hx Hy]].
    apply in_map_iff in Hy as [[u y'] [E Hy]]. simpl in E.
    injection E as _ ->. exists x. split; eauto.
  - intros [x [[v Hx] [u Hy]]]. exists (v * u)%Q.
    apply in_flat_map. exists (v, x). split; [assumption|].
    apply in_map_iff. exists (u, y). auto.
Qed.

Section DistFacts.
Context {A B : Type}.

Lemma outcome_mbind (m : M A) (f : A -> M B) (r : result B) :
  outcome (mbind m f) r <->
  (exists a, outcome m (Ok a) /\ outcome (f a) r)
  \/ (exists e, outcome m (Raise e) /\ r = Raise e).
Proof.
  unfold mbind. rewrite outcome_dbind. split.
  - intros [[a | e] [Hm Hr]].
    + left. eauto.
    + right. exists e. split; [assumption|].
      unfold mraise in Hr. apply outcome_dret in Hr. congruence.
  - intros [[a [Hm Hr]] | [e [Hm ->]]].
    + exists (Ok a). auto.
    + exists (Raise e). split; [assumption|]. now apply outcome_dret.
Qed.

Lemma outcome_mbind_ok (m : M A) (f : A -> M B) (b : B) :
  outcome (mbind m f) (Ok b) <->
  exists a, outcome m (Ok a) /\ outcome (f a) (Ok b).
Proof.
  rewrite outcome_mbind. split.
  - intros [Hl | [e [_ E]]]; [assumption | discriminate].
  - intros Hl. now left.
Qed.

Lemma outcome_lift (r r' : result A) : outcome (lift r) r' <-> r = r'.
Proof. apply outcome_dret. Qed.

Lemma outcome_mret (a : A) (r : result A) : outcome (mret a) r <-> r = Ok a.
Proof. unfold mret. rewrite outcome_dret. split; congruence. Qed.

Lemma outcome_random_choice (l : list A) (r : result A) :
  outcome (random_choice l) r <->
  (l = [] /\ r = Raise IndexError) \/ (exists x, In x l /\ r = Ok x).
Proof.
  unfold random_choice. destruct l as [|a l].
  - unfold mraise. rewrite outcome_dret. split.
    + intros <-. now left.
    + intros [[_ ->] | [x [[] _]]]. reflexivity.
  - split.
    + intros [w Hin]. apply in_map_iff in Hin as [x [E Hx]].
      right. exists x. split; [assumption | congruence].
    + intros [[E _] | [x [Hx ->]]]; [discriminate|].
      eexists. apply in_map_iff. exists x. split; [reflexivity | assumption].
Qed.

End DistFacts.

Lemma range_spec (n i : Z) : In i (range n) <-> 0 <= i < n.
Proof.
  unfold range. rewrite in_map_iff. split.
  - intros [k [<- Hk]]. apply in_seq in Hk. lia.
  - intros Hi. exists (Z.to_nat i). split; [lia|]. apply in_seq. lia.
Qed.

Lemma range_nil (n : Z) : range n = [] <-> n <= 0.
Proof.
  unfold range. split.
  - intros E. apply (f_equal (@length Z)) in E.
    rewrite length_map, length_seq in E. simpl in E. lia.
  - intros Hn. replace (Z.to_nat n) with O by lia. reflexivity.
Qed.

Lemma py_index_nonneg {A} (l : list A) (i : Z) :
  0 <= i < Z.of_nat (length l) ->
  exists x, py_index l i = Ok x /\ l !! Z.to_nat i = Some x.
Proof.
  intros Hi. unfold py_index.
  destruct (Z.ltb_spec i 0); [lia|].
  destruct (Z.ltb_spec i 0); [lia|].
  destruct (Z.leb_spec (Z.of_nat (length l)) i); [lia|]. simpl.
  destruct (l !! Z.to_nat i) as [x|] eqn:E; [eauto|].
  apply lookup_ge_None in E. lia.
Qed.

Lemma py_index_negative {A} (l : list A) (i : Z) :
  - Z.of_nat (length l) <= i < 0 ->
  exists x, py_index l i = Ok x
            /\ l !! Z.to_nat (Z.of_nat (length l) + i) = Some x.
Proof.
  intros Hi. unfold py_index.
  destruct (Z.ltb_spec i 0); [|lia].
  destruct (Z.ltb_spec (i + Z.of_nat (length l)) 0); [lia|].
  destruct (Z.leb_spec (Z.of_nat (length l)) (i + Z.of_nat (length l))); [lia|].
  simpl. replace (Z.of_nat (length l) + i) with (i + Z.of_nat (length l)) by lia.
  destruct (l !! Z.to_nat (i + Z.of_nat (length l))) as [x|] eqn:E; [eauto|].
  apply lookup_ge_None in E. lia.
Qed.

Lemma py_index_out_of_range {A} (l : list A) (i : Z) :
  i < - Z.of_nat (length l) \/ Z.of_nat (length l) <= i ->
  py_index l i = Raise IndexError.
Proof.
  intros Hi. unfold py_index.
  destruct (Z.ltb_spec i 0).
  - destruct (Z.ltb_spec (i + Z.of_nat (length l)) 0); [reflexivity | lia].
  - destruct (Z.ltb_spec i 0); [lia|].
    destruct (Z.leb_spec (Z.of_nat (length l)) i); [reflexivity | lia].
Qed.

(** ** ReplayBuffer *)

Section ReplayBufferFacts.
Context {Obs : Type}.
Implicit Types (rb : ReplayBuffer.t Obs) (e : Experience Obs).

Import ReplayBuffer.

Lemma deque_append_items {A} (d : deque.t A) (x : A) :
  deque.len d <= deque.maxlen d ->
  deque.items (deque.append d x)
  = drop (length (deque.items d ++ [x]) - Z.to_nat (deque.maxlen d))
         (deque.items d ++ [x])
  /\ deque.maxlen (deque.append d x) = deque.maxlen d.
Proof.
  unfold deque.len, deque.append. intros Hle.
  rewrite length_app. simpl.
  destruct (Z.ltb_spec (deque.maxlen d)
              (Z.of_nat (length (deque.items d) + 1))); simpl.
  - split; [|reflexivity].
    replace (length (deque.items d) + 1 - Z.to_nat (deque.maxlen d))%nat
      with 1%nat by lia.
    destruct (deque.items d ++ [x]); reflexivity.
  - split; [|reflexivity].
    replace (length (deque.items d) + 1 - Z.to_nat (deque.maxlen d))%nat
      with 0%nat by lia.
    reflexivity.
Qed.

Lemma deque_new_cases {A} (n : Z) :
  (n < - 2 ^ 63 \/ 2 ^ 63 <= n -> @deque.new A n = Raise OverflowError)
  /\ (- 2 ^ 63 <= n < 0 -> @deque.new A n = Raise ValueError)
  /\ (0 <= n < 2 ^ 63 -> @deque.new A n = Ok (deque.mk n [])).
Proof.
  unfold deque.new.
  destruct (Z.ltb_spec n (- 2 ^ 63)), (Z.leb_spec (2 ^ 63) n),
    (Z.ltb_spec n 0); cbn [orb]; repeat split; intros; try reflexivity; lia.
Qed.

Lemma deque_new_ok {A} (n : Z) (d : deque.t A) :
  deque.new n = Ok d <-> 0 <= n < 2 ^ 63 /\ d = deque.mk n [].
Proof.
  destruct (deque_new_cases (A := A) n) as (Hov & Hneg & Hok). split.
  - intros E.
    destruct (Z.lt_ge_cases n (- 2 ^ 63)) as [H1 | H1];
      [rewrite Hov in E by lia; discriminate|].
    destruct (Z.le_gt_cases (2 ^ 63) n) as [H2 | H2];
      [rewrite Hov in E by lia; discriminate|].
    destruct (Z.lt_ge_cases n 0) as [H3 | H3];
      [rewrite Hneg in E by lia; discriminate|].
    rewrite Hok in E by lia. injection E as <-. split; [lia | reflexivity].
  - intros [Hn ->]. now apply Hok.
Qed.

Lemma init_wf (capacity : Z) rb :
  __init__ capacity = Ok rb ->
  wf rb /\ contents rb = [] /\ buffer_size rb = capacity.
Proof.
  unfold __init__.
  destruct (deque.new capacity) as [d|] eqn:E; [|discriminate].
  apply deque_new_ok in E as [Hn ->].
  intros E. injection E as <-. unfold wf, contents, deque.len. simpl.
  repeat split; lia.
Qed.

Lemma append_contents rb (o : Obs) (a : Z) (o' : Obs) :
  wf rb ->
  contents (append rb o a o')
  = drop (length (contents rb ++ [mkExperience o a o'])
          - Z.to_nat (buffer_size rb))
         (contents rb ++ [mkExperience o a o']).
Proof.
  intros (Hn & Hm & H0 & Hle). unfold contents, append. simpl.
  rewrite <- Hm. apply deque_append_items. lia.
Qed.

Lemma append_wf rb (o : Obs) (a : Z) (o' : Obs) :
  wf rb -> wf (append rb o a o').
Proof.
  intros Hwf. pose proof (append_contents rb o a o' Hwf) as Hc.
  destruct Hwf as (Hn & Hm & H0 & Hle).
  unfold wf. unfold contents in Hc.
  assert (Hm' : deque.maxlen (buffer_experience (append rb o a o'))
                = buffer_size rb).
  { simpl. rewrite <- Hm. apply deque_append_items. lia. }
  repeat split; try assumption.
  unfold deque.len in *. rewrite Hc, length_drop, length_app. simpl.
  change (buffer_size (append rb o a o')) with (buffer_size rb). lia.
Qed.

Lemma append_all_wf rb (es : list (Experience Obs)) :
  wf rb -> wf (append_all rb es).
Proof.
  revert rb. induction es as [|e es IH]; intros rb Hwf; [assumption|].
  apply IH. now apply append_wf.
Qed.

Lemma append_all_buffer_size rb (es : list (Experience Obs)) :
  buffer_size (append_all rb es) = buffer_size rb.
Proof.
  revert rb. induction es as [|e es IH]; intros rb; [reflexivity|].
  change (append_all rb (e :: es))
    with (append_all (append rb (observation e) (action e)
                        (next_observation e)) es).
  now rewrite IH.
Qed.

Lemma append_all_contents rb (es : list (Experience Obs)) :
  wf rb ->
  contents (append_all rb es)
  = drop (length (contents rb ++ es) - Z.to_nat (buffer_size rb))
         (contents rb ++ es).
Proof.
  revert rb. induction es as [|[o a o'] es IH]; intros rb Hwf.
  - simpl. rewrite app_nil_r.
    destruct Hwf as (Hn & Hm & H0 & Hle). unfold deque.len, contents in *.
    replace (length (deque.items (buffer_experience rb))
             - Z.to_nat (buffer_size rb))%nat with 0%nat by lia.
    reflexivity.
  - change (append_all rb (mkExperience o a o' :: es))
      with (append_all (append rb o a o') es).
    rewrite (IH _ (append_wf rb o a o' Hwf)).
    rewrite (append_contents rb o a o' Hwf).
    change (buffer_size (append rb o a o')) with (buffer_size rb).
    set (c := contents rb). set (x := mkExperience o a o').
    set (cap := Z.to_nat (buffer_size rb)).
    assert (Hd : (length (c ++ [x]) - cap <= length (c ++ [x]))%nat) by lia.
    rewrite <- (drop_app_le (c ++ [x]) es _ Hd).
    rewrite drop_drop, <- app_assoc. simpl.
    f_equal. rewrite length_drop, !length_app. simpl.
    destruct Hwf as (Hn & Hm & H0 & Hle). unfold deque.len in Hle.
    fold (contents rb) in Hle. fold c in Hle. lia.
Qed.

Lemma wf_size rb :
  wf rb -> n_experience rb = Z.of_nat (length (contents rb)).
Proof. now intros (Hn & _). Qed.

Lemma clear_wf rb : wf rb -> wf (clear rb).
Proof.
  intros (Hn & Hm & H0 & Hle). unfold wf, clear, deque.clear, deque.len.
  simpl. repeat split; try assumption; lia.
Qed.

(** C2. From a fresh buffer and through any sequence of [append] calls, the
    size counter is the number of experiences held and never exceeds the
    capacity; an [append] never lowers it and raises it by at most one,
    [clear] sets it to 0; and after [capacity + k] appends the buffer holds
    exactly the last [capacity] appended experiences, oldest first. *)
Theorem replay_buffer_bounded_fifo (capacity : Z) rb0
    (es : list (Experience Obs)) :
  __init__ capacity = Ok rb0 ->
  n_experience (append_all rb0 es)
  = Z.of_nat (length (contents (append_all rb0 es)))
  /\ n_experience (append_all rb0 es) <= capacity
  /\ (forall k : nat, Z.of_nat (length es) = capacity + Z.of_nat k ->
        contents (append_all rb0 es) = drop k es
        /\ n_experience (append_all rb0 es) = capacity)
  /\ (forall o a o',
        n_experience (append_all rb0 es)
        <= n_experience (append (append_all rb0 es) o a o')
        <= n_experience (append_all rb0 es) + 1)
  /\ n_experience (clear (append_all rb0 es)) = 0.
Proof.
  intros Hinit. set (rb := append_all rb0 es).
  apply init_wf in Hinit as (Hwf0 & Hc0 & Hcap).
  assert (Hwf : wf rb) by now apply append_all_wf.
  assert (Hsz : buffer_size rb = capacity).
  { unfold rb. now rewrite append_all_buffer_size. }
  pose proof (wf_size rb Hwf) as Hn.
  assert (Hc : contents rb = drop (length es - Z.to_nat capacity) es).
  { unfold rb. rewrite (append_all_contents rb0 es Hwf0), Hc0, Hcap.
    reflexivity. }
  split; [assumption|].
  split.
  { destruct Hwf as (Hn' & _ & _ & Hle). rewrite Hn', <- Hsz. exact Hle. }
  split.
  { intros k Hk. rewrite Hn, Hc, length_drop.
    replace (length es - Z.to_nat capacity)%nat with k.
    - split; [reflexivity|].
      destruct Hwf0 as (_ & _ & H0 & _). lia.
    - destruct Hwf0 as (_ & _ & H0 & _). lia. }
  split.
  { intros o a o'.
    pose proof (append_wf rb o a o' Hwf) as Hwf'.
    rewrite (wf_size _ Hwf'), Hn, (append_contents rb o a o' Hwf).
    rewrite length_drop, length_app. simpl.
    destruct Hwf as (_ & _ & H0 & Hle). unfold deque.len in Hle.
    fold (contents rb) in Hle. lia. }
  reflexivity.
Qed.

Lemma get_single_experience_assert rb (i : Z) :
  n_experience rb - 1 <= i -> get_single_experience rb i = Raise AssertionError.
Proof.
  intros Hi. unfold get_single_experience.
  destruct (Z.gtb_spec (n_experience rb - 1) i); [lia | reflexivity].
Qed.

Lemma get_single_experience_in_range rb (i : Z) :
  wf rb -> 0 <= i < n_experience rb - 1 ->
  exists e, get_single_experience rb i = Ok e
            /\ contents rb !! Z.to_nat i = Some e.
Proof.
  intros Hwf Hi. unfold get_single_experience, deque.getitem.
  destruct (Z.gtb_spec (n_experience rb - 1) i); [|lia].
  apply py_index_nonneg. rewrite (wf_size rb Hwf) in Hi.
  lia.
Qed.

(** C5. An index at or beyond [n_experience - 1] makes
    [get_single_experience] raise (the [assert] fails, no entry is
    returned in its place), while index 0 on a buffer of at least two
    experiences returns the oldest entry. *)
Theorem get_single_experience_bounds rb :
  wf rb ->
  (forall i, n_experience rb - 1 <= i ->
     get_single_experience rb i = Raise AssertionError)
  /\ (2 <= n_experience rb ->
      exists e, get_single_experience rb 0 = Ok e
                /\ head (contents rb) = Some e).
Proof.
  intros Hwf. split.
  - intros i. apply get_single_experience_assert.
  - intros Hn.
    destruct (get_single_experience_in_range rb 0 Hwf) as [e [He Hl]]; [lia|].
    exists e. split; [assumption|].
    simpl in Hl. destruct (contents rb); [discriminate | exact Hl].
Qed.

(** C10, as the code has it. On a buffer of at least one experience a
    negative index never trips the [assert]; an index in
    [-n_experience, -1] returns the entry counted from the newest end (so
    [-1] returns the most recent experience), and an index below
    [-n_experience] raises [IndexError] from the deque. *)
Theorem get_single_experience_negative rb (i : Z) :
  wf rb -> 1 <= n_experience rb -> i < 0 ->
  get_single_experience rb i <> Raise AssertionError
  /\ (- n_experience rb <= i ->
      exists e, get_single_experience rb i = Ok e
                /\ contents rb !! Z.to_nat (n_experience rb + i) = Some e)
  /\ (i = -1 ->
      exists e, get_single_experience rb i = Ok e
                /\ last (contents rb) = Some e)
  /\ (i < - n_experience rb -> get_single_experience rb i = Raise IndexError).
Proof.
  intros Hwf Hn Hi. pose proof (wf_size rb Hwf) as Hlen.
  unfold get_single_experience, deque.getitem.
  destruct (Z.gtb_spec (n_experience rb - 1) i); [|lia].
  fold (contents rb).
  assert (Hin : - n_experience rb <= i ->
                exists e, py_index (contents rb) i = Ok e
                  /\ contents rb !! Z.to_nat (n_experience rb + i) = Some e).
  { intros Hlo. rewrite Hlen. apply py_index_negative. lia. }
  split; [|split; [exact Hin | split]].
  - destruct (Z.le_gt_cases (- n_experience rb) i) as [Hlo | Hlo].
    + destruct (Hin Hlo) as [e [-> _]]. discriminate.
    + rewrite py_index_out_of_range by lia. discriminate.
  - intros ->. destruct Hin as [e [He Hl]]; [lia|].
    exists e. split; [assumption|].
    rewrite last_lookup. rewrite <- Hl. f_equal. lia.
  - intros Hlo. apply py_index_out_of_range. lia.
Qed.

End ReplayBufferFacts.

Lemma replay_buffer_bounded_fifo_witness :
  ReplayBuffer.__init__ 2 = Ok (Demo.buffer_of 2 [])
  /\ ReplayBuffer.contents
       (Demo.buffer_of 2 [Demo.exp 0; Demo.exp 1; Demo.exp 2])
     = [Demo.exp 1; Demo.exp 2].
Proof.
  split; [reflexivity|].
  destruct (replay_buffer_bounded_fifo 2 (Demo.buffer_of 2 [])
              [Demo.exp 0; Demo.exp 1; Demo.exp 2] eq_refl)
    as (_ & _ & Hlast & _).
  apply (Hlast 1%nat). reflexivity.
Defined.

Lemma demo_buffer_wf (capacity : Z) (es : list (Experience nat)) :
  0 <= capacity -> ReplayBuffer.wf (Demo.buffer_of capacity es).
Proof.
  intros Hc. apply append_all_wf.
  unfold ReplayBuffer.wf, deque.len. simpl. lia.
Qed.

Lemma get_single_experience_bounds_witness :
  ReplayBuffer.get_single_experience
    (Demo.buffer_of 5 [Demo.exp 0; Demo.exp 1; Demo.exp 2]) 2
  = Raise AssertionError
  /\ exists e,
       ReplayBuffer.get_single_experience
         (Demo.buffer_of 5 [Demo.exp 0; Demo.exp 1; Demo.exp 2]) 0 = Ok e
       /\ head (ReplayBuffer.contents
                  (Demo.buffer_of 5 [Demo.exp 0; Demo.exp 1; Demo.exp 2]))
          = Some e.
Proof.
  destruct (get_single_experience_bounds
              (Demo.buffer_of 5 [Demo.exp 0; Demo.exp 1; Demo.exp 2]))
    as [Hhi Hlo].
  - apply demo_buffer_wf. lia.
  - split.
    + apply Hhi. vm_compute. discriminate.
    + apply Hlo. vm_compute. discriminate.
Defined.

(** C10 as stated fails: on a buffer holding one experience the negative
    index -2 passes the [assert] and the deque then raises [IndexError]. *)
Lemma get_single_experience_negative_raises :
  ReplayBuffer.wf (Demo.buffer_of 5 [Demo.exp 0])
  /\ 1 <= ReplayBuffer.n_experience (Demo.buffer_of 5 [Demo.exp 0])
  /\ ReplayBuffer.get_single_experience (Demo.buffer_of 5 [Demo.exp 0]) (-2)
     = Raise IndexError.
Proof.
  split; [apply demo_buffer_wf; lia|].
  split; [vm_compute; discriminate | reflexivity].
Qed.

Lemma get_single_experience_negative_witness :
  exists e,
    ReplayBuffer.get_single_experience
      (Demo.buffer_of 5 [Demo.exp 0; Demo.exp 1; Demo.exp 2]) (-1) = Ok e
    /\ last (ReplayBuffer.contents
               (Demo.buffer_of 5 [Demo.exp 0; Demo.exp 1; Demo.exp 2]))
       = Some e.
Proof.
  apply (get_single_experience_negative
           (Demo.buffer_of 5 [Demo.exp 0; Demo.exp 1; Demo.exp 2]) (-1)).
  - apply demo_buffer_wf. lia.
  - vm_compute. discriminate.
  - lia.
  - reflexivity.
Defined.

(** ** Sampling from the buffer *)

Lemma Forall2_flat_map {A B C} (R : A -> B -> Prop) (f : C -> list A)
    (g : C -> list B) (l : list C) :
  (forall x, In x l -> Forall2 R (f x) (g x)) ->
  Forall2 R (List.flat_map f l) (List.flat_map g l).
Proof.
  induction l as [|x l IH]; intros Hfg; simpl; [constructor|].
  apply Forall2_app.
  - apply Hfg. now left.
  - apply IH. intros y Hy. apply Hfg. now right.
Qed.

Lemma Forall2_dscale {A B} (R R' : Q * A -> B -> Prop) (w : Q)
    (d : dist A) (l : list B) :
  (forall wa b, R' wa b -> R ((w * fst wa)%Q, snd wa) b) ->
  Forall2 R' d l -> Forall2 R (dscale w d) l.
Proof.
  intros Himp HF. induction HF; simpl; constructor; auto.
Qed.

Lemma Forall2_map_right {A B C} (R : A -> C -> Prop) (h : B -> C)
    (l : list A) (k : list B) :
  Forall2 (fun a b => R a (h b)) l k -> Forall2 R l (List.map h k).
Proof.
  intros HF. induction HF; simpl; constructor; auto.
Qed.

Lemma flat_map_map {A B C} (f : B -> list C) (g : A -> B) (l : list A) :
  List.flat_map f (List.map g l) = List.flat_map (fun x => f (g x)) l.
Proof.
  induction l as [|x l IH]; simpl; [reflexivity | now rewrite IH].
Qed.

Lemma tuples_spec (k m : nat) (idxs : list nat) :
  In idxs (tuples k m) <-> length idxs = k /\ Forall (fun i => (i < m)%nat) idxs.
Proof.
  revert idxs. induction k as [|k IH]; intros idxs; simpl.
  - split.
    + intros [<- | []]. split; [reflexivity | constructor].
    + intros [Hl _]. left. destruct idxs; [reflexivity | discriminate].
  - rewrite in_flat_map. split.
    + intros [i [Hi Hin]]. apply in_map_iff in Hin as [t [<- Ht]].
      apply IH in Ht as [Hl HF]. apply in_seq in Hi.
      split; [simpl; lia|]. constructor; [lia | assumption].
    + intros [Hl HF]. destruct idxs as [|i t]; [discriminate|].
      inversion HF; subst. exists i. split; [apply in_seq; lia|].
      apply in_map_iff. exists t. split; [reflexivity|].
      apply IH. split; [simpl in Hl; lia | assumption].
Qed.

Lemma NoDup_flat_map_cons (l : list nat) (T : list (list nat)) :
  NoDup l -> NoDup T ->
  NoDup (List.flat_map (fun i => List.map (cons i) T) l).
Proof.
  intros Hl HT. induction Hl as [|i l Hi Hl IH]; simpl; [constructor|].
  apply NoDup_app. split; [|split].
  - apply NoDup_ListNoDup, Finite.Injective_map_NoDup;
      [|now apply NoDup_ListNoDup].
    intros x y E. now injection E.
  - intros t Ht Ht'. apply list_elem_of_In in Ht, Ht'.
    apply in_map_iff in Ht as [t1 [<- _]].
    apply in_flat_map in Ht' as [j [Hj Hin]].
    apply in_map_iff in Hin as [t2 [E _]]. injection E as -> _.
    apply Hi. now apply list_elem_of_In.
  - exact IH.
Qed.

Lemma tuples_NoDup (k m : nat) : NoDup (tuples k m).
Proof.
  induction k as [|k IH]; simpl.
  - apply NoDup_singleton.
  - apply NoDup_flat_map_cons; [apply NoDup_seq | exact IH].
Qed.

Section SamplingFacts.
Context {Obs : Type}.
Implicit Types (rb : ReplayBuffer.t Obs).

Import ReplayBuffer.

Lemma batch_of_spec rb (idxs : list nat) :
  Forall (fun i => (i < length (contents rb))%nat) idxs ->
  Forall2 (fun i e => contents rb !! i = Some e) idxs (batch_of rb idxs).
Proof.
  unfold batch_of. induction 1 as [|i idxs Hi _ IH]; simpl; [constructor|].
  destruct (contents rb !! i) as [e|] eqn:E.
  - constructor; assumption.
  - apply lookup_ge_None in E. lia.
Qed.

Lemma batch_loop_fails rb (k : nat) (acc : list (Experience Obs))
    (r : result (list (Experience Obs))) :
  n_experience rb < 2 ->
  outcome (batch_loop rb (S k) acc) r <-> r = Raise IndexError.
Proof.
  intros Hn. simpl.
  assert (E : range (n_experience rb - 1) = []) by (apply range_nil; lia).
  rewrite E. rewrite outcome_mbind. split.
  - intros [[a [Ha _]] | [e [He ->]]].
    + apply outcome_random_choice in Ha as [[_ Ha] | [x [[] _]]]. discriminate.
    + apply outcome_random_choice in He as [[_ He] | [x [[] _]]]. congruence.
  - intros ->. right. exists IndexError. split; [|reflexivity].
    apply outcome_random_choice. now left.
Qed.

Lemma batch_loop_uniform rb (k : nat) (acc : list (Experience Obs)) :
  wf rb -> 2 <= n_experience rb ->
  Forall2
    (fun wo idxs =>
       fst wo == Qpow_nat (1 / inject_Z (n_experience rb - 1)) k
       /\ snd wo = Ok (acc ++ batch_of rb idxs))
    (batch_loop rb k acc)
    (tuples k (Z.to_nat (n_experience rb - 1))).
Proof.
  intros Hwf Hn. revert acc. induction k as [|k IH]; intros acc.
  - simpl. constructor; [|constructor]. simpl.
    split; [reflexivity | now rewrite app_nil_r].
  - simpl. set (m := Z.to_nat (n_experience rb - 1)).
    assert (Hr : range (n_experience rb - 1) = List.map Z.of_nat (seq 0 m))
      by reflexivity.
    assert (Hlen : length (range (n_experience rb - 1)) = m).
    { rewrite Hr, length_map, length_seq. reflexivity. }
    unfold random_choice. rewrite Hlen.
    destruct (range (n_experience rb - 1)) as [|z0 zs] eqn:Hrange.
    { apply range_nil in Hrange. lia. }
    rewrite Hr. unfold mbind at 1, dbind. rewrite !flat_map_map. simpl.
    apply Forall2_flat_map. intros i Hi. apply in_seq in Hi.
    destruct (get_single_experience_in_range rb (Z.of_nat i) Hwf)
      as [e [He Hl]]; [lia|].
    rewrite Nat2Z.id in Hl. rewrite He.
    unfold lift, mbind, dbind, dret. simpl. rewrite app_nil_r.
    apply Forall2_map_right.
    eapply Forall2_dscale; [|eapply Forall2_dscale; [|apply IH]].
    + intros wa b Hab. exact Hab.
    + intros [w r] idxs [Hw Hs]. simpl in *. split.
      * rewrite Hw. replace (Z.of_nat m) with (n_experience rb - 1) by lia.
        ring.
      * rewrite Hs. unfold batch_of. simpl. rewrite Hl.
        now rewrite <- app_assoc.
Qed.

Lemma Forall2_In_left {A B} (R : A -> B -> Prop) (l : list A) (k : list B)
    (x : A) :
  Forall2 R l k -> In x l -> exists y, In y k /\ R x y.
Proof.
  induction 1 as [|a b l k Hab _ IH]; intros Hin; [destruct Hin|].
  destruct Hin as [<- | Hin].
  - exists b. split; [now left | assumption].
  - destruct (IH Hin) as [y [Hy HR]]. exists y. split; [now right | assumption].
Qed.

Lemma Forall2_impl_In_right {A B} (R R' : A -> B -> Prop) (l : list A)
    (k : list B) :
  Forall2 R l k -> (forall x y, In y k -> R x y -> R' x y) -> Forall2 R' l k.
Proof.
  induction 1 as [|a b l k Hab _ IH]; intros Himp; constructor.
  - apply Himp; [now left | assumption].
  - apply IH. intros x y Hy. apply Himp. now right.
Qed.

Lemma batch_of_length rb (idxs : list nat) :
  Forall (fun i => (i < length (contents rb))%nat) idxs ->
  length (batch_of rb idxs) = length idxs.
Proof.
  intros HF. symmetry. eapply Forall2_length, batch_of_spec, HF.
Qed.

Lemma sampling_cases rb (batch_size : Z) :
  wf rb ->
  (2 <= n_experience rb -> 0 <= batch_size ->
   Forall2
     (fun wo idxs =>
        fst wo == Qpow_nat (1 / inject_Z (n_experience rb - 1))
                    (Z.to_nat batch_size)
        /\ snd wo = Ok (batch_of rb idxs)
        /\ Z.of_nat (length (batch_of rb idxs)) = batch_size
        /\ Forall2 (fun i e => contents rb !! i = Some e) idxs
             (batch_of rb idxs))
     (get_batch_experience rb batch_size)
     (tuples (Z.to_nat batch_size) (Z.to_nat (n_experience rb - 1)))
   /\ NoDup (tuples (Z.to_nat batch_size) (Z.to_nat (n_experience rb - 1)))
   /\ (forall idxs,
         In idxs (tuples (Z.to_nat batch_size)
                    (Z.to_nat (n_experience rb - 1)))
         <-> Z.of_nat (length idxs) = batch_size
             /\ Forall (fun i => Z.of_nat i <= n_experience rb - 2) idxs))
  /\ (n_experience rb < 2 -> 1 <= batch_size ->
      forall r, outcome (get_batch_experience rb batch_size) r
                <-> r = Raise IndexError)
  /\ (batch_size <= 0 -> get_batch_experience rb batch_size = mret []).
Proof.
  intros Hwf. split; [|split].
  - intros Hn Hb.
    assert (Hspec : forall idxs,
              In idxs (tuples (Z.to_nat batch_size)
                         (Z.to_nat (n_experience rb - 1)))
              <-> Z.of_nat (length idxs) = batch_size
                  /\ Forall (fun i => Z.of_nat i <= n_experience rb - 2) idxs).
    { intros idxs. rewrite tuples_spec. split; intros [Hl HF]; split;
        try lia; eapply Forall_impl; try exact HF; simpl; intros; lia. }
    split; [|split; [apply tuples_NoDup | exact Hspec]].
    pose proof (batch_loop_uniform rb (Z.to_nat batch_size) [] Hwf Hn) as HF.
    unfold get_batch_experience.
    eapply Forall2_impl_In_right; [exact HF|].
    intros wo idxs Hin [Hw Hs]. simpl in Hs.
    apply Hspec in Hin as [Hlen Hrange].
    assert (Hlt : Forall (fun i => (i < length (contents rb))%nat) idxs).
    { eapply Forall_impl; [exact Hrange|]. simpl. intros i Hi.
      rewrite (wf_size rb Hwf) in Hi. lia. }
    repeat split; try assumption.
    + rewrite (batch_of_length rb idxs Hlt). exact Hlen.
    + apply batch_of_spec, Hlt.
  - intros Hn Hb r. unfold get_batch_experience.
    destruct (Z.to_nat batch_size) as [|k] eqn:E; [lia|].
    now apply batch_loop_fails.
  - intros Hb. unfold get_batch_experience.
    replace (Z.to_nat batch_size) with O by lia. reflexivity.
Qed.

(** C6, as the code has it. With at least two experiences held and
    [batch_size >= 0], the outcomes of [get_batch_experience] are, one for
    one, the tuples of [batch_size] ordinal indices in [0, size - 2] (every
    such tuple exactly once), each with the same probability
    [(1 / (size - 1)) ^ batch_size]: the batch has [batch_size] entries,
    drawn independently and uniformly with replacement from the entries at
    indices 0 to [size - 2]. With fewer than two experiences the call raises
    [IndexError] when [batch_size >= 1], and for [batch_size <= 0] it
    returns the empty batch whatever the buffer holds. *)
Theorem get_batch_experience_uniform rb (batch_size : Z) :
  wf rb ->
  (2 <= n_experience rb -> 0 <= batch_size ->
   Forall2
     (fun wo idxs =>
        fst wo == Qpow_nat (1 / inject_Z (n_experience rb - 1))
                    (Z.to_nat batch_size)
        /\ snd wo = Ok (batch_of rb idxs)
        /\ Z.of_nat (length (batch_of rb idxs)) = batch_size
        /\ Forall2 (fun i e => contents rb !! i = Some e) idxs
             (batch_of rb idxs))
     (get_batch_experience rb batch_size)
     (tuples (Z.to_nat batch_size) (Z.to_nat (n_experience rb - 1)))
   /\ NoDup (tuples (Z.to_nat batch_size) (Z.to_nat (n_experience rb - 1)))
   /\ (forall idxs,
         In idxs (tuples (Z.to_nat batch_size)
                    (Z.to_nat (n_experience rb - 1)))
         <-> Z.of_nat (length idxs) = batch_size
             /\ Forall (fun i => Z.of_nat i <= n_experience rb - 2) idxs))
  /\ (n_experience rb < 2 -> 1 <= batch_size ->
      forall r, outcome (get_batch_experience rb batch_size) r
                <-> r = Raise IndexError)
  /\ (batch_size <= 0 -> get_batch_experience rb batch_size = mret []).
Proof. apply sampling_cases. Qed.

Lemma sampled_batch rb (batch_size : Z)
    (r : result (list (Experience Obs))) :
  wf rb -> outcome (get_batch_experience rb batch_size) r ->
  (2 <= n_experience rb \/ batch_size <= 0 ->
   exists batch,
     r = Ok batch
     /\ length batch = Z.to_nat batch_size
     /\ Forall (fun e => exists i : nat,
                  Z.of_nat i <= n_experience rb - 2
                  /\ contents rb !! i = Some e) batch)
  /\ (n_experience rb < 2 /\ 1 <= batch_size -> r = Raise IndexError).
Proof.
  intros Hwf Hr. split.
  - intros Hcase.
    destruct (Z.le_gt_cases batch_size 0) as [Hb | Hb].
    + destruct (sampling_cases rb batch_size Hwf)
        as (_ & _ & Hempty).
      rewrite (Hempty Hb) in Hr. apply outcome_mret in Hr.
      exists []. repeat split; [assumption | simpl; lia | constructor].
    + destruct Hcase as [Hn | Hb']; [|lia].
      destruct (sampling_cases rb batch_size Hwf)
        as (Hunif & _ & _).
      destruct Hunif as (HF & _ & Hspec); [assumption | lia |].
      destruct Hr as [w Hin].
      destruct (Forall2_In_left _ _ _ _ HF Hin)
        as [idxs [Hidxs (_ & Hs & Hlen & Hpick)]].
      simpl in Hs. exists (batch_of rb idxs).
      split; [assumption|]. split; [lia|].
      apply Hspec in Hidxs as [_ Hrange].
      clear - Hpick Hrange. induction Hpick as [|i e idxs b Hie _ IH].
      * constructor.
      * inversion Hrange; subst. constructor; [eauto | auto].
  - intros [Hn Hb].
    destruct (sampling_cases rb batch_size Hwf)
      as (_ & Hfail & _).
    now apply (Hfail Hn Hb).
Qed.


End SamplingFacts.

Lemma get_batch_experience_uniform_witness :
  Forall2
    (fun wo idxs =>
       fst wo == (1 # 4)
       /\ snd wo = Ok (batch_of
                         (Demo.buffer_of 5 [Demo.exp 0; Demo.exp 1; Demo.exp 2])
                         idxs))
    (ReplayBuffer.get_batch_experience
       (Demo.buffer_of 5 [Demo.exp 0; Demo.exp 1; Demo.exp 2]) 2)
    [[0; 0]; [0; 1]; [1; 0]; [1; 1]]%nat.
Proof.
  destruct (get_batch_experience_uniform
              (Demo.buffer_of 5 [Demo.exp 0; Demo.exp 1; Demo.exp 2]) 2)
    as (Hunif & _ & _).
  - apply demo_buffer_wf. lia.
  - destruct Hunif as (HF & _ & _); [vm_compute; discriminate | lia |].
    eapply Forall2_impl; [exact HF|].
    intros wo idxs (Hw & Hs & _). split; [|exact Hs].
    rewrite Hw. reflexivity.
Defined.

(** C6 as stated fails: with [batch_size = 0] the call on an empty buffer
    does not fail, it returns the empty batch. *)
Lemma get_batch_experience_zero_on_empty :
  ReplayBuffer.wf (Demo.buffer_of 5 [])
  /\ ReplayBuffer.n_experience (Demo.buffer_of 5 []) < 2
  /\ ReplayBuffer.get_batch_experience (Demo.buffer_of 5 []) 0
     = [(1%Q, Ok [])].
Proof.
  split; [apply demo_buffer_wf; lia|].
  split; [vm_compute | ]; reflexivity.
Qed.



(** ** The reward *)

Local Open Scope Q_scope.

Lemma Qclamp_cut_to (lo hi x : Q) :
  lo <= hi -> Qclamp lo hi x == cut_to lo hi x.
Proof.
  intros Hle. unfold Qclamp, cut_to.
  destruct (Qlt_le_dec x lo) as [H1 | H1];
    [|destruct (Qlt_le_dec hi x) as [H2 | H2]];
    destruct (Q.max_spec x lo) as [[Ha Hb] | [Ha Hb]];
    destruct (Q.min_spec (Qmax x lo) hi) as [[Hc Hd] | [Hc Hd]];
    lra.
Qed.

Lemma Qclamp_bounds (lo hi x : Q) :
  lo <= hi -> lo <= Qclamp lo hi x <= hi.
Proof.
  intros Hle. unfold Qclamp.
  destruct (Q.max_spec x lo) as [[Ha Hb] | [Ha Hb]];
    destruct (Q.min_spec (Qmax x lo) hi) as [[Hc Hd] | [Hc Hd]];
    lra.
Qed.

#[global] Instance Qclamp_proper (lo hi : Q) :
  Proper (Qeq ==> Qeq) (Qclamp lo hi).
Proof.
  intros x y E. unfold Qclamp. now rewrite E.
Qed.

Lemma fold_left_Qplus (l : list Q) (a : Q) :
  fold_left Qplus l a == a + fold_left Qplus l 0.
Proof.
  revert a. induction l as [|x l IH]; intros a; simpl; [ring|].
  rewrite (IH (a + x)), (IH (0 + x)). ring.
Qed.

Lemma Qsum_squares (xs : list Q) :
  Qsum (List.map (fun v => v * v) xs) == sum_of_squares xs.
Proof.
  unfold Qsum. induction xs as [|x xs IH]; simpl; [reflexivity|].
  rewrite fold_left_Qplus, IH. ring.
Qed.

Lemma sum_of_squares_zero (xs : list Q) :
  Forall (fun x => x == 0) xs -> sum_of_squares xs == 0.
Proof.
  induction 1 as [|x xs Hx _ IH]; simpl; [reflexivity|].
  rewrite Hx, IH. ring.
Qed.

Section RewardFacts.
Context `{Torch}.

Import DQNAgent.

Lemma reward_value (vector_obs next_vector_obs : Vector) :
  value (reward vector_obs next_vector_obs)
  == reward_formula (value vector_obs).
Proof.
  unfold reward, reward_formula. simpl.
  rewrite Qclamp_cut_to by lra.
  unfold cut_to.
  set (a := - (1 # 100) * Qsum (List.map (fun v => v * v) (value vector_obs))).
  set (b := - (1 # 100) * sum_of_squares (value vector_obs)).
  assert (E : a == b) by (unfold a, b; now rewrite Qsum_squares).
  destruct (Qlt_le_dec a (- (3))), (Qlt_le_dec 3 a),
    (Qlt_le_dec b (- (3))), (Qlt_le_dec 3 b); lra.
Qed.

(** C8. The reward is -0.01 times the sum of the squared components of the
    pre-transition vector, cut to [-3, 3]; it therefore lies in [-3, 3],
    is 0 for a vector of zeros, does not depend on the successor vector,
    and is returned detached: it has no autograd leaves and is a constant
    of whatever [backward] later differentiates. *)
Theorem reward_clamped (vector_obs next_vector_obs : Vector) :
  value (reward vector_obs next_vector_obs)
  == reward_formula (value vector_obs)
  /\ - (3) <= value (reward vector_obs next_vector_obs) <= 3
  /\ (Forall (fun x => x == 0) (value vector_obs) ->
      value (reward vector_obs next_vector_obs) == 0)
  /\ leaves (reward vector_obs next_vector_obs) = []
  /\ carries_grad (reward vector_obs next_vector_obs) = false
  /\ (forall h, fn (reward vector_obs next_vector_obs) h
                = value (reward vector_obs next_vector_obs)).
Proof.
  split; [apply reward_value|].
  split; [unfold reward; simpl; apply Qclamp_bounds; lra|].
  split; [|repeat split].
  intros Hz. rewrite reward_value. unfold reward_formula, cut_to.
  pose proof (sum_of_squares_zero _ Hz) as E.
  set (b := - (1 # 100) * sum_of_squares (value vector_obs)).
  assert (Eb : b == 0) by (unfold b; rewrite E; ring).
  destruct (Qlt_le_dec b (- (3))), (Qlt_le_dec 3 b); lra.
Qed.

End RewardFacts.

Lemma reward_clamped_witness :
  value (DQNAgent.reward (constant [0; 0]) (constant [5; 7])) == 0
  /\ value (DQNAgent.reward (constant [30; 40]) (constant [0; 0])) == - (3).
Proof.
  split.
  - apply (reward_clamped (constant [0; 0]) (constant [5; 7])).
    repeat constructor.
  - reflexivity.
Defined.

Local Close Scope Q_scope.

Lemma names_of_layout_NoDup : NoDup names_of_layout.
Proof. apply (bool_decide_unpack _). vm_compute. reflexivity. Qed.

(** ** The heap: who writes where *)

Section HeapFacts.
Context `{Torch}.

Lemma val_lookup (h h' : heap) (l : nat) :
  h' !! l = h !! l -> val h' l = val h l.
Proof. unfold val. now intros ->. Qed.

Lemma parameters_locs (net : QNet.t) (l : nat) :
  l ∈ QNet.parameters net -> l ∈ locs net.
Proof.
  unfold QNet.parameters, locs. intros Hl.
  apply list_elem_of_omap in Hl as [[[name k] l'] [Hin E]].
  destruct k; [|discriminate]. injection E as ->.
  apply list_elem_of_In, in_map_iff. exists (name, QNet.Param, l).
  split; [reflexivity | now apply list_elem_of_In].
Qed.

Lemma buffers_locs (net : QNet.t) (l : nat) :
  l ∈ QNet.buffers net -> l ∈ locs net.
Proof.
  unfold QNet.buffers, locs. intros Hl.
  apply list_elem_of_omap in Hl as [[[name k] l'] [Hin E]].
  destruct k; [discriminate|]. injection E as ->.
  apply list_elem_of_In, in_map_iff. exists (name, QNet.Buf, l).
  split; [reflexivity | now apply list_elem_of_In].
Qed.

Lemma parameters_not_buffers (net : QNet.t) (l : nat) :
  NoDup (locs net) -> l ∈ QNet.parameters net -> l ∉ QNet.buffers net.
Proof.
  unfold locs, QNet.parameters, QNet.buffers.
  induction (QNet.entries net) as [|[[name k] l'] es IH]; simpl.
  - intros _ Hl. inversion Hl.
  - intros Hnd. apply NoDup_cons in Hnd as [Hl' Hnd].
    assert (Hp : forall x, x ∈ omap
                   (fun e : string * QNet.kind * nat =>
                      match e with
                      | (_, QNet.Param, l0) => Some l0
                      | (_, QNet.Buf, _) => None
                      end) es -> x ∈ List.map snd es).
    { intros x Hx. apply list_elem_of_omap in Hx as [[[n0 k0] l0] [Hin E]].
      destruct k0; [|discriminate]. injection E as ->.
      apply list_elem_of_In, in_map_iff. exists (n0, QNet.Param, x).
      split; [reflexivity | now apply list_elem_of_In]. }
    assert (Hb : forall x, x ∈ omap
                   (fun e : string * QNet.kind * nat =>
                      match e with
                      | (_, QNet.Buf, l0) => Some l0
                      | (_, QNet.Param, _) => None
                      end) es -> x ∈ List.map snd es).
    { intros x Hx. apply list_elem_of_omap in Hx as [[[n0 k0] l0] [Hin E]].
      destruct k0; [discriminate|]. injection E as ->.
      apply list_elem_of_In, in_map_iff. exists (n0, QNet.Buf, x).
      split; [reflexivity | now apply list_elem_of_In]. }
    destruct k; simpl.
    + intros Hl Hbuf. apply elem_of_cons in Hl as [-> | Hl].
      * apply Hl'. now apply Hb.
      * now apply (IH Hnd Hl).
    + intros Hl Hbuf. apply elem_of_cons in Hbuf as [-> | Hbuf].
      * apply Hl'. now apply Hp.
      * now apply (IH Hnd Hl).
Qed.

Lemma param_values_ext (net : QNet.t) (h h' : heap) :
  (forall l, l ∈ QNet.parameters net -> val h' l = val h l) ->
  QNet.param_values net h' = QNet.param_values net h.
Proof.
  unfold QNet.param_values, QNet.parameters.
  induction (QNet.entries net) as [|[[name k] l] es IH]; intros Hval;
    [reflexivity|].
  destruct k; simpl in *.
  - assert (E : QNet.read h' name l = QNet.read h name l).
    { specialize (Hval l (list_elem_of_here _ _)). unfold val, QNet.read in *.
      destruct (h' !! l), (h !! l); congruence. }
    rewrite E. destruct (QNet.read h name l).
    + f_equal. apply IH. intros l' Hl'. apply Hval. now right.
    + apply IH. intros l' Hl'. apply Hval. now right.
  - apply IH, Hval.
Qed.

Lemma track_running_stats_lookup (net : QNet.t) theta (im : Image)
    (h : heap) (l : nat) :
  l ∉ QNet.buffers net ->
  QNet.track_running_stats net theta im h !! l = h !! l.
Proof.
  unfold QNet.track_running_stats, QNet.buffers. revert h.
  induction (QNet.entries net) as [|[[name k] l'] es IH]; intros h Hl;
    [reflexivity|].
  destruct k; simpl in *.
  - now apply IH.
  - apply not_elem_of_cons in Hl as [Hne Hl].
    rewrite (IH _ Hl). now apply list_lookup_alter_ne.
Qed.

Lemma track_running_stats_buffer (net : QNet.t) theta (im : Image)
    (h : heap) (name : string) (l : nat) (st : Storage Data) :
  NoDup (locs net) ->
  (name, QNet.Buf, l) ∈ QNet.entries net ->
  h !! l = Some st ->
  QNet.track_running_stats net theta im h !! l
  = Some (QNet.set_data (bn_running theta im name (data st)) st).
Proof.
  unfold locs, QNet.track_running_stats. revert h.
  induction (QNet.entries net) as [|[[n0 k0] l0] es IH]; intros h Hnd Hin Hst;
    [inversion Hin|].
  cbn [List.map snd] in Hnd. apply NoDup_cons in Hnd as [Hl0 Hnd].
  cbn [fold_left]. apply elem_of_cons in Hin as [E | Hin].
  - injection E as <- <- <-.
    pose proof (track_running_stats_lookup (QNet.mk true 0 0 0 es) theta im
                  (alter (fun s => QNet.set_data
                                     (bn_running theta im name (data s)) s)
                         l h) l) as Hkeep.
    unfold QNet.track_running_stats in Hkeep. cbn [QNet.entries] in Hkeep.
    rewrite Hkeep.
    + rewrite list_lookup_alter_eq, Hst. reflexivity.
    + intros Hb. apply Hl0. apply (buffers_locs (QNet.mk true 0 0 0 es)), Hb.
  - assert (Hne : l0 <> l).
    { intros ->. apply Hl0. apply list_elem_of_In, in_map_iff.
      exists (name, QNet.Buf, l). split; [reflexivity|].
      now apply list_elem_of_In. }
    apply IH; [assumption | assumption|].
    destruct k0; [assumption|]. now rewrite list_lookup_alter_ne.
Qed.

Lemma track_running_stats_length (net : QNet.t) theta (im : Image)
    (h : heap) :
  length (QNet.track_running_stats net theta im h) = length h.
Proof.
  unfold QNet.track_running_stats. revert h.
  induction (QNet.entries net) as [|[[name k] l'] es IH]; intros h;
    [reflexivity|].
  destruct k; simpl.
  - apply IH.
  - rewrite IH. apply length_alter.
Qed.

Lemma forward_output_value (net : QNet.t) (h : heap) (g : bool) (im : Image)
    (v : Vector) :
  value (QNet.forward_output net h g im v)
  = qnet_forward (QNet.param_values net h) im (value v).
Proof. unfold QNet.forward_output. now destruct g. Qed.

Lemma forward_output_leaves (net : QNet.t) (h : heap) (im : Image)
    (v : Vector) :
  leaves (QNet.forward_output net h true im v)
  = QNet.parameters net ++ leaves v.
Proof. reflexivity. Qed.

Lemma forward_output_fn (net : QNet.t) (h h' : heap) (im : Image)
    (v : Vector) :
  fn (QNet.forward_output net h true im v) h'
  = qnet_forward (QNet.param_values net h') im (fn v h').
Proof. reflexivity. Qed.

(** A call of a network either is refused by its layers or returns the
    output and the heap of [forward_output] and [forward_heap]. *)
Lemma forward_cases (net : QNet.t) (h : heap) (g : bool) (im : Image)
    (v : Vector) :
  (is_ok (Shapes.forward (QNet.training net) (QNet.n_images net)
            (QNet.vector_dim net) (QNet.n_action net) (image_shape im)
            [Z.of_nat (length (value v))]) = true
   /\ QNet.forward net h g im v
      = Ok (QNet.forward_output net h g im v, QNet.forward_heap net h im))
  \/ (is_ok (Shapes.forward (QNet.training net) (QNet.n_images net)
               (QNet.vector_dim net) (QNet.n_action net) (image_shape im)
               [Z.of_nat (length (value v))]) = false
      /\ exists x, QNet.forward net h g im v = Raise x).
Proof.
  unfold QNet.forward, rbind.
  destruct (Shapes.forward _ _ _ _ _ _) as [shp|x].
  - left. split; reflexivity.
  - right. split; [reflexivity|]. now exists x.
Qed.

Lemma forward_ok (net : QNet.t) (h h' : heap) (g : bool) (im : Image)
    (v q : Vector) :
  QNet.forward net h g im v = Ok (q, h') ->
  is_ok (Shapes.forward (QNet.training net) (QNet.n_images net)
           (QNet.vector_dim net) (QNet.n_action net) (image_shape im)
           [Z.of_nat (length (value v))]) = true
  /\ q = QNet.forward_output net h g im v
  /\ h' = QNet.forward_heap net h im.
Proof.
  destruct (forward_cases net h g im v) as [[Ha E] | [_ [x E]]];
    rewrite E; [|discriminate].
  intros E'. injection E' as <- <-. repeat split. exact Ha.
Qed.

Lemma forward_lookup (net : QNet.t) (h : heap) (im : Image) (l : nat) :
  l ∉ QNet.buffers net ->
  QNet.forward_heap net h im !! l = h !! l.
Proof.
  intros Hl. unfold QNet.forward_heap.
  destruct (QNet.training net); [|reflexivity].
  now apply track_running_stats_lookup.
Qed.

Lemma forward_length (net : QNet.t) (h : heap) (im : Image) :
  length (QNet.forward_heap net h im) = length h.
Proof.
  unfold QNet.forward_heap.
  destruct (QNet.training net); [|reflexivity].
  apply track_running_stats_length.
Qed.

Lemma zero_grad_lookup (o : Adam.t) (h : heap) (l : nat) :
  l ∉ Adam.params o -> Adam.zero_grad o h !! l = h !! l.
Proof.
  unfold Adam.zero_grad. revert h.
  induction (Adam.params o) as [|p ps IH]; intros h Hl; [reflexivity|].
  apply not_elem_of_cons in Hl as [Hne Hl]. simpl.
  rewrite (IH _ Hl). now apply list_lookup_alter_ne.
Qed.

Lemma zero_grad_val (o : Adam.t) (h : heap) (l : nat) :
  val (Adam.zero_grad o h) l = val h l.
Proof.
  unfold Adam.zero_grad. revert h.
  induction (Adam.params o) as [|p ps IH]; intros h; [reflexivity|].
  cbn [fold_left]. rewrite IH. unfold val.
  destruct (decide (p = l)) as [-> | Hne].
  - rewrite list_lookup_alter_eq. now destruct (h !! l).
  - now rewrite list_lookup_alter_ne.
Qed.

Lemma zero_grad_length (o : Adam.t) (h : heap) :
  length (Adam.zero_grad o h) = length h.
Proof.
  unfold Adam.zero_grad. revert h.
  induction (Adam.params o) as [|p ps IH]; intros h; [reflexivity|].
  simpl. rewrite IH. apply length_alter.
Qed.

Lemma set_grads_lookup (f : nat -> option Data) (ls : list nat) (h : heap)
    (l : nat) :
  l ∉ ls ->
  fold_left (fun h' l' => alter (Adam.set_grad (f l')) l' h') ls h !! l
  = h !! l.
Proof.
  revert h. induction ls as [|p ps IH]; intros h Hl; [reflexivity|].
  apply not_elem_of_cons in Hl as [Hne Hl]. simpl.
  rewrite (IH _ Hl). now apply list_lookup_alter_ne.
Qed.

Lemma set_grads_val (f : nat -> option Data) (ls : list nat) (h : heap)
    (l : nat) :
  val (fold_left (fun h' l' => alter (Adam.set_grad (f l')) l' h') ls h) l
  = val h l.
Proof.
  revert h. induction ls as [|p ps IH]; intros h; [reflexivity|].
  cbn [fold_left]. rewrite IH. unfold val.
  destruct (decide (p = l)) as [-> | Hne].
  - rewrite list_lookup_alter_eq. now destruct (h !! l).
  - now rewrite list_lookup_alter_ne.
Qed.

Lemma set_grads_length (f : nat -> option Data) (ls : list nat) (h : heap) :
  length (fold_left (fun h' l' => alter (Adam.set_grad (f l')) l' h') ls h)
  = length h.
Proof.
  revert h. induction ls as [|p ps IH]; intros h; [reflexivity|].
  simpl. rewrite IH. apply length_alter.
Qed.

Lemma backward_spec (loss : Scalar) (h h' : heap) :
  DQNAgent.backward loss h = Ok h' ->
  leaves loss <> []
  /\ length h' = length h
  /\ (forall l, val h' l = val h l)
  /\ (forall l, l ∉ leaves loss -> h' !! l = h !! l).
Proof.
  unfold DQNAgent.backward. destruct (leaves loss) as [|l0 ls] eqn:E;
    [discriminate|].
  intros E'. injection E' as <-.
  split; [discriminate|]. split; [|split].
  - apply (set_grads_length (fun l => Some (autograd (fn loss) h l))
             (l0 :: ls) h).
  - intros l.
    apply (set_grads_val (fun l => Some (autograd (fn loss) h l))
             (l0 :: ls) h).
  - intros l Hl.
    now apply (set_grads_lookup (fun l => Some (autograd (fn loss) h l))
                 (l0 :: ls) h).
Qed.

Lemma set_grads_at (f : nat -> option Data) (ls : list nat) (h : heap)
    (l : nat) (st : Storage Data) :
  l ∈ ls -> h !! l = Some st ->
  fold_left (fun h' l' => alter (Adam.set_grad (f l')) l' h') ls h !! l
  = Some (Adam.set_grad (f l) st).
Proof.
  revert h st. induction ls as [|p ps IH]; intros h st Hin Hst;
    [inversion Hin|].
  cbn [fold_left]. destruct (decide (l ∈ ps)) as [Hps | Hps].
  - destruct (decide (p = l)) as [-> | Hne].
    + rewrite (IH _ (Adam.set_grad (f l) st) Hps); [reflexivity|].
      now rewrite list_lookup_alter_eq, Hst.
    + apply IH; [exact Hps|]. now rewrite list_lookup_alter_ne.
  - apply elem_of_cons in Hin as [-> | Hin]; [|contradiction].
    rewrite (set_grads_lookup f ps _ p Hps).
    now rewrite list_lookup_alter_eq, Hst.
Qed.

(** [backward] leaves on every leaf the derivative of the loss by that
    leaf. *)
Lemma backward_grads (loss : Scalar) (h h' : heap) (l : nat)
    (st : Storage Data) :
  DQNAgent.backward loss h = Ok h' ->
  l ∈ leaves loss -> h !! l = Some st ->
  h' !! l = Some (Adam.set_grad (Some (autograd (fn loss) h l)) st).
Proof.
  unfold DQNAgent.backward. destruct (leaves loss) as [|l0 ls] eqn:E;
    [discriminate|].
  intros E' Hin Hst. injection E' as <-.
  now apply (set_grads_at (fun l => Some (autograd (fn loss) h l))
               (l0 :: ls) h).
Qed.

Lemma step_params_lookup (o : Adam.t) (ps : list nat)
    (acc : list (nat * AdamState) * heap) (l : nat) :
  l ∉ ps ->
  snd (fold_left (Adam.step_param o) ps acc) !! l = snd acc !! l.
Proof.
  revert acc. induction ps as [|p ps IH]; intros acc Hl; [reflexivity|].
  apply not_elem_of_cons in Hl as [Hne Hl]. simpl. rewrite (IH _ Hl).
  destruct acc as [st h]. unfold Adam.step_param. simpl.
  destruct (h !! p) as [s|]; [|reflexivity].
  destruct (grad s) as [g|]; [|reflexivity].
  destruct (adam_update _ _ _ _ _ _) as [d a]. simpl.
  now apply list_lookup_insert_ne.
Qed.

Lemma step_params_length (o : Adam.t) (ps : list nat)
    (acc : list (nat * AdamState) * heap) :
  length (snd (fold_left (Adam.step_param o) ps acc)) = length (snd acc).
Proof.
  revert acc. induction ps as [|p ps IH]; intros acc; [reflexivity|].
  simpl. rewrite IH.
  destruct acc as [st h]. unfold Adam.step_param. simpl.
  destruct (h !! p) as [s|]; [|reflexivity].
  destruct (grad s) as [g|]; [|reflexivity].
  destruct (adam_update _ _ _ _ _ _) as [d a]. simpl.
  apply length_insert.
Qed.

Lemma adam_step_spec (o o' : Adam.t) (h h' : heap) :
  Adam.step o h = (o', h') ->
  Adam.params o' = Adam.params o
  /\ length h' = length h
  /\ (forall l, l ∉ Adam.params o -> h' !! l = h !! l).
Proof.
  unfold Adam.step.
  destruct (fold_left (Adam.step_param o) (Adam.params o) (Adam.state o, h))
    as [st h1] eqn:E.
  intros E'. injection E' as <- <-. split; [reflexivity|]. split.
  - pose proof (step_params_length o (Adam.params o) (Adam.state o, h)) as Hl.
    now rewrite E in Hl.
  - intros l Hl.
    pose proof (step_params_lookup o (Adam.params o) (Adam.state o, h) l Hl)
      as Hk.
    now rewrite E in Hk.
Qed.

End HeapFacts.

(** ** One training update *)

Section TrainFacts.
Context `{Torch}.

Import DQNAgent.

Variable s0 : DQNAgent.t.
Hypothesis Hsep : NoDup (locs (qnet s0) ++ locs (qnet_support s0)).

(** From [h] to [h'] no storage was added, shapes and contents changed at
    most in the running statistics of the two networks, and gradients at
    most on the online parameters. *)
Definition frame (h h' : heap) : Prop :=
  length h' = length h
  /\ (forall l, l ∉ QNet.buffers (qnet s0) ->
                l ∉ QNet.buffers (qnet_support s0) -> val h' l = val h l)
  /\ (forall l, l ∉ QNet.buffers (qnet s0) ->
                l ∉ QNet.buffers (qnet_support s0) ->
                l ∉ QNet.parameters (qnet s0) -> h' !! l = h !! l).

Lemma frame_refl (h : heap) : frame h h.
Proof. repeat split; auto. Qed.

Lemma frame_trans (h1 h2 h3 : heap) : frame h1 h2 -> frame h2 h3 -> frame h1 h3.
Proof.
  intros (L1 & V1 & F1) (L2 & V2 & F2). split; [congruence|]. split.
  - intros l Ha Hb. rewrite V2, V1; auto.
  - intros l Ha Hb Hc. rewrite F2, F1; auto.
Qed.

Lemma online_parameter_kept (l : nat) :
  l ∈ QNet.parameters (qnet s0) ->
  (l ∉ QNet.buffers (qnet s0)) /\ (l ∉ QNet.buffers (qnet_support s0)).
Proof.
  intros Hl. apply NoDup_app in Hsep as (Hn1 & Hdis & Hn2). split.
  - now apply parameters_not_buffers.
  - intros Hb. apply (Hdis l); [now apply parameters_locs|].
    now apply buffers_locs.
Qed.

Lemma target_parameter_kept (l : nat) :
  l ∈ QNet.parameters (qnet_support s0) ->
  (l ∉ QNet.buffers (qnet s0)) /\ (l ∉ QNet.buffers (qnet_support s0))
  /\ (l ∉ QNet.parameters (qnet s0)).
Proof.
  intros Hl. apply NoDup_app in Hsep as (Hn1 & Hdis & Hn2). split; [|split].
  - intros Hb. apply (Hdis l); [now apply buffers_locs|].
    now apply parameters_locs.
  - now apply parameters_not_buffers.
  - intros Hp. apply (Hdis l); now apply parameters_locs.
Qed.

Lemma frame_online (h h' : heap) :
  frame h h' ->
  QNet.param_values (qnet s0) h' = QNet.param_values (qnet s0) h.
Proof.
  intros (_ & V & _). apply param_values_ext. intros l Hl.
  apply online_parameter_kept in Hl as [Ha Hb]. now apply V.
Qed.

Lemma frame_target (h h' : heap) :
  frame h h' ->
  QNet.param_values (qnet_support s0) h'
  = QNet.param_values (qnet_support s0) h.
Proof.
  intros (_ & V & _). apply param_values_ext. intros l Hl.
  apply target_parameter_kept in Hl as (Ha & Hb & _). now apply V.
Qed.

Lemma forward_online_frame (h : heap) (im : Image) :
  frame h (QNet.forward_heap (qnet s0) h im).
Proof.
  split; [apply forward_length|]. split.
  - intros l Ha _. now apply val_lookup, forward_lookup.
  - intros l Ha _ _. now apply forward_lookup.
Qed.

Lemma forward_target_frame (h : heap) (im : Image) :
  frame h (QNet.forward_heap (qnet_support s0) h im).
Proof.
  split; [apply forward_length|]. split.
  - intros l _ Hb. now apply val_lookup, forward_lookup.
  - intros l _ Hb _. now apply forward_lookup.
Qed.

(** The squared, clipped TD error of one experience: targets read at
    [memory s0], predictions at [h]. *)
Definition td_term (h : heap) (e : Experience Observation) : Q :=
  let d := cut_to (- (1)) 1
             (td_target s0 (memory s0) e - predicted s0 h e)%Q in
  (d * d)%Q.

Lemma train_example_raise (x : exn) (e : Experience Observation) :
  train_example (Raise x) e = Raise x.
Proof. reflexivity. Qed.

Lemma fold_train_example_raise (x : exn)
    (batch : list (Experience Observation)) :
  fold_left train_example batch (Raise x) = Raise x.
Proof. induction batch as [|e es IH]; [reflexivity | exact IH]. Qed.

(** What one pass through the loop body does: it raises when a score is
    missing, and otherwise adds the experience's term to the loss. *)
Lemma train_example_spec (loss : Scalar) (h : heap)
    (e : Experience Observation) :
  frame (memory s0) h -> plain_exp e ->
  (~ scored s0 (memory s0) e
   /\ exists x, train_example (Ok (loss, with_memory h s0)) e = Raise x)
  \/ (scored s0 (memory s0) e
      /\ exists term h',
          train_example (Ok (loss, with_memory h s0)) e
          = Ok (add loss term, with_memory h' s0)
          /\ frame h h'
          /\ (value term == td_term (memory s0) e)%Q
          /\ (forall h1, (fn term h1 == td_term h1 e)%Q)
          /\ leaves term = QNet.parameters (qnet s0)).
Proof.
  intros Hfr [[Hl1 Hf1] [Hl2 Hf2]].
  pose proof (frame_online _ _ Hfr) as Hon.
  pose proof (forward_online_frame h (image (observation e))) as Hfr1.
  set (h1 := QNet.forward_heap (qnet s0) h (image (observation e))) in *.
  pose proof (frame_target _ _ (frame_trans _ _ _ Hfr Hfr1)) as Htg.
  pose proof (forward_target_frame h1 (image (next_observation e))) as Hfr2.
  set (h2 := QNet.forward_heap (qnet_support s0) h1
               (image (next_observation e))) in *.
  unfold train_example, rbind.
  cbn [memory with_memory qnet qnet_support _reward_discount].
  unfold scored, accepted.
  destruct (forward_cases (qnet s0) h true (image (observation e))
              (vector (observation e))) as [[Ha1 E1] | [Ha1 [x E1]]];
    rewrite E1.
  2:{ left. split; [|now exists x].
      intros (Hacc & _). rewrite Hacc in Ha1. discriminate. }
  cbn [memory with_memory qnet qnet_support _reward_discount].
  fold h1.
  unfold vindex. rewrite forward_output_value, Hon.
  fold (online_scores s0 (memory s0) e).
  destruct (py_index (online_scores s0 (memory s0) e) (action e))
    as [v|x] eqn:Ev.
  2:{ left. split; [intros (_ & _ & Hok & _); simpl in Hok; discriminate|].
      now exists x. }
  destruct (forward_cases (qnet_support s0) h1 true
              (image (next_observation e))
              (vector (next_observation e))) as [[Ha2 E2] | [Ha2 [x E2]]];
    rewrite E2.
  2:{ left. split; [|now exists x].
      intros (_ & Hacc & _). rewrite Hacc in Ha2. discriminate. }
  cbn [memory with_memory qnet qnet_support _reward_discount].
  fold h2.
  unfold vmax. rewrite forward_output_value, Htg.
  fold (target_scores s0 (memory s0) e).
  destruct (Qlist_max (target_scores s0 (memory s0) e)) as [m|] eqn:Em.
  2:{ left. split; [|now exists RuntimeError].
      intros (_ & _ & _ & Hne). destruct (target_scores s0 (memory s0) e);
        [congruence | discriminate]. }
  right. split.
  { split; [exact Ha1|]. split; [exact Ha2|]. split; [reflexivity|].
    intros E0. rewrite E0 in Em. discriminate. }
  eexists. exists h2. split; [reflexivity|].
  split; [exact (frame_trans _ _ _ Hfr1 Hfr2)|].
  assert (Hcut : forall a b : Q, (a == b)%Q ->
            (Qclamp (- (1)) 1 a * Qclamp (- (1)) 1 a
             == cut_to (- (1)) 1 b * cut_to (- (1)) 1 b)%Q).
  { intros a b Eab. rewrite Eab, Qclamp_cut_to by lra. reflexivity. }
  split; [|split].
  - cbn. apply Hcut.
    unfold td_target, predicted. rewrite Ev, Em.
    rewrite <- (reward_value (vector (observation e))
                  (vector (next_observation e))).
    reflexivity.
  - intros hx. cbn. apply Hcut.
    unfold td_target, predicted, online_scores. rewrite Em, Hf1.
    rewrite <- (reward_value (vector (observation e))
                  (vector (next_observation e))).
    reflexivity.
  - cbn. rewrite Hl1. apply app_nil_r.
Qed.

Definition td_sum (h : heap) (batch : list (Experience Observation)) : Q :=
  fold_right (fun e acc => (td_term h e + acc)%Q) 0%Q batch.

(** The whole loop. *)
Lemma fold_train_example_spec (batch : list (Experience Observation))
    (loss : Scalar) (h : heap) :
  frame (memory s0) h -> Forall plain_exp batch ->
  (~ Forall (scored s0 (memory s0)) batch
   /\ exists x,
       fold_left train_example batch (Ok (loss, with_memory h s0)) = Raise x)
  \/ (Forall (scored s0 (memory s0)) batch
      /\ exists loss' h',
          fold_left train_example batch (Ok (loss, with_memory h s0))
          = Ok (loss', with_memory h' s0)
          /\ frame h h'
          /\ (value loss' == value loss + td_sum (memory s0) batch)%Q
          /\ (forall h1, (fn loss' h1 == fn loss h1 + td_sum h1 batch)%Q)
          /\ leaves loss'
             = leaves loss
               ++ concat (List.map (fun _ => QNet.parameters (qnet s0)) batch)).
Proof.
  revert loss h. induction batch as [|e es IH]; intros loss h Hfr Hpl.
  - right. split; [constructor|]. exists loss, h.
    split; [reflexivity|]. split; [apply frame_refl|].
    split; [unfold td_sum; cbn [fold_right]; ring|].
    split; [intros h1; unfold td_sum; cbn [fold_right]; ring|].
    simpl. now rewrite app_nil_r.
  - inversion Hpl as [|? ? Hpe Hpes]; subst. cbn [fold_left].
    destruct (train_example_spec loss h e Hfr Hpe)
      as [[Hns [x Ex]] | [Hsc (term & h1 & Ex & Hfr1 & Hv & Hf & Hlv)]].
    + left. split; [intros HF; inversion HF; subst; contradiction|].
      exists x. rewrite Ex. apply fold_train_example_raise.
    + rewrite Ex.
      destruct (IH (add loss term) h1 (frame_trans _ _ _ Hfr Hfr1) Hpes)
        as [[Hns [x Ex']]
           | [Hscs (loss' & h' & Ex' & Hfr' & Hv' & Hf' & Hlv')]].
      * left. split; [intros HF; inversion HF; subst; contradiction|].
        now exists x.
      * right. split; [now constructor|]. exists loss', h'.
        split; [exact Ex'|]. split; [exact (frame_trans _ _ _ Hfr1 Hfr')|].
        split; [|split].
        -- rewrite Hv'. change (value (add loss term))
             with (value loss + value term)%Q.
           change (td_sum (memory s0) (e :: es))
             with (td_term (memory s0) e + td_sum (memory s0) es)%Q.
           rewrite Hv. ring.
        -- intros hx. rewrite Hf'. change (fn (add loss term) hx)
             with (fn loss hx + fn term hx)%Q.
           change (td_sum hx (e :: es))
             with (td_term hx e + td_sum hx es)%Q.
           rewrite Hf. ring.
        -- rewrite Hlv'. change (leaves (add loss term))
             with (leaves loss ++ leaves term).
           rewrite Hlv. cbn [List.map concat]. now rewrite <- app_assoc.
Qed.

(** From [loss = torch.zeros(1)] to [loss /= self.batch_size]. *)
Lemma batch_loss_spec (batch : list (Experience Observation)) (h : heap) :
  frame (memory s0) h -> Forall plain_exp batch ->
  (~ Forall (scored s0 (memory s0)) batch
   /\ exists x, batch_loss (with_memory h s0) batch = Raise x)
  \/ (Forall (scored s0 (memory s0)) batch
      /\ exists loss h',
          batch_loss (with_memory h s0) batch = Ok (loss, with_memory h' s0)
          /\ frame h h'
          /\ (value loss == loss_formula s0 (memory s0) (memory s0) batch)%Q
          /\ (forall h1,
                (fn loss h1 == loss_formula s0 (memory s0) h1 batch)%Q)
          /\ leaves loss
             = concat (List.map (fun _ => QNet.parameters (qnet s0)) batch)).
Proof.
  intros Hfr Hpl. unfold batch_loss, rbind. cbv zeta.
  destruct (fold_train_example_spec batch (constant 0%Q) h Hfr Hpl)
    as [[Hns [x Ex]] | [Hsc (loss & h' & Ex & Hfr' & Hv & Hf & Hlv)]].
  - left. split; [assumption|]. exists x. unfold Scalar in *. now rewrite Ex.
  - right. split; [assumption|]. unfold Scalar in *. rewrite Ex.
    exists (div_int loss (batch_size s0)), h'.
    split; [reflexivity|]. split; [assumption|].
    split; [|split].
    + change (value (div_int loss (batch_size s0)))
        with (value loss / inject_Z (batch_size s0))%Q.
      rewrite Hv.
      change (loss_formula s0 (memory s0) (memory s0) batch)
        with (td_sum (memory s0) batch / inject_Z (batch_size s0))%Q.
      change (value (constant 0%Q)) with 0%Q.
      unfold Qdiv. ring.
    + intros h1.
      change (fn (div_int loss (batch_size s0)) h1)
        with (fn loss h1 / inject_Z (batch_size s0))%Q.
      rewrite Hf.
      change (loss_formula s0 (memory s0) h1 batch)
        with (td_sum h1 batch / inject_Z (batch_size s0))%Q.
      change (fn (constant 0%Q) h1) with 0%Q.
      unfold Qdiv. ring.
    + exact Hlv.
Qed.

Lemma elem_of_concat_const (P : list nat)
    (batch : list (Experience Observation)) (l : nat) :
  l ∈ concat (List.map (fun _ => P) batch) -> l ∈ P.
Proof.
  induction batch as [|e es IH]; simpl; intros Hl; [inversion Hl|].
  apply elem_of_app in Hl as [Hl | Hl]; auto.
Qed.

Lemma zero_grad_frame :
  Adam.params (_optimizer s0) = QNet.parameters (qnet s0) ->
  frame (memory s0) (Adam.zero_grad (_optimizer s0) (memory s0)).
Proof.
  intros Hopt. split; [apply zero_grad_length|]. split.
  - intros l _ _. apply zero_grad_val.
  - intros l _ _ Hl. apply zero_grad_lookup. now rewrite Hopt.
Qed.

Lemma sampled_plain (batch : list (Experience Observation)) :
  inv s0 ->
  outcome (ReplayBuffer.get_batch_experience (replay_buffer s0)
             (batch_size s0)) (Ok batch) ->
  Forall plain_exp batch /\ length batch = Z.to_nat (batch_size s0).
Proof.
  intros (_ & _ & _ & _ & _ & Hwf & Hpl & _) Hout.
  destruct (sampled_batch _ _ _ Hwf Hout) as [Hok Hfail].
  assert (Hcase : 2 <= ReplayBuffer.n_experience (replay_buffer s0)
                  \/ batch_size s0 <= 0).
  { destruct (Z.le_gt_cases 2 (ReplayBuffer.n_experience (replay_buffer s0)));
      [now left|].
    destruct (Z.le_gt_cases (batch_size s0) 0); [now right|].
    discriminate Hfail. lia. }
  destruct (Hok Hcase) as (b & Eb & Hlen & Hin). injection Eb as <-.
  split; [|assumption].
  eapply Forall_impl; [exact Hin|]. intros e [i [_ Hi]].
  rewrite List.Forall_forall in Hpl. apply Hpl.
  apply list_elem_of_In, list_elem_of_lookup. eauto.
Qed.

(** The steps of a training update that completes. *)
Lemma train_outcome (s' : DQNAgent.t) :
  inv s0 -> outcome (train s0) (Ok s') ->
  exists batch loss h2 h3 h4 o,
    outcome (ReplayBuffer.get_batch_experience (replay_buffer s0)
               (batch_size s0)) (Ok batch)
    /\ Forall (scored s0 (memory s0)) batch
    /\ batch_loss
         (with_memory (Adam.zero_grad (_optimizer s0) (memory s0)) s0) batch
       = Ok (loss, with_memory h2 s0)
    /\ backward loss h2 = Ok h3
    /\ Adam.step (_optimizer s0) h3 = (o, h4)
    /\ s' = with_memory h4 (with_optimizer o s0)
    /\ frame (memory s0) h3
    /\ length h4 = length h3
    /\ (forall l, l ∉ QNet.parameters (qnet s0) -> h4 !! l = h3 !! l)
    /\ Adam.params o = Adam.params (_optimizer s0).
Proof.
  intros Hinv Hout.
  pose proof Hinv as (_ & _ & _ & _ & Hopt & _).
  unfold train in Hout. cbv zeta in Hout.
  cbn [replay_buffer batch_size with_memory] in Hout.
  apply outcome_mbind_ok in Hout as [batch [Hb Hout]].
  apply outcome_mbind_ok in Hout as [[loss s2] [Hl Hout]].
  apply outcome_lift in Hl.
  apply outcome_mbind_ok in Hout as [h3 [Hbw Hout]].
  apply outcome_lift in Hbw.
  destruct (sampled_plain batch Hinv Hb) as [Hpl _].
  destruct (batch_loss_spec batch _ (zero_grad_frame Hopt) Hpl)
    as [[_ [x Ex]] | [Hsc (loss' & h2 & Ex & Hfr & _ & _ & Hlv)]].
  { rewrite Ex in Hl. discriminate. }
  rewrite Ex in Hl. injection Hl as <- <-.
  cbn [memory _optimizer with_memory] in Hbw, Hout.
  destruct (Adam.step (_optimizer s0) h3) as [o h4] eqn:Es.
  apply outcome_mret in Hout. injection Hout as ->.
  apply backward_spec in Hbw as Hbs. destruct Hbs as (_ & Hlen & Hval & Hlk).
  apply adam_step_spec in Es as Hss. destruct Hss as (Hpo & Hlen4 & Hlk4).
  exists batch, loss', h2, h3, h4, o.
  repeat (split; [assumption || reflexivity|]).
  split; [|split; [assumption|split; [|assumption]]].
  - eapply frame_trans; [eapply frame_trans; [apply (zero_grad_frame Hopt)|]|].
    + exact Hfr.
    + split; [assumption|]. split; [intros; apply Hval|].
      intros l _ _ Hl. apply Hlk. rewrite Hlv. intros Hin.
      apply Hl. eapply elem_of_concat_const, Hin.
  - intros l Hl. apply Hlk4. now rewrite Hopt.
Qed.

End TrainFacts.

(** ** The invariant of the agent *)

Section InvariantFacts.
Context `{Torch}.

Import DQNAgent.

Lemma alloc_all_spec (init : string -> Data) (lay : list (string * QNet.kind * list Z))
    (h h' : heap) (es : list (string * QNet.kind * nat)) :
  QNet.alloc_all init h lay = (es, h') ->
  List.map snd es = seq (length h) (length lay)
  /\ List.map (fun e => fst (fst e)) es = List.map (fun e => fst (fst e)) lay
  /\ length h' = (length h + length lay)%nat.
Proof.
  revert h h' es. induction lay as [|[[name k] shp] lay IH]; intros h h' es.
  - simpl. intros E. injection E as <- <-. repeat split. lia.
  - cbn [QNet.alloc_all].
    destruct (QNet.alloc_all init (h ++ [_]) lay) as [es1 h1] eqn:E1.
    intros E. injection E as <- <-.
    apply IH in E1 as (Hl & Hn & Hlen).
    rewrite length_app in Hl, Hlen. simpl in Hl, Hlen.
    cbn [List.map snd fst length seq]. rewrite Hl, Hn.
    replace (length h + 1)%nat with (S (length h)) by lia.
    repeat split. lia.
Qed.

Lemma qnet_init_spec (h h' : heap) (n_images vector_dim n_action : Z)
    (init : string -> Data) (net : QNet.t) :
  QNet.__init__ h n_images vector_dim n_action init = Ok (net, h') ->
  locs net = seq (length h) 20
  /\ names net = names_of_layout
  /\ length h' = (length h + 20)%nat.
Proof.
  unfold QNet.__init__.
  destruct (forallb _ _); [|discriminate].
  destruct (QNet.alloc_all init h _) as [es h1] eqn:E.
  intros E'. injection E' as <- <-.
  apply alloc_all_spec in E as (Hl & Hn & Hlen).
  unfold locs, names. cbn [QNet.entries]. rewrite Hl, Hn.
  repeat split. exact Hlen.
Qed.

Lemma load_entries_length (es : list (string * QNet.kind * nat))
    (sd : named_values Data) (h h' : heap) :
  QNet.load_entries es sd h = Ok h' -> length h' = length h.
Proof.
  revert h. induction es as [|[[name k] l] es IH]; intros h; simpl.
  - intros E. now injection E as <-.
  - destruct (QNet.assoc name sd) as [[shp d]|]; [|discriminate].
    destruct (h !! l) as [s|]; [|discriminate].
    destruct (bool_decide _); [|discriminate].
    intros E. apply IH in E. now rewrite length_insert in E.
Qed.

Lemma load_state_dict_length (net : QNet.t) (sd : named_values Data)
    (h h' : heap) :
  QNet.load_state_dict net sd h = Ok h' -> length h' = length h.
Proof.
  unfold QNet.load_state_dict. destruct (forallb _ _); [|discriminate].
  apply load_entries_length.
Qed.

Lemma inv_update (s s' : DQNAgent.t) :
  inv s ->
  qnet s' = qnet s -> qnet_support s' = qnet_support s ->
  length (memory s') = length (memory s) ->
  Adam.params (_optimizer s') = Adam.params (_optimizer s) ->
  ReplayBuffer.wf (replay_buffer s') ->
  Forall plain_exp (ReplayBuffer.contents (replay_buffer s')) ->
  (forall o, _prev_observation s' = Some o -> plain (vector o)) ->
  inv s'.
Proof.
  intros (H1 & H2 & H3 & H4 & H5 & _) Eq Es El Eo Hwf Hpl Hprev.
  unfold inv. rewrite Eq, Es, El, Eo.
  repeat (split; [assumption|]). assumption.
Qed.

Lemma init_inv (config : Config) (n_action action_size : Z)
    (shape_vector_obs : list Z) (shape_obs_image : Z * Z * Z) (eps_start : Q)
    (init_qnet init_support : string -> Data) (s : DQNAgent.t) :
  __init__ config n_action action_size shape_vector_obs shape_obs_image
    eps_start init_qnet init_support = Ok s ->
  inv s.
Proof.
  unfold __init__, rbind.
  destruct (QNet.__init__ [] _ 2 n_action init_qnet) as [[q h1]|] eqn:E1;
    [|discriminate].
  destruct (QNet.__init__ h1 1 2 n_action init_support) as [[q' h2]|] eqn:E2;
    [|discriminate].
  destruct (QNet.load_state_dict q' _ h2) as [h3|] eqn:E3; [|discriminate].
  destruct (Adam.__init__ _ _ _ _) as [o|] eqn:E4; [|discriminate].
  destruct (ReplayBuffer.__init__ _) as [rb|] eqn:E5; [|discriminate].
  intros E. injection E as <-.
  apply qnet_init_spec in E1 as (Hl1 & Hn1 & Hlen1).
  apply qnet_init_spec in E2 as (Hl2 & Hn2 & Hlen2).
  apply load_state_dict_length in E3.
  apply init_wf in E5 as (Hwf & Hc & _).
  simpl in Hl1, Hlen1. rewrite Hlen1 in Hl2, Hlen2. simpl in Hlen2.
  unfold inv. cbn [qnet qnet_support memory _optimizer replay_buffer
                   _prev_observation].
  rewrite Hl1, Hl2, Hn1, Hn2, E3, Hlen2, Hc.
  split; [apply (NoDup_seq 0 40)|].
  split; [reflexivity|].
  split; [apply names_of_layout_NoDup|].
  split; [apply List.Forall_forall; intros l Hl;
          apply (in_seq 40 0 l) in Hl; lia|].
  split.
  { unfold Adam.__init__ in E4. destruct (_ || _); [discriminate|].
    now injection E4 as <-. }
  split; [assumption|]. split; [constructor | discriminate].
Qed.

Lemma plain_constant {A} (v : A) : plain (constant v).
Proof. split; reflexivity. Qed.

(** The tensors [obs_to_tensor] returns are those of [obs_now], and the
    vector is the raw vector as plain data. *)
Lemma obs_now_vector (s : DQNAgent.t) (obs : Image * list Q) :
  vector (obs_now s obs) = constant (snd obs).
Proof.
  unfold obs_now, obs_to_tensor, rbind.
  destruct (shape_obs_image s) as [[s0 s1] s2].
  destruct (view _ _); reflexivity.
Qed.

Lemma obs_now_plain (s : DQNAgent.t) (obs : Image * list Q) :
  plain (vector (obs_now s obs)).
Proof. rewrite obs_now_vector. apply plain_constant. Qed.

Lemma obs_to_tensor_now (s : DQNAgent.t) (obs : Image * list Q)
    (im : Image) (vec : Vector) :
  obs_to_tensor s obs = Ok (im, vec) ->
  obs_now s obs = mkObservation im vec /\ vec = constant (snd obs).
Proof.
  intros E. unfold obs_now. rewrite E. split; [reflexivity|].
  revert E. unfold obs_to_tensor, rbind.
  destruct (shape_obs_image s) as [[s0 s1] s2].
  destruct (view _ _); [|discriminate]. intros E. now injection E as _ <-.
Qed.

Lemma syncs_print_progress (s : DQNAgent.t) (n size : Z) :
  syncs (print (BufferProgress n size) s) = syncs s.
Proof.
  unfold syncs, print. cbn [stdout]. rewrite List.filter_app. simpl.
  now rewrite app_nil_r.
Qed.

Lemma syncs_print_done (s : DQNAgent.t) :
  syncs (print QnetIterationDone s) = syncs s + 1.
Proof.
  unfold syncs, print. cbn [stdout]. rewrite List.filter_app, length_app.
  simpl. lia.
Qed.

(** Storing the previous transition keeps the invariant. *)
Lemma store_inv (s : DQNAgent.t) (o : Observation) :
  inv s -> plain (vector o) ->
  inv match _prev_action s, _prev_observation s with
      | Some prev_action, Some prev_observation =>
          with_replay_buffer
            (ReplayBuffer.append (replay_buffer s) prev_observation
               prev_action o) s
      | _, _ => s
      end.
Proof.
  intros Hinv Ho. destruct (_prev_action s) as [pa|]; [|assumption].
  destruct (_prev_observation s) as [po|] eqn:Epo; [|assumption].
  pose proof Hinv as (_ & _ & _ & _ & _ & Hwf & Hpl & Hprev).
  apply (inv_update s); try reflexivity; try assumption.
  - now apply append_wf.
  - cbn [replay_buffer with_replay_buffer].
    rewrite (append_contents _ _ _ _ Hwf). apply Forall_drop.
    apply Forall_app. split; [assumption|]. constructor; [|constructor].
    split; [now apply Hprev | assumption].
Qed.

(** What a call of [step] that returns has done: [s3] is the agent when
    the comparison of the tick counter is reached. *)
Lemma step_outcome (s s' : DQNAgent.t) (obs : Image * list Q) (done : bool)
    (a : Z) :
  inv s -> outcome (step s obs done) (Ok (a, s')) ->
  exists s3,
    inv s3
    /\ time_tick s3 = time_tick s
    /\ iteration s3 = iteration s
    /\ syncs s3 = syncs s
    /\ qnet s3 = qnet s
    /\ qnet_support s3 = qnet_support s
    /\ (forall l, l ∈ QNet.parameters (qnet_support s) ->
                  memory s3 !! l = memory s !! l)
    /\ ((time_tick s3 = iteration s3
         /\ exists h,
             QNet.load_state_dict (qnet_support s3)
               (QNet.state_dict (qnet s3) (memory s3)) (memory s3) = Ok h
             /\ s' = with_prev (Some (obs_now s obs)) (Some a)
                       (print QnetIterationDone
                          (with_memory h (with_time_tick 0 s3))))
        \/ (time_tick s3 <> iteration s3
            /\ s' = with_prev (Some (obs_now s obs)) (Some a)
                      (with_time_tick (time_tick s3 + 1) s3))).
Proof.
  intros Hinv Hout. unfold step in Hout.
  apply outcome_mbind_ok in Hout as [[im vec] [Hobs Hout]].
  apply outcome_lift in Hobs.
  destruct (obs_to_tensor_now s obs im vec Hobs) as [Hnow ->].
  cbv beta iota zeta in Hout. rewrite <- Hnow in Hout.
  set (ob := obs_now s obs) in *.
  pose proof (store_inv s ob Hinv (obs_now_plain s obs)) as Hinv1.
  set (s1 := match _prev_action s, _prev_observation s with
             | Some prev_action, Some prev_observation =>
                 with_replay_buffer
                   (ReplayBuffer.append (replay_buffer s) prev_observation
                      prev_action ob) s
             | _, _ => s
             end) in *.
  assert (Hs1 : time_tick s1 = time_tick s /\ iteration s1 = iteration s
                /\ syncs s1 = syncs s /\ qnet s1 = qnet s
                /\ qnet_support s1 = qnet_support s
                /\ memory s1 = memory s).
  { unfold s1. destruct (_prev_action s), (_prev_observation s);
      repeat split. }
  apply outcome_mbind_ok in Hout as [[[greedy q_vec] s2] [Hg Hout]].
  apply outcome_lift in Hg. unfold get_greedy_action, rbind in Hg.
  destruct (QNet.forward _ _ _ _ _) as [[q h]|] eqn:Ef; [|discriminate].
  apply forward_ok in Ef as (_ & _ & ->).
  destruct (topk1 _) as [index|]; [|discriminate].
  injection Hg as -> _ <-.
  set (s2 := with_memory _ s1) in *.
  assert (Hinv2 : inv s2).
  { apply (inv_update s1); try reflexivity; try apply Hinv1.
    unfold s2. cbn [memory with_memory].
    apply (forward_length (qnet s1) (memory s1) im). }
  pose proof Hinv2 as (Hsep & _).
  assert (Hm2 : forall l, l ∈ QNet.parameters (qnet_support s2) ->
                  memory s2 !! l = memory s1 !! l).
  { intros l Hl. unfold s2. cbn [memory with_memory].
    apply (forward_lookup (qnet s1) (memory s1) im).
    now apply (target_parameter_kept s2 Hsep). }
  apply outcome_mbind_ok in Hout as [explore [_ Hout]].
  apply outcome_mbind_ok in Hout as [next_action [_ Hout]].
  apply outcome_mbind_ok in Hout as [s3 [H3 Hout]].
  apply outcome_mbind_ok in Hout as [s4 [H4 Hout]].
  apply outcome_mret in Hout. injection Hout as -> ->.
  exists s3.
  assert (Hs3 : inv s3 /\ time_tick s3 = time_tick s2
                /\ iteration s3 = iteration s2 /\ syncs s3 = syncs s2
                /\ qnet s3 = qnet s2 /\ qnet_support s3 = qnet_support s2
                /\ (forall l, l ∈ QNet.parameters (qnet_support s2) ->
                              memory s3 !! l = memory s2 !! l)).
  { destruct (_ >? _).
    - destruct (train_outcome s2 Hsep s3 Hinv2 H3)
        as (batch & loss & h2 & h3 & h4 & o & _ & _ & _ & _ & _ & -> & Hfr
            & Hlen & Hlk & Hpo).
      split; [|repeat split].
      + apply (inv_update s2); try reflexivity; try apply Hinv2.
        * cbn [memory with_memory]. destruct Hfr as [Hl3 _]. congruence.
        * exact Hpo.
      + intros l Hl. cbn [memory with_memory with_optimizer].
        apply (target_parameter_kept s2 Hsep) in Hl as (Ha & Hb & Hc).
        rewrite (Hlk l Hc). destruct Hfr as (_ & _ & F). now apply F.
    - destruct (_ =? _); apply outcome_mret in H3; injection H3 as ->.
      + split; [|repeat split; apply syncs_print_progress].
        apply (inv_update s2); try reflexivity; apply Hinv2.
      + split; [assumption | repeat split]. }
  destruct Hs3 as (Hinv3 & Ht3 & Hi3 & Hy3 & Hq3 & Hqs3 & Hm3).
  destruct Hs1 as (Ht1 & Hi1 & Hy1 & Hq1 & Hqs1 & Hm1).
  split; [assumption|].
  split; [rewrite Ht3; exact Ht1|].
  split; [rewrite Hi3; exact Hi1|].
  split; [rewrite Hy3; exact Hy1|].
  split; [rewrite Hq3; exact Hq1|].
  split; [rewrite Hqs3; exact Hqs1|].
  split.
  { intros l Hl. rewrite <- Hm1. rewrite <- Hqs1 in Hl.
    rewrite Hm3 by exact Hl. now apply Hm2. }
  destruct (Z.eqb_spec (time_tick s3) (iteration s3)) as [Eq | Hne].
  - left. split; [assumption|]. cbn [qnet_support qnet memory with_time_tick] in H4.
    apply outcome_mbind_ok in H4 as [h [Hh H4]].
    apply outcome_lift in Hh. apply outcome_mret in H4. injection H4 as ->.
    exists h. split; [assumption | reflexivity].
  - right. split; [assumption|].
    apply outcome_mret in H4. now injection H4 as ->.
Qed.

End InvariantFacts.

(** ** Construction and the two input widths *)

Section ConstructionFacts.
Context `{Torch}.

Import DQNAgent.

(** C4, where the code departs from it. The online network is built for
    [input_time_horizon] frames and the target network for one frame, so
    with any other horizon than 1 the very first copy,
    [qnet_support.load_state_dict(qnet.state_dict())] in [__init__], stops
    on the size mismatch of [conv1.weight]: the constructor raises and no
    synchronised pair of networks ever exists. *)
Theorem init_rejects_other_horizons (config : Config)
    (n_action action_size : Z) (shape_vector_obs : list Z)
    (shape_obs_image : Z * Z * Z) (eps_start : Q)
    (init_qnet init_support : string -> Data) :
  qn_input_time_horizon config <> 1 ->
  is_ok (__init__ config n_action action_size shape_vector_obs
           shape_obs_image eps_start init_qnet init_support) = false.
Proof.
  intros Hne. unfold __init__, rbind.
  destruct (QNet.__init__ [] _ 2 n_action init_qnet) as [[q h1]|] eqn:E1;
    [|reflexivity].
  destruct (QNet.__init__ h1 1 2 n_action init_support) as [[q' h2]|] eqn:E2;
    [|reflexivity].
  unfold QNet.__init__ in E1, E2.
  destruct (forallb _ _) in E1; [|discriminate].
  destruct (forallb _ _) in E2; [|discriminate].
  cbn in E1. injection E1 as <- <-.
  cbn in E2. injection E2 as <- <-.
  cbn.
  rewrite (bool_decide_eq_false_2
             ([8; 3 * 1; 3; 3] = [8; 3 * qn_input_time_horizon config; 3; 3])).
  - reflexivity.
  - intros E. injection E as E. lia.
Qed.

End ConstructionFacts.

Lemma init_rejects_other_horizons_witness :
  Demo.agent 2 5 2 10 2 = Raise RuntimeError
  /\ is_ok (Demo.agent 4 5 2 10 2) = false.
Proof.
  split; [reflexivity|].
  apply init_rejects_other_horizons. simpl. lia.
Defined.

(** ** The copy made by a synchronisation *)

Section SyncFacts.
Context `{Torch}.

Implicit Types (es : list (string * QNet.kind * nat)) (h : heap).

Lemma load_entries_spec es (sd : named_values Data) h h' :
  NoDup (List.map snd es) ->
  QNet.load_entries es sd h = Ok h' ->
  (forall l, l ∉ List.map snd es -> h' !! l = h !! l)
  /\ Forall (fun e => exists v, QNet.assoc (fst (fst e)) sd = Some v
                                /\ val h' (snd e) = Some v) es.
Proof.
  revert h. induction es as [|[[name k] l] es IH]; intros h Hnd;
    cbn [List.map snd] in Hnd; cbn [QNet.load_entries].
  - intros E. injection E as <-. split; [reflexivity | constructor].
  - apply NoDup_cons in Hnd as [Hl Hnd].
    destruct (QNet.assoc name sd) as [[shp d]|] eqn:Ea; [|discriminate].
    destruct (h !! l) as [s|] eqn:Es; [|discriminate].
    destruct (bool_decide (shape s = shp)) eqn:Eb; [|discriminate].
    apply bool_decide_eq_true_1 in Eb.
    intros E. destruct (IH _ Hnd E) as [Hout Hin]. split.
    + intros l' Hl'. cbn [List.map snd] in Hl'.
      apply not_elem_of_cons in Hl' as [Hne Hl'].
      rewrite (Hout l' Hl'). apply list_lookup_insert_ne. congruence.
    + constructor; [|assumption]. cbn [fst snd]. exists (shp, d).
      split; [exact Ea|]. unfold val. rewrite (Hout l Hl).
      rewrite list_lookup_insert_eq by (eapply lookup_lt_Some, Es).
      simpl. now rewrite Eb.
Qed.

Lemma assoc_state_dict es h (e : string * QNet.kind * nat) :
  NoDup (List.map (fun e => fst (fst e)) es) ->
  Forall (fun l => (l < length h)%nat) (List.map snd es) ->
  e ∈ es ->
  exists v,
    QNet.assoc (fst (fst e))
      (omap (fun e => QNet.read h (fst (fst e)) (snd e)) es) = Some v
    /\ val h (snd e) = Some v.
Proof.
  induction es as [|[[name k] l] es IH]; intros Hnd Hlt Hin;
    [inversion Hin|].
  cbn [List.map fst snd] in Hnd, Hlt. apply NoDup_cons in Hnd as [Hname Hnd].
  inversion Hlt as [|? ? Hl Hlt']; subst.
  destruct (lookup_lt_is_Some_2 h l Hl) as [s Es].
  cbn [omap list_omap]. unfold QNet.read at 1. cbn [fst snd]. rewrite Es.
  apply elem_of_cons in Hin as [-> | Hin].
  - cbn [QNet.assoc fst snd]. rewrite String.eqb_refl.
    exists (shape s, data s). split; [reflexivity|]. unfold val. now rewrite Es.
  - cbn [QNet.assoc].
    destruct (String.eqb_spec (fst (fst e)) name) as [E | _].
    + exfalso. apply Hname. rewrite <- E.
      apply list_elem_of_In, in_map_iff. exists e.
      split; [reflexivity | now apply list_elem_of_In].
    + now apply IH.
Qed.

Lemma read_val h (name : string) (l : nat) (v : list Z * Data) :
  val h l = Some v -> QNet.read h name l = Some (name, v).
Proof.
  unfold val, QNet.read. destruct (h !! l); [|discriminate].
  intros E. now injection E as <-.
Qed.

Lemma state_dict_agree (es_d es_s : list (string * QNet.kind * nat))
    (sd : named_values Data) h h' :
  List.map (fun e => fst (fst e)) es_d = List.map (fun e => fst (fst e)) es_s ->
  Forall (fun e => exists v, QNet.assoc (fst (fst e)) sd = Some v
                             /\ val h' (snd e) = Some v) es_d ->
  Forall (fun e => exists v, QNet.assoc (fst (fst e)) sd = Some v
                             /\ val h (snd e) = Some v) es_s ->
  omap (fun e => QNet.read h' (fst (fst e)) (snd e)) es_d
  = omap (fun e => QNet.read h (fst (fst e)) (snd e)) es_s.
Proof.
  revert es_s. induction es_d as [|d es_d IH]; intros [|c es_s] Hn Hd Hs;
    try discriminate; [reflexivity|].
  cbn [List.map] in Hn. injection Hn as Hn0 Hn.
  inversion Hd as [|? ? (v & Ha & Hv) Hd']; subst.
  inversion Hs as [|? ? (v' & Ha' & Hv') Hs']; subst.
  rewrite Hn0, Ha' in Ha. injection Ha as <-.
  cbn [omap list_omap].
  rewrite (read_val _ _ _ _ Hv), (read_val _ _ _ _ Hv'), Hn0.
  f_equal. now apply IH.
Qed.

(** A copy that succeeds leaves the destination with the source's
    [state_dict], and touches no storage outside the destination. *)
Lemma load_state_dict_copies (src dst : QNet.t) h h' :
  NoDup (locs src ++ locs dst) ->
  names dst = names src ->
  NoDup (names src) ->
  Forall (fun l => (l < length h)%nat) (locs src ++ locs dst) ->
  QNet.load_state_dict dst (QNet.state_dict src h) h = Ok h' ->
  QNet.state_dict dst h' = QNet.state_dict src h
  /\ QNet.state_dict src h' = QNet.state_dict src h
  /\ (forall l, l ∉ locs dst -> h' !! l = h !! l).
Proof.
  intros Hnd Hnames Hnn Hlt Hload.
  apply NoDup_app in Hnd as (Hns & Hdis & Hndst).
  apply Forall_app in Hlt as [Hlts Hltd].
  unfold QNet.load_state_dict in Hload.
  destruct (forallb _ _); [|discriminate].
  destruct (load_entries_spec _ _ _ _ Hndst Hload) as [Hout Hin].
  assert (Hsrc : Forall
            (fun e => exists v,
               QNet.assoc (fst (fst e)) (QNet.state_dict src h) = Some v
               /\ val h (snd e) = Some v) (QNet.entries src)).
  { apply Forall_forall. intros e He.
    now apply (assoc_state_dict (QNet.entries src) h e Hnn Hlts). }
  split; [|split; [|exact Hout]].
  - unfold QNet.state_dict at 1 2.
    eapply state_dict_agree; [exact Hnames | exact Hin | exact Hsrc].
  - unfold QNet.state_dict.
    apply (state_dict_agree _ _ (QNet.state_dict src h)); [reflexivity| |exact Hsrc].
    apply Forall_forall. intros e He.
    destruct (proj1 (Forall_forall _ _) Hsrc e He) as (v & Ha & Hv).
    exists v. split; [assumption|].
    rewrite <- Hv. apply val_lookup, Hout. apply Hdis.
    apply list_elem_of_In, in_map_iff. exists e.
    split; [reflexivity | now apply list_elem_of_In].
Qed.

End SyncFacts.

(** ** Steps, the tick counter and synchronisation *)

Lemma first_ok_outcome {A} (m : M A) (x : A) :
  Demo.first_ok m = Some x -> outcome m (Ok x).
Proof.
  unfold Demo.first_ok. induction m as [|[w r] m IH]; [discriminate|].
  cbn [omap list_omap snd]. destruct r as [a|e].
  - simpl. intros E. injection E as <-. exists w. now left.
  - intros E. destruct (IH E) as [w' Hin]. exists w'. now right.
Qed.

Section StepFacts.
Context `{Torch}.

Import DQNAgent.

Lemma step_spec (s s' : DQNAgent.t) (obs : Image * list Q) (done : bool)
    (a : Z) :
  inv s -> outcome (step s obs done) (Ok (a, s')) ->
  inv s'
  /\ iteration s' = iteration s
  /\ (time_tick s = iteration s ->
      time_tick s' = 0 /\ syncs s' = syncs s + 1
      /\ QNet.state_dict (qnet_support s') (memory s')
         = QNet.state_dict (qnet s') (memory s'))
  /\ (time_tick s <> iteration s ->
      time_tick s' = time_tick s + 1 /\ syncs s' = syncs s
      /\ QNet.param_values (qnet_support s') (memory s')
         = QNet.param_values (qnet_support s) (memory s)).
Proof.
  intros Hinv Hout.
  destruct (step_outcome s s' obs done a Hinv Hout)
    as (s3 & Hinv3 & Ht & Hi & Hy & Hq & Hqs & Hm & Hcase).
  pose proof Hinv3 as (Hnd & Hnames & Hnn & Hlt & _ & Hwf & Hpl & _).
  destruct Hcase as [(Eq & h & Hload & ->) | (Hne & ->)].
  - assert (Hlen : length h = length (memory s3))
      by (eapply load_state_dict_length, Hload).
    split; [|split; [exact Hi|split]].
    + apply (inv_update s3 _ Hinv3);
        [reflexivity | reflexivity | exact Hlen | reflexivity
        | exact Hwf | exact Hpl |].
      intros o E. cbn in E. injection E as <-. apply obs_now_plain.
    + intros _. split; [reflexivity|]. split.
      * rewrite <- Hy. apply (syncs_print_done (with_memory h (with_time_tick 0 s3))).
      * cbn [qnet qnet_support memory with_prev print with_memory
               with_time_tick].
        destruct (load_state_dict_copies (qnet s3) (qnet_support s3)
                    (memory s3) h Hnd Hnames Hnn Hlt Hload) as (E1 & E2 & _).
        now rewrite E1, E2.
    + intros Hne. exfalso. apply Hne. rewrite <- Ht, <- Hi. exact Eq.
  - split; [|split; [exact Hi|split]].
    + apply (inv_update s3 _ Hinv3);
        [reflexivity | reflexivity | reflexivity | reflexivity
        | exact Hwf | exact Hpl |].
      intros o E. cbn in E. injection E as <-. apply obs_now_plain.
    + intros Eq. exfalso. apply Hne. rewrite Ht, Hi. exact Eq.
    + intros _. split; [cbn; now rewrite Ht|]. split; [exact Hy|].
      cbn [qnet_support memory with_prev with_time_tick]. rewrite Hqs.
      apply param_values_ext. intros l Hl. apply val_lookup. now apply Hm.
Qed.

Lemma run_cons (s s' : DQNAgent.t) (o : Image * list Q)
    (os : list (Image * list Q)) :
  outcome (run s (o :: os)) (Ok s') ->
  exists a s1, outcome (step s o false) (Ok (a, s1))
               /\ outcome (run s1 os) (Ok s').
Proof.
  cbn [run]. intros Hout.
  apply outcome_mbind_ok in Hout as [[a s1] [H1 Hout]]. eauto.
Qed.

Lemma run_inv (s s' : DQNAgent.t) (os : list (Image * list Q)) :
  inv s -> outcome (run s os) (Ok s') -> inv s'.
Proof.
  revert s. induction os as [|o os IH]; intros s Hinv Hout.
  - apply outcome_mret in Hout. now injection Hout as ->.
  - apply run_cons in Hout as (a & s1 & H1 & Hout).
    apply (IH s1); [|assumption].
    now apply (step_spec s s1 o false a Hinv H1).
Qed.

(** The tick counter and the number of synchronisations over a run: the
    counter goes round [0, ..., iteration], one synchronisation per
    round. *)
Lemma run_ticks (s s' : DQNAgent.t)
    (observations : list (Image * list Q)) :
  inv s -> 0 <= time_tick s <= iteration s ->
  outcome (run s observations) (Ok s') ->
  time_tick s'
  = (time_tick s + Z.of_nat (length observations)) mod (iteration s + 1)
  /\ syncs s'
     = syncs s
       + (time_tick s + Z.of_nat (length observations)) / (iteration s + 1)
  /\ (observations <> [] -> time_tick s' = 0 ->
      QNet.state_dict (qnet_support s') (memory s')
      = QNet.state_dict (qnet s') (memory s')).
Proof.
  revert s. induction observations as [|o os IH]; intros s Hinv Htick Hout.
  - apply outcome_mret in Hout. injection Hout as ->. simpl.
    rewrite Z.add_0_r, Z.mod_small, Z.div_small by lia.
    split; [reflexivity|]. split; [lia | congruence].
  - apply run_cons in Hout as (a & s1 & H1 & Hout).
    destruct (step_spec s s1 o false a Hinv H1) as (Hinv1 & Hi & Hsync & Hinc).
    assert (Hlen : Z.of_nat (length (o :: os)) = 1 + Z.of_nat (length os))
      by (simpl; lia).
    rewrite Hlen. clear Hlen.
    destruct (Z.eq_dec (time_tick s) (iteration s)) as [Eq | Hne].
    + destruct (Hsync Eq) as (Ht1 & Hy1 & Hsd).
      destruct (IH s1 Hinv1) as (Ht & Hy & Hc); [lia | assumption|].
      rewrite Hi, Ht1 in Ht, Hy. rewrite Hy1 in Hy.
      replace (time_tick s + (1 + Z.of_nat (length os)))
        with (Z.of_nat (length os) + 1 * (iteration s + 1)) by lia.
      rewrite Z_mod_plus_full, Z_div_plus_full by lia.
      rewrite Z.add_0_l in Ht, Hy. split; [exact Ht|].
      split; [rewrite Hy; ring|].
      intros _ H0. destruct os as [|o' os'].
      * apply outcome_mret in Hout. injection Hout as <-. exact Hsd.
      * apply Hc; [discriminate | assumption].
    + destruct (Hinc Hne) as (Ht1 & Hy1 & _).
      destruct (IH s1 Hinv1) as (Ht & Hy & Hc); [lia | assumption|].
      rewrite Hi, Ht1 in Ht, Hy. rewrite Hy1 in Hy.
      replace (time_tick s + (1 + Z.of_nat (length os)))
        with (time_tick s + 1 + Z.of_nat (length os)) by lia.
      split; [exact Ht|]. split; [exact Hy|].
      intros _ H0. destruct os as [|o' os'].
      * apply outcome_mret in Hout. injection Hout as <-. lia.
      * apply Hc; [discriminate | assumption].
Qed.

End StepFacts.

Lemma demo_fresh_inv : inv Demo.fresh.
Proof.
  apply (init_inv (H := Demo.demo_torch) (Demo.config 1 5 2 10 2) 2 2 [2]
           (32, 32, 3) (1 # 2) Demo.init_a Demo.init_b).
  vm_compute. reflexivity.
Qed.

(** ** The training update *)

Section TargetStatistics.
Context `{Torch}.

Import DQNAgent.

(** The heap one pass through the loop body leaves: that of the forward
    pass through the online network followed by the forward pass through
    the target network. *)
Lemma train_example_heap (s : DQNAgent.t) (loss loss' : Scalar) (h : heap)
    (s2 : DQNAgent.t) (e : Experience Observation) :
  train_example (Ok (loss, with_memory h s)) e = Ok (loss', s2) ->
  s2 = with_memory
         (QNet.forward_heap (qnet_support s)
            (QNet.forward_heap (qnet s) h (image (observation e)))
            (image (next_observation e))) s.
Proof.
  unfold train_example, rbind.
  cbn [memory with_memory qnet qnet_support _reward_discount].
  destruct (QNet.forward (qnet s) _ _ _ _) as [[q h1]|] eqn:E1;
    [|discriminate].
  apply forward_ok in E1 as (_ & _ & ->).
  destruct (vindex _ _) as [q_val|]; [|discriminate].
  cbn [memory with_memory qnet qnet_support _reward_discount].
  destruct (QNet.forward (qnet_support s) _ _ _ _) as [[qn h2]|] eqn:E2;
    [|discriminate].
  apply forward_ok in E2 as (_ & _ & ->).
  destruct (vmax _) as [m|]; [|discriminate].
  intros E. injection E as _ <-. reflexivity.
Qed.

(** A running statistic of the target network through the loop: each
    sampled experience makes batch normalisation rewrite it once, from
    the successor observation and the target's (unchanged) parameters. *)
Lemma fold_train_example_target_buffer (s : DQNAgent.t) (name : string)
    (l : nat) (st : Storage Data) (batch : list (Experience Observation)) :
  NoDup (locs (qnet s) ++ locs (qnet_support s)) ->
  QNet.training (qnet_support s) = true ->
  (name, QNet.Buf, l) ∈ QNet.entries (qnet_support s) ->
  forall (loss loss' : Scalar) (h : heap) (d : Data) (s2 : DQNAgent.t),
    frame s (memory s) h ->
    h !! l = Some (QNet.set_data d st) ->
    fold_left train_example batch (Ok (loss, with_memory h s))
    = Ok (loss', s2) ->
    memory s2 !! l
    = Some (QNet.set_data
              (fold_left
                 (fun d e => bn_running
                               (QNet.param_values (qnet_support s) (memory s))
                               (image (next_observation e)) name d)
                 batch d) st).
Proof.
  intros Hsep Htr Hin.
  assert (Hlt : l ∈ locs (qnet_support s)).
  { apply list_elem_of_In, in_map_iff. exists (name, QNet.Buf, l).
    split; [reflexivity | now apply list_elem_of_In]. }
  pose proof Hsep as Hsep'. apply NoDup_app in Hsep' as (_ & Hdis & Hnt).
  assert (Hlo : l ∉ QNet.buffers (qnet s)).
  { intros Hb. apply (Hdis l); [now apply buffers_locs | exact Hlt]. }
  induction batch as [|e es IH]; intros loss loss' h d s2 Hfr Hl Hfold.
  - simpl in Hfold. injection Hfold as _ <-. exact Hl.
  - cbn [fold_left] in Hfold |- *.
    destruct (train_example (Ok (loss, with_memory h s)) e)
      as [[l1 s1]|x] eqn:E1;
      [|rewrite fold_train_example_raise in Hfold; discriminate].
    apply train_example_heap in E1. subst s1.
    set (h1 := QNet.forward_heap (qnet s) h (image (observation e))) in *.
    pose proof (forward_online_frame s h (image (observation e))) as Hfr1.
    fold h1 in Hfr1.
    pose proof (forward_target_frame s h1 (image (next_observation e)))
      as Hfr2.
    pose proof (frame_trans s _ _ _ Hfr Hfr1) as Hfr01.
    apply (IH l1 loss' _ _ s2 (frame_trans s _ _ _ Hfr01 Hfr2));
      [|exact Hfold].
    assert (Hl1 : h1 !! l = Some (QNet.set_data d st)).
    { rewrite <- Hl. unfold h1.
      apply (forward_lookup (qnet s) h (image (observation e)) l Hlo). }
    unfold QNet.forward_heap at 1. rewrite Htr.
    rewrite (track_running_stats_buffer _ _ _ _ name l _ Hnt Hin Hl1).
    rewrite (frame_target s Hsep _ _ Hfr01). reflexivity.
Qed.

End TargetStatistics.

Section TrainTheorems.
Context `{Torch}.

Import DQNAgent.

(** C9, as the code has it. A training update that completes leaves
    both networks' sets of storages as they were and does not touch the
    storage of any parameter of the target network: shape, contents and
    gradient are what they were before, so the target's parameter values
    are unchanged. But the online parameters are not all that changes:
    besides them, the update rewrites the running statistics that the
    batch-normalisation layers of the two networks keep, and nothing else
    in the heap. For the target network, which is in training mode, every
    sampled experience makes batch normalisation rewrite each of its
    running statistics once, from the successor observation. *)
Theorem train_updates_online_only (s s' : DQNAgent.t) :
  inv s -> outcome (train s) (Ok s') ->
  qnet s' = qnet s
  /\ qnet_support s' = qnet_support s
  /\ length (memory s') = length (memory s)
  /\ (forall l, l ∈ QNet.parameters (qnet_support s) ->
                memory s' !! l = memory s !! l)
  /\ QNet.param_values (qnet_support s') (memory s')
     = QNet.param_values (qnet_support s) (memory s)
  /\ (forall l, l ∉ QNet.parameters (qnet s) ->
                l ∉ QNet.buffers (qnet s) ->
                l ∉ QNet.buffers (qnet_support s) ->
                memory s' !! l = memory s !! l)
  /\ (QNet.training (qnet_support s) = true ->
      exists batch,
        outcome (ReplayBuffer.get_batch_experience (replay_buffer s)
                   (batch_size s)) (Ok batch)
        /\ batch <> []
        /\ forall name l st,
             (name, QNet.Buf, l) ∈ QNet.entries (qnet_support s) ->
             memory s !! l = Some st ->
             memory s' !! l
             = Some (QNet.set_data
                       (fold_left
                          (fun d e =>
                             bn_running
                               (QNet.param_values (qnet_support s) (memory s))
                               (image (next_observation e)) name d)
                          batch (data st)) st)).
Proof.
  intros Hinv Hout. pose proof Hinv as (Hsep & _ & _ & _ & Hopt & _).
  destruct (train_outcome s Hsep s' Hinv Hout)
    as (batch & loss & h2 & h3 & h4 & o & Hb & _ & Ex & Hbw & _ & -> & Hfr
        & Hlen & Hlk & _).
  pose proof Hfr as (Hl3 & _ & F).
  assert (Hother : forall l, l ∉ QNet.parameters (qnet s) ->
                     l ∉ QNet.buffers (qnet s) ->
                     l ∉ QNet.buffers (qnet_support s) ->
                     h4 !! l = memory s !! l).
  { intros l Hp Ha Hb'. rewrite (Hlk l Hp). now apply F. }
  assert (Htarget : forall l, l ∈ QNet.parameters (qnet_support s) ->
                      h4 !! l = memory s !! l).
  { intros l Hl.
    apply (target_parameter_kept s Hsep) in Hl as (Ha & Hb' & Hc).
    now apply Hother. }
  cbn [qnet qnet_support memory with_memory with_optimizer].
  split; [reflexivity|]. split; [reflexivity|]. split; [congruence|].
  split; [exact Htarget|]. split; [|split; [exact Hother|]].
  { apply param_values_ext. intros l Hl. now apply val_lookup, Htarget. }
  intros Htr. exists batch. split; [exact Hb|].
  destruct (sampled_plain s batch Hinv Hb) as [Hpl _].
  destruct (batch_loss_spec s Hsep batch _ (zero_grad_frame s Hopt) Hpl)
    as [[_ [x Ex']] | [_ (loss' & h' & Ex' & _ & _ & _ & Hlv)]];
    [rewrite Ex in Ex'; discriminate|].
  rewrite Ex in Ex'. injection Ex' as <- _.
  pose proof (backward_spec _ _ _ Hbw) as (Hne & _ & _ & Hkeep).
  split.
  { intros ->. rewrite Hlv in Hne. now apply Hne. }
  intros name l st Hin Hst.
  assert (Hlt : l ∈ locs (qnet_support s)).
  { apply list_elem_of_In, in_map_iff. exists (name, QNet.Buf, l).
    split; [reflexivity | now apply list_elem_of_In]. }
  assert (Hnp : l ∉ QNet.parameters (qnet s)).
  { intros Hp. pose proof Hsep as Hsep'.
    apply NoDup_app in Hsep' as (_ & Hdis & _).
    apply (Hdis l); [now apply parameters_locs | exact Hlt]. }
  rewrite (Hlk l Hnp), Hkeep.
  2:{ rewrite Hlv. intros Hl. apply Hnp. eapply elem_of_concat_const, Hl. }
  unfold batch_loss, rbind in Ex. cbv zeta in Ex.
  destruct (fold_left train_example batch _) as [[l1 s1]|] eqn:Ef;
    [|discriminate].
  injection Ex as _ Es1.
  rewrite <- (fold_train_example_target_buffer s name l st batch Hsep Htr Hin
                (constant 0%Q) l1
                (Adam.zero_grad (_optimizer s) (memory s)) (data st) s1
                (zero_grad_frame s Hopt)).
  - now rewrite Es1.
  - rewrite zero_grad_lookup by (now rewrite Hopt). rewrite Hst.
    now destruct st.
  - exact Ef.
Qed.

(** C1. Every call of [train] that returns has drawn a batch of
    [batch_size] experiences from the replay buffer, computed from it the
    loss described below, handed that loss to [backward], which left on
    every parameter of the online network the derivative of the loss by
    that parameter, and applied the optimizer step to the outcome. The
    loss is the sum over the sampled experiences of the squared TD error,
    cut to [-1, 1] before squaring, divided by [batch_size]. The
    prediction is the online network's score of the stored action at the
    stored observation; the target is the reward of the two stored vectors
    plus the discount times the largest score of the target network at the
    successor observation. As the function of the heap that [backward]
    differentiates, the loss varies through the predictions only, target
    and reward entering as the constants computed at the time of the
    update, and its autograd leaves are the parameters of the online
    network. Conversely every batch that can be drawn, whose observations
    the two networks accept and for which they return the scores the loop
    indexes, is the batch of such a call. *)
Theorem train_batch_loss (s : DQNAgent.t) :
  inv s ->
  (forall s', outcome (train s) (Ok s') ->
     exists batch loss h2 h3,
       outcome (ReplayBuffer.get_batch_experience (replay_buffer s)
                  (batch_size s)) (Ok batch)
       /\ length batch = Z.to_nat (batch_size s)
       /\ batch_loss
            (with_memory (Adam.zero_grad (_optimizer s) (memory s)) s) batch
          = Ok (loss, with_memory h2 s)
       /\ (value loss == loss_formula s (memory s) (memory s) batch)%Q
       /\ (forall h', (fn loss h' == loss_formula s (memory s) h' batch)%Q)
       /\ (forall l, l ∈ leaves loss <-> l ∈ QNet.parameters (qnet s))
       /\ backward loss h2 = Ok h3
       /\ (forall l st, l ∈ QNet.parameters (qnet s) -> h2 !! l = Some st ->
             h3 !! l
             = Some (Adam.set_grad (Some (autograd (fn loss) h2 l)) st))
       /\ s' = with_memory (snd (Adam.step (_optimizer s) h3))
                 (with_optimizer (fst (Adam.step (_optimizer s) h3)) s))
  /\ (forall batch,
        outcome (ReplayBuffer.get_batch_experience (replay_buffer s)
                   (batch_size s)) (Ok batch) ->
        Forall (scored s (memory s)) batch ->
        batch <> [] -> QNet.parameters (qnet s) <> [] ->
        exists loss h2 h3,
          batch_loss
            (with_memory (Adam.zero_grad (_optimizer s) (memory s)) s) batch
          = Ok (loss, with_memory h2 s)
          /\ (value loss == loss_formula s (memory s) (memory s) batch)%Q
          /\ backward loss h2 = Ok h3
          /\ outcome (train s)
               (Ok (with_memory (snd (Adam.step (_optimizer s) h3))
                      (with_optimizer (fst (Adam.step (_optimizer s) h3))
                         s)))).
Proof.
  intros Hinv. pose proof Hinv as (Hsep & _ & _ & _ & Hopt & _). split.
  - intros s' Hout.
    destruct (train_outcome s Hsep s' Hinv Hout)
      as (batch & loss & h2 & h3 & h4 & o & Hb & Hsc & Ex & Hbw & Est & ->
          & _).
    destruct (sampled_plain s batch Hinv Hb) as [Hpl Hlen].
    destruct (batch_loss_spec s Hsep batch _ (zero_grad_frame s Hopt) Hpl)
      as [[Hns _] | [_ (loss' & h' & Ex' & _ & Hv & Hf & Hlv)]];
      [contradiction|].
    rewrite Ex in Ex'. injection Ex' as <- _.
    assert (Hleaves : forall l, l ∈ leaves loss
                                <-> l ∈ QNet.parameters (qnet s)).
    { intros l. rewrite Hlv. split; [apply elem_of_concat_const|].
      intros Hl. apply backward_spec in Hbw as (Hne & _).
      rewrite Hlv in Hne. destruct batch as [|e es]; [now simpl in Hne|].
      simpl. apply elem_of_app. now left. }
    exists batch, loss, h2, h3.
    repeat (split; [assumption|]). split.
    + intros l st Hl Hst. apply (backward_grads loss h2 h3 l st Hbw);
        [now apply Hleaves | exact Hst].
    + now rewrite Est.
  - intros batch Hb Hsc Hne Hpar.
    destruct (sampled_plain s batch Hinv Hb) as [Hpl Hlen].
    destruct (batch_loss_spec s Hsep batch _ (zero_grad_frame s Hopt) Hpl)
      as [[Hns _] | [_ (loss & h2 & Ex & _ & Hv & _ & Hlv)]];
      [contradiction|].
    assert (Hbw : exists h3, backward loss h2 = Ok h3).
    { unfold backward. destruct (leaves loss) as [|l0 ls] eqn:El;
        [|eexists; reflexivity].
      exfalso. destruct batch as [|e es]; [congruence|].
      simpl in Hlv. symmetry in Hlv. apply app_eq_nil in Hlv as [Hlv _].
      congruence. }
    destruct Hbw as [h3 Hbw]. exists loss, h2, h3.
    split; [exact Ex|]. split; [exact Hv|]. split; [exact Hbw|].
    unfold train. cbv zeta. cbn [replay_buffer batch_size with_memory].
    apply outcome_mbind_ok. exists batch. split; [exact Hb|].
    apply outcome_mbind_ok. exists (loss, with_memory h2 s).
    split; [apply outcome_lift; exact Ex|].
    apply outcome_mbind_ok. exists h3.
    split; [apply outcome_lift; exact Hbw|].
    cbn [_optimizer with_memory].
    destruct (Adam.step (_optimizer s) h3) as [o h4].
    apply outcome_mret. reflexivity.
Qed.

End TrainTheorems.

Lemma demo_warm_inv : inv Demo.warm.
Proof.
  apply (run_inv Demo.cold Demo.warm Demo.observations).
  - apply (init_inv (H := Demo.demo_torch) (Demo.config 1 5 5 10 2) 2 2 [2]
             (32, 32, 3) (1 # 2) Demo.init_a Demo.init_b).
    vm_compute. reflexivity.
  - apply first_ok_outcome. vm_compute. reflexivity.
Qed.

Lemma train_updates_online_only_witness :
  QNet.param_values (DQNAgent.qnet_support Demo.trained)
    (DQNAgent.memory Demo.trained)
  = QNet.param_values (DQNAgent.qnet_support Demo.warm)
      (DQNAgent.memory Demo.warm).
Proof.
  apply (train_updates_online_only Demo.warm Demo.trained).
  - exact demo_warm_inv.
  - apply first_ok_outcome. vm_compute. reflexivity.
Defined.

Lemma train_batch_loss_witness :
  exists batch loss,
    length batch = 2%nat
    /\ (value loss
        == loss_formula Demo.warm (DQNAgent.memory Demo.warm)
             (DQNAgent.memory Demo.warm) batch)%Q.
Proof.
  destruct (train_batch_loss Demo.warm demo_warm_inv) as [Hdone _].
  destruct (Hdone Demo.trained)
    as (batch & loss & h2 & h3 & _ & Hlen & _ & Hv & _).
  - apply first_ok_outcome. vm_compute. reflexivity.
  - exists batch, loss. split; [exact Hlen | exact Hv].
Defined.

(** On the small instance one update moves the online parameters and the
    running statistics of both networks, the target's included, while the
    target's parameters stay as they were. *)
Example demo_train_moves_online :
  QNet.param_values (DQNAgent.qnet Demo.trained)
    (DQNAgent.memory Demo.trained)
  <> QNet.param_values (DQNAgent.qnet Demo.warm) (DQNAgent.memory Demo.warm)
  /\ QNet.state_dict (DQNAgent.qnet_support Demo.trained)
       (DQNAgent.memory Demo.trained)
     <> QNet.state_dict (DQNAgent.qnet_support Demo.warm)
          (DQNAgent.memory Demo.warm).
Proof. split; vm_compute; discriminate. Qed.

(** C9 as stated fails: one update on the small instance completes
    and rewrites storages that are not parameters of the online network.
    Storage 26 is a running statistic of the target network's first
    batch-normalisation layer (its count of batches seen): it is no
    parameter of either network, and the update, which ran the target
    network once per sampled experience in training mode, leaves it
    changed. The target's parameter values are what they were, its
    [state_dict] is not. *)
Lemma train_rewrites_target_statistics :
  outcome (DQNAgent.train Demo.warm) (Ok Demo.trained)
  /\ 26%nat ∈ QNet.buffers (DQNAgent.qnet_support Demo.warm)
  /\ (26%nat ∉ QNet.parameters (DQNAgent.qnet Demo.warm))
  /\ (26%nat ∉ QNet.parameters (DQNAgent.qnet_support Demo.warm))
  /\ DQNAgent.memory Demo.trained !! 26%nat
     <> DQNAgent.memory Demo.warm !! 26%nat
  /\ QNet.param_values (DQNAgent.qnet_support Demo.trained)
       (DQNAgent.memory Demo.trained)
     = QNet.param_values (DQNAgent.qnet_support Demo.warm)
         (DQNAgent.memory Demo.warm)
  /\ QNet.state_dict (DQNAgent.qnet_support Demo.trained)
       (DQNAgent.memory Demo.trained)
     <> QNet.state_dict (DQNAgent.qnet_support Demo.warm)
          (DQNAgent.memory Demo.warm).
Proof.
  split; [apply first_ok_outcome; vm_compute; reflexivity|].
  split.
  { vm_compute.
    repeat (first [apply list_elem_of_here | apply list_elem_of_further]). }
  split.
  { intros Hin. vm_compute in Hin.
    repeat (apply elem_of_cons in Hin as [Hin|Hin]; [discriminate|]).
    inversion Hin. }
  split.
  { intros Hin. vm_compute in Hin.
    repeat (apply elem_of_cons in Hin as [Hin|Hin]; [discriminate|]).
    inversion Hin. }
  split; [vm_compute; discriminate|].
  split; [vm_compute; reflexivity | vm_compute; discriminate].
Qed.

(** * Further properties of the code *)

(** ** ReplayBuffer: construction, empty buffers, reading back *)

Section MoreBufferFacts.
Context {Obs : Type}.
Implicit Types (rb : ReplayBuffer.t Obs).

Import ReplayBuffer.

Lemma empty_get_single rb (i : Z) :
  wf rb -> n_experience rb = 0 ->
  (-1 <= i -> get_single_experience rb i = Raise AssertionError)
  /\ (i < -1 -> get_single_experience rb i = Raise IndexError).
Proof.
  intros Hwf Hn. pose proof (wf_size rb Hwf) as Hlen. split; intros Hi.
  - apply get_single_experience_assert. lia.
  - unfold get_single_experience, deque.getitem.
    destruct (Z.gtb_spec (n_experience rb - 1) i); [|lia].
    apply py_index_out_of_range. unfold contents in Hlen. lia.
Qed.

(** X1. A buffer that holds nothing gives nothing back: every index makes
    [get_single_experience] raise ([AssertionError] from -1 upwards,
    [IndexError] from the deque below -1), a batch of at least one draw
    raises [IndexError], and only the empty batch can be drawn. This is
    the state [clear] leaves behind. *)
Theorem empty_buffer_gives_nothing rb (i batch_size : Z) :
  wf rb ->
  n_experience (clear rb) = 0
  /\ wf (clear rb)
  /\ (n_experience rb = 0 ->
      is_ok (get_single_experience rb i) = false
      /\ (-1 <= i -> get_single_experience rb i = Raise AssertionError)
      /\ (i < -1 -> get_single_experience rb i = Raise IndexError)
      /\ (1 <= batch_size ->
          forall r, outcome (get_batch_experience rb batch_size) r ->
                    r = Raise IndexError)
      /\ (batch_size <= 0 -> get_batch_experience rb batch_size = mret [])).
Proof.
  intros Hwf. split; [reflexivity|]. split; [now apply clear_wf|].
  intros Hn. destruct (empty_get_single rb i Hwf Hn) as [Ha Hlow].
  split; [|split; [exact Ha|split; [exact Hlow|split]]].
  - destruct (Z.le_gt_cases (-1) i) as [Hi | Hi].
    + now rewrite Ha.
    + now rewrite Hlow by lia.
  - intros Hb r Hr.
    destruct (sampling_cases rb batch_size Hwf) as (_ & Hfail & _).
    apply (Hfail ltac:(lia) Hb). exact Hr.
  - intros Hb.
    destruct (sampling_cases rb batch_size Hwf) as (_ & _ & Hempty).
    now apply Hempty.
Qed.

(** X2. Which capacities the constructor accepts. [ReplayBuffer(n)]
    returns exactly for [0 <= n < 2^63]: [deque] raises [ValueError] for a
    negative [maxlen] that fits a C [Py_ssize_t] and [OverflowError] for
    one that does not fit, of either sign. A capacity of 0 is accepted,
    and such a buffer drops every experience appended to it: it stays
    empty for ever. *)
Theorem capacity_edge_cases (capacity : Z) (es : list (Experience Obs)) :
  (is_ok (@__init__ Obs capacity) = true <-> 0 <= capacity < 2 ^ 63)
  /\ (- 2 ^ 63 <= capacity < 0 -> @__init__ Obs capacity = Raise ValueError)
  /\ (capacity < - 2 ^ 63 \/ 2 ^ 63 <= capacity ->
      @__init__ Obs capacity = Raise OverflowError)
  /\ (forall rb0, capacity = 0 -> __init__ capacity = Ok rb0 ->
        contents (append_all rb0 es) = []
        /\ n_experience (append_all rb0 es) = 0).
Proof.
  destruct (deque_new_cases (A := Experience Obs) capacity)
    as (Hov & Hneg & Hok).
  split; [|split; [|split]].
  - unfold __init__. split.
    + destruct (deque.new capacity) as [d|] eqn:E; [|discriminate].
      intros _. now apply deque_new_ok in E as [Hn _].
    + intros Hn. now rewrite Hok.
  - intros Hc. unfold __init__. now rewrite Hneg.
  - intros Hc. unfold __init__. now rewrite Hov.
  - intros rb0 -> Hinit. apply init_wf in Hinit as (Hwf & Hc & Hsz).
    pose proof (append_all_wf rb0 es Hwf) as Hwf'.
    assert (E : contents (append_all rb0 es) = []).
    { rewrite (append_all_contents rb0 es Hwf), Hc, Hsz. simpl.
      rewrite Nat.sub_0_r. apply drop_all. }
    split; [exact E|]. rewrite (wf_size _ Hwf'), E. reflexivity.
Qed.

(** X3. Reading back what was appended. After any appends to a fresh
    buffer, a valid index [i] (from 0 to size - 2) returns the experience
    appended at position [k + i], where [k] is the number of experiences
    already evicted (the appends beyond the capacity): the order of
    insertion is the order of the indices. *)
Theorem append_then_get (capacity : Z) rb0 (es : list (Experience Obs))
    (i : Z) :
  __init__ capacity = Ok rb0 ->
  0 <= i < n_experience (append_all rb0 es) - 1 ->
  exists e,
    get_single_experience (append_all rb0 es) i = Ok e
    /\ es !! (length es - Z.to_nat capacity + Z.to_nat i)%nat = Some e.
Proof.
  intros Hinit Hi. apply init_wf in Hinit as (Hwf & Hc & Hsz).
  pose proof (append_all_wf rb0 es Hwf) as Hwf'.
  destruct (get_single_experience_in_range _ i Hwf' Hi) as [e [He Hl]].
  exists e. split; [exact He|].
  rewrite (append_all_contents rb0 es Hwf), Hc, Hsz in Hl. simpl in Hl.
  now rewrite lookup_drop in Hl.
Qed.

(** X4. [clear] forgets the past and nothing else: a cleared buffer keeps
    its capacity, and what it holds after further appends depends on
    those appends only, the last [capacity] of them in order. *)
Theorem clear_then_append rb (es : list (Experience Obs)) :
  wf rb ->
  buffer_size (append_all (clear rb) es) = buffer_size rb
  /\ contents (append_all (clear rb) es)
     = drop (length es - Z.to_nat (buffer_size rb)) es.
Proof.
  intros Hwf. pose proof (clear_wf rb Hwf) as Hwf'. split.
  - now rewrite append_all_buffer_size.
  - now rewrite (append_all_contents (clear rb) es Hwf').
Qed.

End MoreBufferFacts.

Lemma empty_buffer_gives_nothing_witness :
  ReplayBuffer.get_single_experience
    (ReplayBuffer.clear (Demo.buffer_of 5 [Demo.exp 0; Demo.exp 1])) 0
  = Raise AssertionError.
Proof.
  destruct (empty_buffer_gives_nothing
              (ReplayBuffer.clear (Demo.buffer_of 5 [Demo.exp 0; Demo.exp 1]))
              0 1) as (_ & _ & Hempty).
  - apply clear_wf, demo_buffer_wf. lia.
  - destruct (Hempty eq_refl) as (_ & Ha & _). apply Ha. lia.
Defined.

Lemma capacity_edge_cases_witness :
  @ReplayBuffer.__init__ nat (-1) = Raise ValueError
  /\ @ReplayBuffer.__init__ nat (2 ^ 63) = Raise OverflowError
  /\ ReplayBuffer.contents
       (ReplayBuffer.append_all (Demo.buffer_of 0 [])
          [Demo.exp 0; Demo.exp 1]) = [].
Proof.
  destruct (capacity_edge_cases (-1) (@nil (Experience nat)))
    as (_ & Hneg & _).
  destruct (capacity_edge_cases (2 ^ 63) (@nil (Experience nat)))
    as (_ & _ & Hov & _).
  destruct (capacity_edge_cases 0 [Demo.exp 0; Demo.exp 1])
    as (_ & _ & _ & Hzero).
  split; [apply Hneg; lia|]. split; [apply Hov; lia|].
  now apply (Hzero (Demo.buffer_of 0 [])).
Defined.

Lemma append_then_get_witness :
  exists e,
    ReplayBuffer.get_single_experience
      (Demo.buffer_of 2 [Demo.exp 0; Demo.exp 1; Demo.exp 2]) 0 = Ok e
    /\ [Demo.exp 0; Demo.exp 1; Demo.exp 2] !! 1%nat = Some e.
Proof.
  apply (append_then_get 2 (Demo.buffer_of 2 [])
           [Demo.exp 0; Demo.exp 1; Demo.exp 2] 0).
  - reflexivity.
  - vm_compute. split; [discriminate | reflexivity].
Defined.

Lemma clear_then_append_witness :
  ReplayBuffer.contents
    (ReplayBuffer.append_all
       (ReplayBuffer.clear (Demo.buffer_of 2 [Demo.exp 0; Demo.exp 1]))
       [Demo.exp 5; Demo.exp 6; Demo.exp 7])
  = [Demo.exp 6; Demo.exp 7].
Proof.
  apply (clear_then_append (Demo.buffer_of 2 [Demo.exp 0; Demo.exp 1])
           [Demo.exp 5; Demo.exp 6; Demo.exp 7]).
  apply demo_buffer_wf. lia.
Defined.

(** ** The reward is a cost *)

Local Open Scope Q_scope.

Lemma sum_of_squares_nonneg (xs : list Q) : 0 <= sum_of_squares xs.
Proof.
  induction xs as [|x xs IH]; simpl; [lra|].
  assert (0 <= x * x) by nra. lra.
Qed.

Section RewardSign.
Context `{Torch}.

(** X5. The reward is never positive: it lies in [-3, 0], so the upper
    bound 3 of the clamp is never reached. It equals -0.01 times the sum
    of squares as long as that sum is at most 300, and is -3 from there
    on. *)
Theorem reward_is_a_cost (vector_obs next_vector_obs : Vector) :
  - (3) <= value (DQNAgent.reward vector_obs next_vector_obs) <= 0
  /\ (sum_of_squares (value vector_obs) <= 300 ->
      value (DQNAgent.reward vector_obs next_vector_obs)
      == - (1 # 100) * sum_of_squares (value vector_obs))
  /\ (300 <= sum_of_squares (value vector_obs) ->
      value (DQNAgent.reward vector_obs next_vector_obs) == - (3)).
Proof.
  pose proof (sum_of_squares_nonneg (value vector_obs)) as Hpos.
  pose proof (reward_value vector_obs next_vector_obs) as E.
  unfold reward_formula, cut_to in E.
  set (b := - (1 # 100) * sum_of_squares (value vector_obs)) in *.
  assert (Hb : b == - (1 # 100) * sum_of_squares (value vector_obs))
    by reflexivity.
  destruct (Qlt_le_dec b (- (3))), (Qlt_le_dec 3 b);
    repeat split; intros; lra.
Qed.

End RewardSign.

Lemma reward_is_a_cost_witness :
  value (DQNAgent.reward (constant [10; 10]) (constant [0; 0])) == - (2)
  /\ value (DQNAgent.reward (constant [30; 40]) (constant [0; 0])) == - (3).
Proof.
  destruct (reward_is_a_cost (constant [10; 10]) (constant [0; 0]))
    as (_ & Hlin & _).
  destruct (reward_is_a_cost (constant [30; 40]) (constant [0; 0]))
    as (_ & _ & Hsat).
  split.
  - rewrite Hlin; [reflexivity|]. vm_compute. discriminate.
  - apply Hsat. vm_compute. discriminate.
Defined.

Local Close Scope Q_scope.

(** ** The greedy action *)

Section GreedyFacts.
Context `{Torch}.

(** X6. [get_greedy_action] returns the position of a largest score:
    the index lies within the score vector and no score exceeds the one
    at that index. When the layers of the online network refuse the
    shapes of the input, the call raises what they raise; on an empty
    score vector it raises [RuntimeError]. The scores it returns are
    detached, and the call changes nothing of the agent but the heap,
    where it leaves every storage outside the online network's running
    statistics untouched. *)
Theorem greedy_action_is_maximal (self : DQNAgent.t) (grad_enabled : bool)
    (im_tensor : Image) (vec_tensor : Vector) :
  let scores := qnet_forward
                  (QNet.param_values (DQNAgent.qnet self)
                     (DQNAgent.memory self))
                  im_tensor (value vec_tensor) in
  let shapes := Shapes.forward (QNet.training (DQNAgent.qnet self))
                  (QNet.n_images (DQNAgent.qnet self))
                  (QNet.vector_dim (DQNAgent.qnet self))
                  (QNet.n_action (DQNAgent.qnet self))
                  (image_shape im_tensor)
                  [Z.of_nat (length (value vec_tensor))] in
  (forall x, shapes = Raise x ->
   DQNAgent.get_greedy_action self grad_enabled im_tensor vec_tensor
   = Raise x)
  /\ (is_ok shapes = true -> scores = [] ->
      DQNAgent.get_greedy_action self grad_enabled im_tensor vec_tensor
      = Raise RuntimeError)
  /\ (forall index q_val self',
        DQNAgent.get_greedy_action self grad_enabled im_tensor vec_tensor
        = Ok (index, q_val, self') ->
        is_ok shapes = true
        /\ value q_val = scores
        /\ leaves q_val = []
        /\ 0 <= index < Z.of_nat (length scores)
        /\ (exists m, scores !! Z.to_nat index = Some m
                      /\ Forall (fun x => (x <= m)%Q) scores)
        /\ self' = DQNAgent.with_memory (DQNAgent.memory self') self
        /\ (forall l, l ∉ QNet.buffers (DQNAgent.qnet self) ->
              DQNAgent.memory self' !! l = DQNAgent.memory self !! l)).
Proof.
  intros scores shapes. unfold DQNAgent.get_greedy_action.
  pose proof (forward_output_value (DQNAgent.qnet self)
                (DQNAgent.memory self) grad_enabled im_tensor vec_tensor)
    as Hout.
  fold scores in Hout.
  destruct (forward_cases (DQNAgent.qnet self) (DQNAgent.memory self)
              grad_enabled im_tensor vec_tensor)
    as [[Ha E] | [Ha [x E]]]; fold shapes in Ha; rewrite E.
  2:{ split; [|split].
      - intros y Hy. revert E. unfold QNet.forward. fold shapes.
        rewrite Hy. cbn [rbind]. intros E. injection E as <-. reflexivity.
      - intros Hok. rewrite Hok in Ha. discriminate.
      - intros index q_val self' E'. discriminate. }
  cbn [rbind]. unfold topk1, rbind. cbn [detach constant value].
  set (out := QNet.forward_output (DQNAgent.qnet self) (DQNAgent.memory self)
                grad_enabled im_tensor vec_tensor) in *.
  unfold Vector in *. rewrite Hout. clearbody scores. split; [|split].
  - intros y Hy. rewrite Hy in Ha. discriminate.
  - intros _ ->. reflexivity.
  - intros index q_val self'. destruct scores as [|v l]; [discriminate|].
    intros E'. injection E' as <- <- <-.
    cbn [value leaves constant DQNAgent.memory DQNAgent.with_memory].
    destruct (topk_index_max (v :: l)) as (m & Hl & Hall); [discriminate|].
    split; [exact Ha|].
    split; [exact Hout|]. split; [reflexivity|].
    pose proof (lookup_lt_Some _ _ _ Hl) as Hlt.
    split; [lia|]. split.
    { exists m. rewrite Nat2Z.id. split; assumption. }
    split; [reflexivity|].
    intros l0 Hl0.
    apply (forward_lookup (DQNAgent.qnet self) (DQNAgent.memory self)
             im_tensor l0 Hl0).
Qed.

End GreedyFacts.

Lemma greedy_action_is_maximal_witness :
  exists index q_val self',
    DQNAgent.get_greedy_action Demo.fresh false [1; 3; 32; 32]
      (constant [3; 7]%Q)
    = Ok (index, q_val, self')
    /\ index = 1.
Proof.
  destruct (DQNAgent.get_greedy_action Demo.fresh false [1; 3; 32; 32]
              (constant [3; 7]%Q)) as [[[index q_val] self']|] eqn:E;
    [|vm_compute in E; discriminate].
  exists index, q_val, self'. split; [reflexivity|].
  destruct (greedy_action_is_maximal Demo.fresh false [1; 3; 32; 32]
              (constant [3; 7]%Q)) as (_ & _ & Hmax).
  destruct (Hmax index q_val self' E)
    as (_ & _ & _ & Hr & (m & Hm & Hall) & _).
  vm_compute in E. now injection E as <- _ _.
Defined.

(** ** When a training update cannot run, and how large its loss can be *)

Lemma cut_to_bounds (lo hi x : Q) :
  (lo <= hi)%Q -> (lo <= cut_to lo hi x <= hi)%Q.
Proof.
  intros Hle. unfold cut_to.
  destruct (Qlt_le_dec x lo); [lra|]. destruct (Qlt_le_dec hi x); lra.
Qed.

Section TrainEdges.
Context `{Torch}.

Import DQNAgent.

Lemma train_edges (s : DQNAgent.t) (r : result DQNAgent.t) :
  ReplayBuffer.wf (replay_buffer s) ->
  (ReplayBuffer.n_experience (replay_buffer s) < 2 -> 1 <= batch_size s ->
   (outcome (train s) r <-> r = Raise IndexError))
  /\ (batch_size s <= 0 -> (outcome (train s) r <-> r = Raise RuntimeError)).
Proof.
  intros Hwf. unfold train. cbv zeta.
  cbn [replay_buffer batch_size with_memory].
  destruct (sampling_cases (replay_buffer s) (batch_size s) Hwf)
    as (_ & Hfail & Hempty).
  split.
  - intros Hn Hb. rewrite outcome_mbind. split.
    + intros [(batch & Hbatch & _) | (e & He & ->)].
      * apply (Hfail Hn Hb) in Hbatch. discriminate.
      * apply (Hfail Hn Hb) in He. congruence.
    + intros ->. right. exists IndexError. split; [|reflexivity].
      now apply (Hfail Hn Hb).
  - intros Hb. rewrite (Hempty Hb). vm_compute mret.
    unfold mbind, dbind, lift, batch_loss, rbind, backward. simpl.
    unfold outcome. split.
    + intros [w [E | []]]. now injection E as _ <-.
    + intros ->. eexists. left. reflexivity.
Qed.

(** X7. Two configurations in which [train] can only raise. With fewer
    than two stored experiences and [batch_size >= 1] the first draw has
    nothing to choose from: [IndexError]. With [batch_size <= 0] the batch
    is empty, the loss is the untracked [zeros(1)] and [backward] refuses
    it: [RuntimeError]. In both cases no outcome is a return. *)
Theorem train_cannot_run (s : DQNAgent.t) (r : result DQNAgent.t) :
  ReplayBuffer.wf (replay_buffer s) ->
  (ReplayBuffer.n_experience (replay_buffer s) < 2 -> 1 <= batch_size s ->
   (outcome (train s) r <-> r = Raise IndexError))
  /\ (batch_size s <= 0 -> (outcome (train s) r <-> r = Raise RuntimeError)).
Proof. apply train_edges. Qed.

Lemma td_sum_bounds (s : DQNAgent.t) (h : heap)
    (batch : list (Experience Observation)) :
  (0 <= td_sum s h batch <= inject_Z (Z.of_nat (length batch)))%Q.
Proof.
  induction batch as [|e es IH].
  - unfold td_sum, inject_Z. simpl. change (Z.of_nat 0) with 0%Z. lra.
  - change (td_sum s h (e :: es)) with (td_term s h e + td_sum s h es)%Q.
    assert (Hterm : (0 <= td_term s h e <= 1)%Q).
    { unfold td_term.
      pose proof (cut_to_bounds (- (1)) 1
                    (td_target s (memory s) e - predicted s h e)
                    ltac:(lra)) as Hd.
      set (d := cut_to _ _ _) in *. cbv zeta. nra. }
    cbn [length]. rewrite Nat2Z.inj_succ. unfold Z.succ.
    rewrite inject_Z_plus. change (inject_Z 1) with 1%Q. lra.
Qed.

Lemma loss_bounds (s : DQNAgent.t) (batch : list (Experience Observation))
    (loss : Scalar) (h : heap) :
  inv s ->
  outcome (ReplayBuffer.get_batch_experience (replay_buffer s)
             (batch_size s)) (Ok batch) ->
  1 <= batch_size s ->
  batch_loss
    (with_memory (Adam.zero_grad (_optimizer s) (memory s)) s) batch
  = Ok (loss, with_memory h s) ->
  (0 <= value loss <= 1)%Q.
Proof.
  intros Hinv Hb Hpos Ex. pose proof Hinv as (Hsep & _ & _ & _ & Hopt & _).
  destruct (sampled_plain s batch Hinv Hb) as [Hpl Hlen].
  destruct (batch_loss_spec s Hsep batch _ (zero_grad_frame s Hopt) Hpl)
    as [[_ [x Ex']] | [_ (loss' & h' & Ex' & _ & Hv & _)]];
    [rewrite Ex in Ex'; discriminate|].
  rewrite Ex in Ex'. injection Ex' as <- _. rewrite Hv.
  change (loss_formula s (memory s) (memory s) batch)
    with (td_sum s (memory s) batch / inject_Z (batch_size s))%Q.
  pose proof (td_sum_bounds s (memory s) batch) as [Hlo Hhi].
  rewrite Hlen, Z2Nat.id in Hhi by lia.
  assert (Hq : (0 < inject_Z (batch_size s))%Q).
  { change 0%Q with (inject_Z 0). rewrite <- Zlt_Qlt. lia. }
  split.
  - apply Qle_shift_div_l; [exact Hq | lra].
  - apply Qle_shift_div_r; [exact Hq | lra].
Qed.

(** X8. Clipping the TD error bounds the loss: for every batch drawn with
    [batch_size >= 1] (and scores present) the batch loss lies in
    [0, 1]. So does the loss of every call of [train] that returns: such
    a call drew a batch, summed a loss in [0, 1] over it, and went on
    with [backward] on that loss and the optimizer step. *)
Theorem batch_loss_in_unit_interval (s : DQNAgent.t) :
  inv s ->
  (forall batch,
     outcome (ReplayBuffer.get_batch_experience (replay_buffer s)
                (batch_size s)) (Ok batch) ->
     Forall (scored s (memory s)) batch ->
     1 <= batch_size s ->
     exists loss h,
       batch_loss
         (with_memory (Adam.zero_grad (_optimizer s) (memory s)) s) batch
       = Ok (loss, with_memory h s)
       /\ (0 <= value loss <= 1)%Q)
  /\ (forall s', outcome (train s) (Ok s') ->
       exists batch loss h2 h3,
         outcome (ReplayBuffer.get_batch_experience (replay_buffer s)
                    (batch_size s)) (Ok batch)
         /\ batch_loss
              (with_memory (Adam.zero_grad (_optimizer s) (memory s)) s)
              batch
            = Ok (loss, with_memory h2 s)
         /\ (0 <= value loss <= 1)%Q
         /\ backward loss h2 = Ok h3
         /\ s' = with_memory (snd (Adam.step (_optimizer s) h3))
                   (with_optimizer (fst (Adam.step (_optimizer s) h3)) s)).
Proof.
  intros Hinv. pose proof Hinv as (Hsep & _ & _ & _ & Hopt & Hwf & _).
  split.
  - intros batch Hb Hsc Hpos.
    destruct (sampled_plain s batch Hinv Hb) as [Hpl Hlen].
    destruct (batch_loss_spec s Hsep batch _ (zero_grad_frame s Hopt) Hpl)
      as [[Hns _] | [_ (loss & h & Ex & _)]]; [contradiction|].
    exists loss, h. split; [exact Ex|].
    exact (loss_bounds s batch loss h Hinv Hb Hpos Ex).
  - intros s' Hout.
    assert (Hpos : 1 <= batch_size s).
    { destruct (Z.le_gt_cases 1 (batch_size s)) as [Hp | Hp]; [exact Hp|].
      destruct (train_edges s (Ok s') Hwf) as [_ Hempty].
      apply (Hempty ltac:(lia)) in Hout. discriminate. }
    destruct (train_outcome s Hsep s' Hinv Hout)
      as (batch & loss & h2 & h3 & h4 & o & Hb & _ & Ex & Hbw & Est & ->
          & _).
    exists batch, loss, h2, h3.
    split; [exact Hb|]. split; [exact Ex|].
    split; [exact (loss_bounds s batch loss h2 Hinv Hb Hpos Ex)|].
    split; [exact Hbw|]. now rewrite Est.
Qed.

End TrainEdges.

Lemma train_cannot_run_witness :
  outcome (DQNAgent.train Demo.fresh) (Raise IndexError).
Proof.
  destruct (train_cannot_run Demo.fresh (Raise IndexError)) as [Hfew _].
  - apply demo_fresh_inv.
  - apply Hfew; [vm_compute; reflexivity | vm_compute; discriminate |].
    reflexivity.
Defined.

Lemma batch_loss_in_unit_interval_witness :
  exists loss h,
    DQNAgent.batch_loss
      (DQNAgent.with_memory
         (Adam.zero_grad (DQNAgent._optimizer Demo.warm)
            (DQNAgent.memory Demo.warm)) Demo.warm) Demo.warm_batch
    = Ok (loss, DQNAgent.with_memory h Demo.warm)
    /\ (0 <= value loss <= 1)%Q.
Proof.
  destruct (batch_loss_in_unit_interval Demo.warm demo_warm_inv)
    as [Hbatch _].
  apply (Hbatch Demo.warm_batch).
  - apply first_ok_outcome. vm_compute. reflexivity.
  - repeat constructor; vm_compute; discriminate.
  - vm_compute. discriminate.
Defined.

(** ** Shapes never change *)

Section ShapeFacts.
Context `{Torch}.

Import DQNAgent.

Lemma same_shapes_refl (h : heap) : same_shapes h h.
Proof. split; reflexivity. Qed.

Lemma same_shapes_trans (h1 h2 h3 : heap) :
  same_shapes h1 h2 -> same_shapes h2 h3 -> same_shapes h1 h3.
Proof.
  intros [L1 S1] [L2 S2]. split; [congruence|].
  intros l. now rewrite S2, S1.
Qed.

Lemma alter_same_shapes (f : Storage Data -> Storage Data) (l : nat)
    (h : heap) :
  (forall s, shape (f s) = shape s) -> same_shapes h (alter f l h).
Proof.
  intros Hf. split; [apply length_alter|]. intros l'. unfold shape_at.
  destruct (decide (l = l')) as [-> | Hne].
  - rewrite list_lookup_alter_eq. destruct (h !! l'); simpl; [|reflexivity].
    now rewrite Hf.
  - now rewrite list_lookup_alter_ne.
Qed.

Lemma insert_same_shapes (x s : Storage Data) (l : nat) (h : heap) :
  h !! l = Some s -> shape x = shape s -> same_shapes h (<[l := x]> h).
Proof.
  intros Hl Hx. split; [apply length_insert|]. intros l'. unfold shape_at.
  destruct (decide (l = l')) as [-> | Hne].
  - rewrite list_lookup_insert_eq by (eapply lookup_lt_Some, Hl).
    now rewrite Hl, Hx.
  - now rewrite list_lookup_insert_ne.
Qed.

Lemma val_same_shapes (h h' : heap) :
  length h' = length h -> (forall l, val h' l = val h l) -> same_shapes h h'.
Proof.
  intros Hlen Hval. split; [assumption|]. intros l.
  specialize (Hval l). unfold val, shape_at in *.
  destruct (h' !! l), (h !! l); congruence.
Qed.

Lemma forward_heap_same_shapes (net : QNet.t) (h : heap) (im : Image) :
  same_shapes h (QNet.forward_heap net h im).
Proof.
  unfold QNet.forward_heap. destruct (QNet.training net);
    [|apply same_shapes_refl].
  unfold QNet.track_running_stats.
  generalize (QNet.param_values net h). intros theta. revert h.
  induction (QNet.entries net) as [|[[name k] l] es IH]; intros h;
    [apply same_shapes_refl|].
  cbn [fold_left]. destruct k; [apply IH|].
  eapply same_shapes_trans; [|apply IH].
  now apply alter_same_shapes.
Qed.

Lemma zero_grad_same_shapes (o : Adam.t) (h : heap) :
  same_shapes h (Adam.zero_grad o h).
Proof.
  apply val_same_shapes; [apply zero_grad_length|].
  intros l. apply zero_grad_val.
Qed.

Lemma backward_same_shapes (loss : Scalar) (h h' : heap) :
  backward loss h = Ok h' -> same_shapes h h'.
Proof.
  intros E. apply backward_spec in E as (_ & Hlen & Hval & _).
  now apply val_same_shapes.
Qed.

Lemma adam_step_same_shapes (o o' : Adam.t) (h h' : heap) :
  Adam.step o h = (o', h') -> same_shapes h h'.
Proof.
  unfold Adam.step.
  destruct (fold_left (Adam.step_param o) (Adam.params o) (Adam.state o, h))
    as [st h1] eqn:E.
  intros E'. injection E' as _ <-.
  assert (Hgen : forall ps acc,
            same_shapes (snd acc) (snd (fold_left (Adam.step_param o) ps acc))).
  { induction ps as [|p ps IH]; intros acc; [apply same_shapes_refl|].
    cbn [fold_left]. eapply same_shapes_trans; [|apply IH].
    destruct acc as [st0 h0]. unfold Adam.step_param. cbn [snd].
    destruct (h0 !! p) as [s|] eqn:Ep; [|apply same_shapes_refl].
    destruct (grad s) as [g|]; [|apply same_shapes_refl].
    destruct (adam_update _ _ _ _ _ _) as [d a]. cbn [snd].
    now apply (insert_same_shapes _ s). }
  specialize (Hgen (Adam.params o) (Adam.state o, h)).
  now rewrite E in Hgen.
Qed.

Lemma load_entries_same_shapes (es : list (string * QNet.kind * nat))
    (sd : named_values Data) (h h' : heap) :
  QNet.load_entries es sd h = Ok h' -> same_shapes h h'.
Proof.
  revert h. induction es as [|[[name k] l] es IH]; intros h;
    cbn [QNet.load_entries].
  - intros E. injection E as <-. apply same_shapes_refl.
  - destruct (QNet.assoc name sd) as [[shp d]|]; [|discriminate].
    destruct (h !! l) as [s|] eqn:Es; [|discriminate].
    destruct (bool_decide _); [|discriminate].
    intros E. eapply same_shapes_trans; [|apply (IH _ E)].
    now apply (insert_same_shapes _ s).
Qed.

Lemma load_state_dict_same_shapes (net : QNet.t) (sd : named_values Data)
    (h h' : heap) :
  QNet.load_state_dict net sd h = Ok h' -> same_shapes h h'.
Proof.
  unfold QNet.load_state_dict. destruct (forallb _ _); [|discriminate].
  apply load_entries_same_shapes.
Qed.

Lemma train_example_fields (loss loss' : Scalar) (s s' : DQNAgent.t)
    (e : Experience Observation) :
  train_example (Ok (loss, s)) e = Ok (loss', s') ->
  s' = with_memory (memory s') s /\ same_shapes (memory s) (memory s').
Proof.
  unfold train_example, rbind.
  cbn [memory with_memory qnet qnet_support _reward_discount].
  destruct (QNet.forward (qnet s) _ _ _ _) as [[q h1]|] eqn:E1;
    [|discriminate].
  apply forward_ok in E1 as (_ & _ & ->).
  destruct (vindex _ _) as [q_val|]; [|discriminate].
  cbn [memory with_memory qnet qnet_support _reward_discount].
  destruct (QNet.forward (qnet_support s) _ _ _ _) as [[qn h2]|] eqn:E2;
    [|discriminate].
  apply forward_ok in E2 as (_ & _ & ->).
  destruct (vmax _) as [m|]; [|discriminate].
  intros E. injection E as _ <-. cbn [memory with_memory].
  split; [reflexivity|].
  eapply same_shapes_trans; apply forward_heap_same_shapes.
Qed.

Lemma fold_train_example_fields (batch : list (Experience Observation))
    (loss loss' : Scalar) (s s' : DQNAgent.t) :
  fold_left train_example batch (Ok (loss, s)) = Ok (loss', s') ->
  s' = with_memory (memory s') s /\ same_shapes (memory s) (memory s').
Proof.
  revert loss s. induction batch as [|e es IH]; intros loss s.
  - simpl. intros E. injection E as _ <-. split; [now destruct s|].
    apply same_shapes_refl.
  - cbn [fold_left].
    destruct (train_example (Ok (loss, s)) e) as [[l1 s1]|x] eqn:E1.
    + intros E. apply IH in E as [Es Hs].
      apply train_example_fields in E1 as [Es1 Hs1].
      split; [|exact (same_shapes_trans _ _ _ Hs1 Hs)].
      rewrite Es, Es1. reflexivity.
    + rewrite fold_train_example_raise. discriminate.
Qed.

(** A training update that returns has replaced the heap and the
    optimizer's state, and nothing else. *)
Lemma train_fields (s s' : DQNAgent.t) :
  outcome (train s) (Ok s') ->
  exists h o,
    s' = with_memory h (with_optimizer o s)
    /\ same_shapes (memory s) h
    /\ Adam.params o = Adam.params (_optimizer s).
Proof.
  intros Hout. unfold train in Hout. cbv zeta in Hout.
  cbn [replay_buffer batch_size with_memory] in Hout.
  apply outcome_mbind_ok in Hout as [batch [_ Hout]].
  apply outcome_mbind_ok in Hout as [[loss s2] [Hl Hout]].
  apply outcome_lift in Hl.
  apply outcome_mbind_ok in Hout as [h3 [Hbw Hout]].
  apply outcome_lift in Hbw.
  unfold batch_loss, rbind in Hl. cbv zeta in Hl.
  destruct (fold_left train_example batch _) as [[l1 s1]|] eqn:Ef;
    [|discriminate].
  injection Hl as _ <-.
  apply fold_train_example_fields in Ef as [Es1 Hs1].
  cbn [memory with_memory] in Hs1.
  destruct (Adam.step (_optimizer s1) h3) as [o h4] eqn:Es.
  apply outcome_mret in Hout. injection Hout as ->.
  exists h4, o. rewrite Es1 in Es |- *. cbn [_optimizer with_memory] in Es.
  split; [reflexivity|]. split.
  - eapply same_shapes_trans; [apply zero_grad_same_shapes|].
    eapply same_shapes_trans; [exact Hs1|].
    eapply same_shapes_trans; [eapply backward_same_shapes, Hbw|].
    eapply adam_step_same_shapes, Es.
  - now apply adam_step_spec in Es as (Hp & _).
Qed.

End ShapeFacts.

(** ** The anatomy of a step *)

Section StepAnatomy.
Context `{Torch}.

Import DQNAgent.

Lemma stored_fields (s : DQNAgent.t) (o : Observation) :
  qnet (stored s o) = qnet s /\ qnet_support (stored s o) = qnet_support s
  /\ memory (stored s o) = memory s /\ _optimizer (stored s o) = _optimizer s
  /\ time_tick (stored s o) = time_tick s
  /\ iteration (stored s o) = iteration s
  /\ training_start_from (stored s o) = training_start_from s
  /\ n_action (stored s o) = n_action s
  /\ eps_e_greedy (stored s o) = eps_e_greedy s
  /\ replay_buffer_size (stored s o) = replay_buffer_size s
  /\ stdout (stored s o) = stdout s.
Proof.
  unfold stored. destruct (_prev_action s), (_prev_observation s);
    repeat split.
Qed.

(** The four stages of a call of [step] that returns: the greedy action
    exists and the action returned is it or one of [range(n_action)]; the
    agent [s3] that reaches the comparison of the tick counter has either
    been trained or, at most, printed the buffer's progress; the result is
    [s3] after the synchronisation or the increment, with the observation
    and the action recorded. *)
Lemma step_cases (s s' : DQNAgent.t) (obs : Image * list Q) (done : bool)
    (a : Z) :
  outcome (step s obs done) (Ok (a, s')) ->
  exists greedy s3,
    topk1 (constant (A := list Q) (step_scores s obs)) = Ok greedy
    /\ (a = greedy \/ In a (range (n_action s)))
    /\ ((training_start_from s
         < ReplayBuffer.n_experience (replay_buffer (seen s obs))
         /\ outcome (train (seen s obs)) (Ok s3))
        \/ (ReplayBuffer.n_experience (replay_buffer (seen s obs))
            <= training_start_from s
            /\ ((ReplayBuffer.n_experience (replay_buffer (seen s obs))
                 mod 500 <> 0
                 /\ s3 = seen s obs)
                \/ (ReplayBuffer.n_experience (replay_buffer (seen s obs))
                    mod 500 = 0
                    /\ s3 = print (BufferProgress
                                     (ReplayBuffer.n_experience
                                        (replay_buffer (seen s obs)))
                                     (replay_buffer_size s)) (seen s obs)))))
    /\ ((time_tick s3 = iteration s3
         /\ exists h,
             QNet.load_state_dict (qnet_support s3)
               (QNet.state_dict (qnet s3) (memory s3)) (memory s3) = Ok h
             /\ s' = with_prev (Some (obs_now s obs)) (Some a)
                       (print QnetIterationDone
                          (with_memory h (with_time_tick 0 s3))))
        \/ (time_tick s3 <> iteration s3
            /\ s' = with_prev (Some (obs_now s obs)) (Some a)
                      (with_time_tick (time_tick s3 + 1) s3))).
Proof.
  intros Hout. unfold step in Hout.
  apply outcome_mbind_ok in Hout as [[im vec] [Hobs Hout]].
  apply outcome_lift in Hobs.
  destruct (obs_to_tensor_now s obs im vec Hobs) as [Hnow ->].
  assert (Him : im = image (obs_now s obs)) by now rewrite Hnow.
  cbv beta iota zeta in Hout. rewrite <- Hnow in Hout.
  rewrite Him in Hout. clear Hnow Him Hobs im.
  fold (stored s (obs_now s obs)) in Hout.
  destruct (stored_fields s (obs_now s obs))
    as (Hq & _ & Hm & _ & _ & _ & Hst & Hna & _ & Hsz & _).
  apply outcome_mbind_ok in Hout as [[[greedy q_vec] s2] [Hg Hout]].
  apply outcome_lift in Hg. unfold get_greedy_action, rbind in Hg.
  destruct (QNet.forward _ _ _ _ _) as [[q h]|] eqn:Ef; [|discriminate].
  apply forward_ok in Ef as (_ & -> & ->).
  destruct (topk1 _) as [index|] eqn:Etop; [|discriminate].
  injection Hg as -> _ <-.
  fold (seen s obs) in Hout.
  apply outcome_mbind_ok in Hout as [explore [_ Hout]].
  apply outcome_mbind_ok in Hout as [next_action [Hact Hout]].
  apply outcome_mbind_ok in Hout as [s3 [H3 Hout]].
  apply outcome_mbind_ok in Hout as [s4 [H4 Hout]].
  apply outcome_mret in Hout. injection Hout as -> ->.
  exists greedy, s3. split.
  { unfold QNet.forward_output, detach in Etop. rewrite Hq, Hm in Etop.
    exact Etop. }
  split.
  { destruct explore.
    - right. apply outcome_random_choice in Hact.
      change (n_action (seen s obs)) with (n_action (stored s (obs_now s obs)))
        in Hact.
      rewrite Hna in Hact.
      destruct Hact as [[_ E] | (x & Hx & E)]; [discriminate|].
      now injection E as ->.
    - left. apply outcome_mret in Hact. now injection Hact. }
  split.
  { change (training_start_from (seen s obs))
      with (training_start_from (stored s (obs_now s obs))) in H3.
    change (replay_buffer_size (seen s obs))
      with (replay_buffer_size (stored s (obs_now s obs))) in H3.
    rewrite Hst, Hsz in H3.
    destruct (Z.gtb_spec (ReplayBuffer.n_experience
                            (replay_buffer (seen s obs)))
                (training_start_from s)) as [Hgt | Hle].
    - left. split; [lia | exact H3].
    - right. split; [lia|].
      destruct (Z.eqb_spec (ReplayBuffer.n_experience
                              (replay_buffer (seen s obs)) mod 500) 0);
        apply outcome_mret in H3; injection H3 as ->;
        [now right | now left]. }
  destruct (Z.eqb_spec (time_tick s3) (iteration s3)) as [Eq | Hne].
  - left. split; [assumption|].
    cbn [qnet_support qnet memory with_time_tick] in H4.
    apply outcome_mbind_ok in H4 as [h [Hh H4]].
    apply outcome_lift in Hh. apply outcome_mret in H4. injection H4 as ->.
    exists h. split; [assumption | reflexivity].
  - right. split; [assumption|].
    apply outcome_mret in H4. now injection H4 as ->.
Qed.

End StepAnatomy.

(** ** What a step stores *)

Section StepStorage.
Context `{Torch}.

Import DQNAgent.

Lemma same_setup_refl (s : DQNAgent.t) : same_setup s s.
Proof. unfold same_setup. repeat split. Qed.

Lemma same_setup_trans (s1 s2 s3 : DQNAgent.t) :
  same_setup s1 s2 -> same_setup s2 s3 -> same_setup s1 s3.
Proof.
  intros (A1 & A2 & A3 & A4 & A5 & A6 & A7 & A8 & A9 & A10 & A11 & A12)
         (B1 & B2 & B3 & B4 & B5 & B6 & B7 & B8 & B9 & B10 & B11 & B12).
  unfold same_setup.
  rewrite B1, B2, B3, B4, B5, B6, B7, B8, B9, B10, B12.
  repeat (split; [assumption|]).
  split; [exact (same_shapes_trans _ _ _ A11 B11) | assumption].
Qed.

Lemma same_setup_memory (s : DQNAgent.t) (h : heap) :
  same_shapes (memory s) h -> same_setup s (with_memory h s).
Proof. intros Hs. unfold same_setup. repeat split; apply Hs. Qed.

(** The tensors built for an observation depend on the agent through
    [shape_obs_image] only. *)
Lemma obs_now_same_setup (s s' : DQNAgent.t) (obs : Image * list Q) :
  same_setup s s' -> obs_now s' obs = obs_now s obs.
Proof.
  intros Hs. unfold obs_now, obs_to_tensor.
  replace (shape_obs_image s') with (shape_obs_image s)
    by (symmetry; apply Hs).
  reflexivity.
Qed.

Lemma same_setup_stored (s : DQNAgent.t) (o : Observation) :
  same_setup s (stored s o).
Proof.
  unfold stored, same_setup.
  destruct (_prev_action s), (_prev_observation s); repeat split.
Qed.

Lemma same_setup_seen (s : DQNAgent.t) (obs : Image * list Q) :
  same_setup s (seen s obs).
Proof.
  eapply same_setup_trans; [apply same_setup_stored|].
  apply same_setup_memory, forward_heap_same_shapes.
Qed.

Lemma same_setup_train (s s' : DQNAgent.t) :
  outcome (train s) (Ok s') ->
  same_setup s s' /\ replay_buffer s' = replay_buffer s
  /\ time_tick s' = time_tick s /\ stdout s' = stdout s.
Proof.
  intros Hout. apply train_fields in Hout as (h & o & -> & Hs & Ho).
  unfold same_setup. repeat split; try assumption; apply Hs.
Qed.

(** What every call of [step] that returns leaves as it was, and what it
    has recorded. *)
Lemma step_fields (s s' : DQNAgent.t) (obs : Image * list Q) (done : bool)
    (a : Z) :
  outcome (step s obs done) (Ok (a, s')) ->
  same_setup s s'
  /\ replay_buffer s' = replay_buffer (stored s (obs_now s obs))
  /\ _prev_observation s' = Some (obs_now s obs)
  /\ _prev_action s' = Some a.
Proof.
  intros Hout.
  apply step_cases in Hout as (greedy & s3 & _ & _ & H3 & H4).
  assert (Hs3 : same_setup s s3
                /\ replay_buffer s3 = replay_buffer (stored s (obs_now s obs))).
  { destruct H3 as [[_ Ht] | [_ [[_ ->] | [_ ->]]]].
    - apply same_setup_train in Ht as (Hs & Hb & _). split.
      + eapply same_setup_trans; [apply same_setup_seen | exact Hs].
      + rewrite Hb. reflexivity.
    - split; [apply same_setup_seen | reflexivity].
    - split; [|reflexivity].
      eapply same_setup_trans; [apply same_setup_seen|].
      unfold same_setup. repeat split. }
  destruct Hs3 as [Hs3 Hb3].
  destruct H4 as [(_ & h & Hload & ->) | (_ & ->)].
  - split; [|repeat split; exact Hb3].
    eapply same_setup_trans; [exact Hs3|].
    apply load_state_dict_same_shapes in Hload.
    unfold same_setup. repeat split; apply Hload.
  - split; [|repeat split; exact Hb3].
    eapply same_setup_trans; [exact Hs3|].
    unfold same_setup. repeat split.
Qed.

(** X9. What [step] puts into the replay buffer. A call that returns has
    appended exactly one experience when a previous observation and a
    previous action are recorded, namely that pair with the observation
    just received, and nothing otherwise; it records the observation and
    the action it returns. Hence the step that follows stores the
    transition between the two observations under the action returned in
    between, whatever [done] is (the flag is never read), unless
    [reset_for_new_episode] is called first: then the step that follows
    stores nothing. *)
Theorem step_stores_previous_transition (s s' : DQNAgent.t)
    (obs : Image * list Q) (done : bool) (a : Z) :
  outcome (step s obs done) (Ok (a, s')) ->
  replay_buffer s'
  = match _prev_action s, _prev_observation s with
    | Some pa, Some po =>
        ReplayBuffer.append (replay_buffer s) po pa (obs_now s obs)
    | _, _ => replay_buffer s
    end
  /\ _prev_observation s' = Some (obs_now s obs)
  /\ _prev_action s' = Some a
  /\ (forall obs2 done2 a2 s2,
        outcome (step s' obs2 done2) (Ok (a2, s2)) ->
        replay_buffer s2
        = ReplayBuffer.append (replay_buffer s') (obs_now s obs) a
            (obs_now s' obs2))
  /\ (forall obs2 done2 a2 s2,
        outcome (step (reset_for_new_episode s') obs2 done2) (Ok (a2, s2)) ->
        replay_buffer s2 = replay_buffer s').
Proof.
  intros Hout. apply step_fields in Hout as (_ & Hb & Hpo & Hpa).
  split.
  { rewrite Hb. unfold stored.
    destruct (_prev_action s), (_prev_observation s); reflexivity. }
  split; [exact Hpo|]. split; [exact Hpa|]. split.
  - intros obs2 done2 a2 s2 H2.
    apply step_fields in H2 as (_ & Hb2 & _). rewrite Hb2.
    unfold stored. now rewrite Hpa, Hpo.
  - intros obs2 done2 a2 s2 H2.
    apply step_fields in H2 as (_ & Hb2 & _). rewrite Hb2. reflexivity.
Qed.

Lemma transitions_length (os : list Observation) (acts : list Z) :
  (length os <= S (length acts))%nat ->
  length (transitions os acts) = Nat.pred (length os).
Proof.
  revert acts. induction os as [|o os IH]; intros acts Hle; [reflexivity|].
  destruct os as [|o' os]; [reflexivity|].
  destruct acts as [|a acts]; [simpl in Hle; lia|].
  change (transitions (o :: o' :: os) (a :: acts))
    with (mkExperience o a o' :: transitions (o' :: os) acts).
  cbn [length] in *. rewrite IH by (cbn [length]; lia). reflexivity.
Qed.

Lemma last_cons_default {A} (l : list A) (x d : A) :
  List.last (x :: l) d = List.last l x.
Proof.
  revert x d. induction l as [|y l IH]; intros x d; [reflexivity|].
  change (List.last (x :: y :: l) d) with (List.last (y :: l) d).
  rewrite IH. symmetry. apply IH.
Qed.

(** Consecutive steps that continue an episode store the chain of
    transitions from the recorded observation on, each under the action
    the earlier step returned. *)
Lemma steps_trajectory_from (s s' : DQNAgent.t) (os : list (Image * list Q))
    (acts : list Z) (po : Observation) (pa : Z) :
  steps s os acts s' ->
  _prev_observation s = Some po -> _prev_action s = Some pa ->
  length acts = length os
  /\ replay_buffer s'
     = ReplayBuffer.append_all (replay_buffer s)
         (transitions (po :: List.map (obs_now s) os) (pa :: acts))
  /\ _prev_observation s' = Some (List.last (List.map (obs_now s) os) po)
  /\ _prev_action s' = Some (List.last acts pa).
Proof.
  intros Hsteps. revert po pa.
  induction Hsteps as [s | s s1 s' o done a os acts H1 Hsteps IH];
    intros po pa Hpo Hpa.
  - repeat split; assumption.
  - apply step_fields in H1 as (Hsame & Hb & Hpo1 & Hpa1).
    destruct (IH _ _ Hpo1 Hpa1) as (Hlen & Hb' & Hpo' & Hpa').
    assert (Hmap : List.map (obs_now s1) os = List.map (obs_now s) os).
    { apply List.map_ext. intros x. now apply obs_now_same_setup. }
    rewrite Hmap in Hb', Hpo'.
    split; [simpl; now rewrite Hlen|]. split; [|split].
    + rewrite Hb', Hb. unfold stored. rewrite Hpa, Hpo. reflexivity.
    + rewrite Hpo'. cbn [List.map]. now rewrite last_cons_default.
    + rewrite Hpa'. now rewrite last_cons_default.
Qed.

(** X10. A whole episode. Take an agent with nothing recorded (as
    constructed, or after [reset_for_new_episode]) and [k >= 1]
    consecutive calls of [step] that return, on the observations
    [o_1, ..., o_k] and returning the actions [a_1, ..., a_k]. They have
    appended to the replay buffer, in this order, the [k - 1] experiences
    [(o_i, a_i, o_(i+1))]: each transition under the action that the
    earlier of its two steps returned, and nothing for the first step.
    The buffer therefore counts [min(buffer_size, n + k - 1)]
    experiences, and the last observation and the last action stay
    recorded for the next step. *)
Theorem steps_store_trajectory (s s' : DQNAgent.t) (o : Image * list Q)
    (os : list (Image * list Q)) (acts : list Z) :
  _prev_action s = None \/ _prev_observation s = None ->
  ReplayBuffer.wf (replay_buffer s) ->
  steps s (o :: os) acts s' ->
  length acts = S (length os)
  /\ replay_buffer s'
     = ReplayBuffer.append_all (replay_buffer s)
         (transitions (List.map (obs_now s) (o :: os)) acts)
  /\ ReplayBuffer.n_experience (replay_buffer s')
     = Z.min (ReplayBuffer.buffer_size (replay_buffer s))
         (ReplayBuffer.n_experience (replay_buffer s)
          + Z.of_nat (length os))
  /\ _prev_observation s'
     = Some (List.last (List.map (obs_now s) os) (obs_now s o))
  /\ (forall a0, _prev_action s' = Some (List.last acts a0)).
Proof.
  intros Hnone Hwf Hsteps.
  inversion Hsteps as [|? s1 ? ? done a ? acts' H1 Hrest]; subst.
  apply step_fields in H1 as (Hsame & Hb & Hpo1 & Hpa1).
  assert (Hb1 : replay_buffer s1 = replay_buffer s).
  { rewrite Hb. unfold stored.
    destruct Hnone as [-> | E]; [reflexivity|].
    rewrite E. now destruct (_prev_action s). }
  destruct (steps_trajectory_from s1 s' os acts' _ _ Hrest Hpo1 Hpa1)
    as (Hlen & Hb' & Hpo' & Hpa').
  assert (Hmap : List.map (obs_now s1) os = List.map (obs_now s) os).
  { apply List.map_ext. intros x. now apply obs_now_same_setup. }
  rewrite Hmap in Hb', Hpo'.
  split; [simpl; now rewrite Hlen|].
  rewrite Hb1 in Hb'. split; [exact Hb'|].
  split; [|split; [exact Hpo'|]].
  - rewrite Hb'.
    rewrite (wf_size _ (append_all_wf _ _ Hwf)).
    rewrite (append_all_contents _ _ Hwf).
    rewrite length_drop, length_app, transitions_length
      by (simpl; rewrite length_map; lia).
    cbn [length Nat.pred]. rewrite length_map.
    rewrite (wf_size _ Hwf).
    destruct Hwf as (_ & _ & H0 & _). lia.
  - intros a0. rewrite Hpa'. now rewrite last_cons_default.
Qed.

End StepStorage.

(** ** The synchronisation cannot fail *)

Section AlignmentFacts.
Context `{Torch}.

Import DQNAgent.

Lemma signature_same_shapes (net : QNet.t) (h h' : heap) :
  same_shapes h h' -> signature net h' = signature net h.
Proof.
  intros [_ Hs]. unfold signature. apply map_ext. intros e. now rewrite Hs.
Qed.

Lemma aligned_same_setup (s s' : DQNAgent.t) :
  same_setup s s' -> aligned s -> aligned s'.
Proof.
  intros (Hq & Hqs & Hrest) Ha.
  assert (Hs : same_shapes (memory s) (memory s')) by apply Hrest.
  unfold aligned. rewrite Hq, Hqs, !(signature_same_shapes _ _ _ Hs).
  exact Ha.
Qed.

Lemma signature_state_dict (net : QNet.t) (h : heap) :
  Forall (fun l => (l < length h)%nat) (locs net) ->
  List.map (fun kv => (fst kv, Some (fst (snd kv)))) (QNet.state_dict net h)
  = signature net h.
Proof.
  unfold locs, QNet.state_dict, signature.
  induction (QNet.entries net) as [|[[name k] l] es IH]; intros Hlt;
    [reflexivity|].
  cbn [List.map snd] in Hlt. inversion Hlt as [|? ? Hl Hlt']; subst.
  destruct (lookup_lt_is_Some_2 h l Hl) as [st Es].
  cbn [omap list_omap List.map fst snd]. unfold QNet.read at 1.
  rewrite Es. cbn [List.map fst snd]. f_equal; [|now apply IH].
  unfold shape_at. now rewrite Es.
Qed.

(** After a copy that succeeded the two networks are aligned. *)
Lemma load_state_dict_aligns (src dst : QNet.t) (h h' : heap) :
  NoDup (locs src ++ locs dst) ->
  names dst = names src ->
  NoDup (names src) ->
  Forall (fun l => (l < length h)%nat) (locs src ++ locs dst) ->
  QNet.load_state_dict dst (QNet.state_dict src h) h = Ok h' ->
  signature dst h' = signature src h'.
Proof.
  intros Hnd Hnames Hnn Hlt Hload.
  destruct (load_state_dict_copies _ _ _ _ Hnd Hnames Hnn Hlt Hload)
    as (E1 & E2 & _).
  apply load_state_dict_length in Hload.
  apply Forall_app in Hlt as [Hlts Hltd]. rewrite <- Hload in Hlts, Hltd.
  rewrite <- (signature_state_dict _ _ Hltd), <- (signature_state_dict _ _ Hlts).
  now rewrite E1, E2.
Qed.

Lemma load_state_dict_aligned (s : DQNAgent.t) (h : heap) :
  inv s ->
  QNet.load_state_dict (qnet_support s) (QNet.state_dict (qnet s) (memory s))
    (memory s) = Ok h ->
  signature (qnet_support s) h = signature (qnet s) h.
Proof.
  intros (Hnd & Hnames & Hnn & Hlt & _) Hload.
  now apply (load_state_dict_aligns _ _ (memory s)).
Qed.

Lemma load_entries_ok (es : list (string * QNet.kind * nat))
    (sd : named_values Data) (h : heap) :
  Forall (fun e => exists shp d, QNet.assoc (fst (fst e)) sd = Some (shp, d)
                                 /\ shape_at h (snd e) = Some shp) es ->
  is_ok (QNet.load_entries es sd h) = true.
Proof.
  revert h. induction es as [|[[name k] l] es IH]; intros h Hall;
    [reflexivity|].
  inversion Hall as [|? ? (shp & d & Ha & Hs) Hall']; subst.
  cbn [fst snd] in Ha, Hs. cbn [QNet.load_entries]. rewrite Ha.
  unfold shape_at in Hs. destruct (h !! l) as [st|] eqn:Es; [|discriminate].
  injection Hs as Hs. rewrite bool_decide_eq_true_2 by exact Hs.
  apply IH. apply Forall_forall. intros e He.
  destruct (proj1 (Forall_forall _ _) Hall' e He) as (shp' & d' & Ha' & Hs').
  exists shp', d'. split; [exact Ha'|].
  destruct (insert_same_shapes (QNet.set_data d st) st l h Es eq_refl)
    as [_ Hsame].
  now rewrite Hsame.
Qed.

(** Between aligned networks the copy goes through. *)
Lemma load_state_dict_between (src dst : QNet.t) (h : heap) :
  names dst = names src -> NoDup (names src) ->
  Forall (fun l => (l < length h)%nat) (locs src) ->
  signature dst h = signature src h ->
  is_ok (QNet.load_state_dict dst (QNet.state_dict src h) h) = true.
Proof.
  intros Hnames Hnn Hlts Hal.
  unfold QNet.load_state_dict.
  assert (Hkeys : forallb
            (fun kv => existsb (fun e => String.eqb (fst kv) (fst (fst e)))
                         (QNet.entries dst))
            (QNet.state_dict src h) = true).
  { apply forallb_forall. intros [name v] Hin. apply existsb_exists.
    unfold QNet.state_dict in Hin.
    apply list_elem_of_In, list_elem_of_omap in Hin as (e & He & Hr).
    unfold QNet.read in Hr. destruct (h !! snd e); [|discriminate].
    injection Hr as <- _.
    assert (Hn : fst (fst e) ∈ names dst).
    { rewrite Hnames. apply list_elem_of_In, in_map_iff.
      exists e. split; [reflexivity | now apply list_elem_of_In]. }
    apply list_elem_of_In, in_map_iff in Hn as (e' & En & He').
    exists e'. split; [exact He'|]. cbn [fst]. rewrite En.
    apply String.eqb_refl. }
  rewrite Hkeys. apply load_entries_ok. apply Forall_forall. intros e He.
  assert (Hin : (fst (fst e), shape_at h (snd e)) ∈ signature src h).
  { rewrite <- Hal. apply list_elem_of_In, in_map_iff.
    exists e. split; [reflexivity | now apply list_elem_of_In]. }
  apply list_elem_of_In, in_map_iff in Hin as (e' & E & He').
  injection E as En Es.
  destruct (assoc_state_dict (QNet.entries src) h e' Hnn Hlts)
    as ([shp d] & Ha & Hv); [now apply list_elem_of_In|].
  exists shp, d. rewrite <- En. split; [exact Ha|].
  rewrite <- Es. unfold val in Hv. unfold shape_at.
  destruct (h !! snd e'); [|discriminate]. now injection Hv as -> _.
Qed.

Lemma load_state_dict_ok (s : DQNAgent.t) :
  inv s -> aligned s ->
  is_ok (QNet.load_state_dict (qnet_support s)
           (QNet.state_dict (qnet s) (memory s)) (memory s)) = true.
Proof.
  intros (Hnd & Hnames & Hnn & Hlt & _) Hal.
  apply Forall_app in Hlt as [Hlts Hltd].
  now apply load_state_dict_between.
Qed.

Lemma init_aligned (config : Config) (n_action action_size : Z)
    (shape_vector_obs : list Z) (shape_obs_image : Z * Z * Z) (eps_start : Q)
    (init_qnet init_support : string -> Data) (s : DQNAgent.t) :
  __init__ config n_action action_size shape_vector_obs shape_obs_image
    eps_start init_qnet init_support = Ok s ->
  aligned s.
Proof.
  intros Hinit. pose proof (init_inv _ _ _ _ _ _ _ _ _ Hinit) as Hinv.
  revert Hinit Hinv. unfold __init__, rbind.
  destruct (QNet.__init__ [] _ 2 n_action init_qnet) as [[q h1]|] eqn:E1;
    [|discriminate].
  destruct (QNet.__init__ h1 1 2 n_action init_support) as [[q' h2]|] eqn:E2;
    [|discriminate].
  destruct (QNet.load_state_dict q' _ h2) as [h3|] eqn:E3; [|discriminate].
  destruct (Adam.__init__ _ _ _ _) as [o|] eqn:E4; [|discriminate].
  destruct (ReplayBuffer.__init__ _) as [rb|] eqn:E5; [|discriminate].
  intros E. injection E as <-. intros Hinv.
  unfold aligned. cbn [qnet qnet_support memory].
  set (s3 := mk _ _ _ _ _ _ _ _ _ _ _ _ _ _ _ _ _ _ _ _ _ _) in Hinv.
  assert (Hinv2 : inv (with_memory h2 s3)).
  { apply (inv_update s3 _ Hinv); try reflexivity; try apply Hinv.
    cbn [memory with_memory]. unfold s3. cbn [memory].
    symmetry. eapply load_state_dict_length, E3. }
  apply (load_state_dict_aligned (with_memory h2 s3) h3 Hinv2).
  exact E3.
Qed.

(** Every state a run of steps reaches from the constructor keeps the
    invariant, with aligned networks. *)
Lemma run_aligned (s s' : DQNAgent.t) (os : list (Image * list Q)) :
  aligned s -> outcome (run s os) (Ok s') -> aligned s'.
Proof.
  revert s. induction os as [|o os IH]; intros s Hal Hout.
  - apply outcome_mret in Hout. now injection Hout as ->.
  - apply run_cons in Hout as (a & s1 & H1 & Hout).
    apply (IH s1); [|assumption].
    apply step_fields in H1 as (Hs & _).
    exact (aligned_same_setup _ _ Hs Hal).
Qed.

End AlignmentFacts.

(** ** Steps before and after training starts *)

Section StepTheorems.
Context `{Torch}.

Import DQNAgent.

Lemma seen_inv (s : DQNAgent.t) (obs : Image * list Q) :
  inv s -> inv (seen s obs).
Proof.
  intros Hinv.
  pose proof (store_inv s (obs_now s obs) Hinv (obs_now_plain s obs))
    as Hinv1.
  fold (stored s (obs_now s obs)) in Hinv1.
  apply (inv_update (stored s (obs_now s obs))); try reflexivity;
    try apply Hinv1.
  unfold seen. cbn [memory with_memory].
  apply forward_length.
Qed.

Lemma seen_memory (s : DQNAgent.t) (obs : Image * list Q) (l : nat) :
  l ∉ QNet.buffers (qnet s) -> memory (seen s obs) !! l = memory s !! l.
Proof.
  intros Hl. unfold seen. cbn [memory with_memory].
  destruct (stored_fields s (obs_now s obs)) as (-> & _ & -> & _).
  now apply forward_lookup.
Qed.

Lemma seen_fields (s : DQNAgent.t) (obs : Image * list Q) :
  _optimizer (seen s obs) = _optimizer s
  /\ time_tick (seen s obs) = time_tick s
  /\ stdout (seen s obs) = stdout s
  /\ replay_buffer (seen s obs) = replay_buffer (stored s (obs_now s obs)).
Proof.
  unfold seen. cbn.
  destruct (stored_fields s (obs_now s obs))
    as (_ & _ & _ & -> & -> & _ & _ & _ & _ & _ & ->).
  repeat split.
Qed.

(** X11. The warm-up gate. [step] compares the buffer's count, taken
    after this step's own append, with [training_start_from]. While the
    count is not above it, a step that returns has left the optimizer and
    every online parameter (value and gradient) as they were, even when
    it synchronised the target network; as soon as the count is above it,
    the step has run one training update, on the agent as it was after
    the forward pass. *)
Theorem step_trains_after_warm_up (s s' : DQNAgent.t) (obs : Image * list Q)
    (done : bool) (a : Z) :
  inv s -> outcome (step s obs done) (Ok (a, s')) ->
  (ReplayBuffer.n_experience (replay_buffer s') <= training_start_from s ->
   _optimizer s' = _optimizer s
   /\ forall l, l ∈ QNet.parameters (qnet s) -> memory s' !! l = memory s !! l)
  /\ (training_start_from s < ReplayBuffer.n_experience (replay_buffer s') ->
      exists s3, outcome (train (seen s obs)) (Ok s3)
                 /\ _optimizer s' = _optimizer s3).
Proof.
  intros Hinv Hout.
  pose proof (step_fields _ _ _ _ _ Hout) as (_ & Hb & _).
  apply step_cases in Hout as (greedy & s3 & _ & _ & H3 & H4).
  destruct (seen_fields s obs) as (Ho2 & _ & _ & Hb2).
  rewrite Hb2, <- Hb in H3.
  assert (Ho : _optimizer s' = _optimizer s3).
  { destruct H4 as [(_ & h & _ & ->) | (_ & ->)]; reflexivity. }
  split.
  - intros Hle. destruct H3 as [[Hlt _] | [_ H3]]; [lia|].
    assert (Hs3 : _optimizer s3 = _optimizer s
                  /\ qnet s3 = qnet s /\ qnet_support s3 = qnet_support s
                  /\ memory s3 = memory (seen s obs)).
    { destruct (same_setup_seen s obs) as (Hq & Hqs & _).
      destruct H3 as [[_ ->] | [_ ->]];
        cbn [print _optimizer qnet qnet_support memory];
        rewrite ?Ho2; repeat split; assumption. }
    destruct Hs3 as (Ho3 & Hq3 & Hqs3 & Hm3).
    split; [now rewrite Ho, Ho3|].
    intros l Hl.
    pose proof Hinv as (Hnd & Hnames & Hnn & Hlt & _).
    destruct (online_parameter_kept s Hnd l Hl) as [Hnb _].
    assert (Hnt : l ∉ locs (qnet_support s)).
    { apply NoDup_app in Hnd as (_ & Hdis & _). apply Hdis.
      now apply parameters_locs. }
    transitivity (memory s3 !! l); [|rewrite Hm3; now apply seen_memory].
    destruct H4 as [(_ & h & Hload & ->) | (_ & ->)]; [|reflexivity].
    cbn [memory with_prev print with_memory].
    rewrite Hq3, Hqs3 in Hload.
    assert (Hlen : length (memory s3) = length (memory s)).
    { rewrite Hm3. apply (same_setup_seen s obs). }
    rewrite <- Hlen in Hlt.
    destruct (load_state_dict_copies _ _ _ _ Hnd Hnames Hnn Hlt Hload)
      as (_ & _ & Hkeep).
    now apply Hkeep.
  - intros Hlt. destruct H3 as [[_ Ht] | [Hle _]]; [|lia].
    exists s3. split; assumption.
Qed.

Lemma run_same_setup (s s' : DQNAgent.t) (os : list (Image * list Q)) :
  outcome (run s os) (Ok s') -> same_setup s s'.
Proof.
  revert s. induction os as [|o os IH]; intros s Hout.
  - apply outcome_mret in Hout. injection Hout as ->. apply same_setup_refl.
  - apply run_cons in Hout as (a & s1 & H1 & Hout).
    apply step_fields in H1 as (Hs & _).
    exact (same_setup_trans _ _ _ Hs (IH _ Hout)).
Qed.

(** What the constructor returns, field by field. *)
Lemma init_fields (config : Config) (n_act action_size : Z)
    (shape_vector_obs : list Z) (shape_obs_image : Z * Z * Z) (eps_start : Q)
    (init_qnet init_support : string -> Data) (s : DQNAgent.t) :
  __init__ config n_act action_size shape_vector_obs shape_obs_image
    eps_start init_qnet init_support = Ok s ->
  n_action s = n_act
  /\ eps_e_greedy s = eps_start
  /\ training_start_from s = qn_training_start_from config
  /\ batch_size s = dnn_batch_size config
  /\ iteration s = qn_iteration config
  /\ replay_buffer_size s = qn_replay_buffer_size config
  /\ ReplayBuffer.buffer_size (replay_buffer s) = qn_replay_buffer_size config
  /\ ReplayBuffer.contents (replay_buffer s) = []
  /\ time_tick s = 0
  /\ _prev_observation s = None /\ _prev_action s = None
  /\ stdout s = []
  /\ length (memory s) = 40%nat
  /\ QNet.state_dict (qnet_support s) (memory s)
     = QNet.state_dict (qnet s) (memory s).
Proof.
  intros Hinit. pose proof (init_inv _ _ _ _ _ _ _ _ _ Hinit) as Hinv.
  revert Hinit Hinv. unfold __init__, rbind.
  destruct (QNet.__init__ [] _ 2 n_act init_qnet) as [[q h1]|] eqn:E1;
    [|discriminate].
  destruct (QNet.__init__ h1 1 2 n_act init_support) as [[q' h2]|] eqn:E2;
    [|discriminate].
  destruct (QNet.load_state_dict q' _ h2) as [h3|] eqn:E3; [|discriminate].
  destruct (Adam.__init__ _ _ _ _) as [o|] eqn:E4; [|discriminate].
  destruct (ReplayBuffer.__init__ _) as [rb|] eqn:E5; [|discriminate].
  intros E. injection E as <-. intros Hinv.
  cbn [n_action eps_e_greedy training_start_from batch_size iteration
       replay_buffer_size replay_buffer time_tick _prev_observation
       _prev_action stdout memory qnet qnet_support].
  apply init_wf in E5 as (_ & Hc & Hsz).
  apply qnet_init_spec in E1 as (_ & _ & Hlen1).
  apply qnet_init_spec in E2 as (_ & _ & Hlen2).
  rewrite Hlen1 in Hlen2. cbn [length Nat.add] in Hlen2.
  pose proof (load_state_dict_length _ _ _ _ E3) as Hlen3.
  repeat (split; [first [reflexivity | assumption | congruence]|]).
  set (s3 := mk _ _ _ _ _ _ _ _ _ _ _ _ _ _ _ _ _ _ _ _ _ _) in Hinv.
  pose proof Hinv as (Hnd & Hnames & Hnn & Hlt & _).
  cbn [qnet qnet_support memory s3] in Hnd, Hnames, Hnn, Hlt.
  rewrite Hlen3 in Hlt.
  destruct (load_state_dict_copies _ _ _ _ Hnd Hnames Hnn Hlt E3)
    as (Ed & Es & _).
  now rewrite Ed, Es.
Qed.

(** Reachable states: the constructor's result after any run of steps. *)
Lemma reachable_inv (config : Config) (n_act action_size : Z)
    (shape_vector_obs : list Z) (shape_obs_image : Z * Z * Z) (eps_start : Q)
    (init_qnet init_support : string -> Data) (s0 s : DQNAgent.t)
    (os : list (Image * list Q)) :
  __init__ config n_act action_size shape_vector_obs shape_obs_image
    eps_start init_qnet init_support = Ok s0 ->
  outcome (run s0 os) (Ok s) ->
  inv s /\ aligned s /\ same_setup s0 s.
Proof.
  intros Hinit Hrun. split; [|split].
  - eapply run_inv; [|exact Hrun]. eapply init_inv, Hinit.
  - eapply run_aligned; [|exact Hrun]. eapply init_aligned, Hinit.
  - now apply run_same_setup in Hrun.
Qed.

Lemma train_inv (s s' : DQNAgent.t) :
  inv s -> outcome (train s) (Ok s') -> inv s'.
Proof.
  intros Hinv Hout. pose proof Hinv as (Hsep & _).
  destruct (train_outcome s Hsep s' Hinv Hout)
    as (batch & loss & h2 & h3 & h4 & o & _ & _ & _ & _ & _ & -> & Hfr
        & Hlen & _ & Hpo).
  apply (inv_update s); try reflexivity; try apply Hinv.
  - cbn [memory with_memory]. destruct Hfr as [Hl3 _]. congruence.
  - exact Hpo.
Qed.

(** X12. The synchronisation cannot fail. In every state that a run of
    steps reaches from the constructor, the target network still
    registers the online network's names with the online network's
    shapes, so the strict [load_state_dict] of the online [state_dict]
    into the target goes through; and the same holds inside the next
    step, after its forward pass and after its training update, which is
    where [step] makes the copy: a step never raises at its "Copy Q net
    to the support network" block. *)
Theorem reachable_sync_succeeds (config : Config) (n_act action_size : Z)
    (shape_vector_obs : list Z) (shape_obs_image : Z * Z * Z) (eps_start : Q)
    (init_qnet init_support : string -> Data) (s0 s : DQNAgent.t)
    (os : list (Image * list Q)) :
  __init__ config n_act action_size shape_vector_obs shape_obs_image
    eps_start init_qnet init_support = Ok s0 ->
  outcome (run s0 os) (Ok s) ->
  signature (qnet_support s) (memory s) = signature (qnet s) (memory s)
  /\ is_ok (QNet.load_state_dict (qnet_support s)
              (QNet.state_dict (qnet s) (memory s)) (memory s)) = true
  /\ forall obs s3,
       s3 = seen s obs \/ outcome (train (seen s obs)) (Ok s3) ->
       is_ok (QNet.load_state_dict (qnet_support s3)
                (QNet.state_dict (qnet s3) (memory s3)) (memory s3)) = true.
Proof.
  intros Hinit Hrun.
  destruct (reachable_inv _ _ _ _ _ _ _ _ _ _ _ Hinit Hrun)
    as (Hinv & Hal & _).
  split; [exact Hal|]. split; [now apply load_state_dict_ok|].
  intros obs s3 Hs3.
  pose proof (seen_inv s obs Hinv) as Hinv2.
  pose proof (aligned_same_setup _ _ (same_setup_seen s obs) Hal) as Hal2.
  destruct Hs3 as [-> | Ht]; [now apply load_state_dict_ok|].
  apply load_state_dict_ok.
  - exact (train_inv _ _ Hinv2 Ht).
  - apply same_setup_train in Ht as (Hs & _).
    exact (aligned_same_setup _ _ Hs Hal2).
Qed.

(** X13. What holds in every state that a run of steps reaches from the
    constructor. The heap holds exactly the 40 storages allocated at
    construction, 20 per network and no two shared; the optimizer updates
    exactly the online network's parameters; the settings are the
    configured ones, and the exploration rate is still [eps_start]: no
    call of [step] or [train] decays it; the replay buffer counts its
    contents, within the configured size, and what it stores carries no
    autograd history. *)
Theorem reachable_states (config : Config) (n_act action_size : Z)
    (shape_vector_obs : list Z) (shape_obs_image : Z * Z * Z) (eps_start : Q)
    (init_qnet init_support : string -> Data) (s0 s : DQNAgent.t)
    (os : list (Image * list Q)) :
  __init__ config n_act action_size shape_vector_obs shape_obs_image
    eps_start init_qnet init_support = Ok s0 ->
  outcome (run s0 os) (Ok s) ->
  length (memory s) = 40%nat
  /\ length (locs (qnet s)) = 20%nat
  /\ length (locs (qnet_support s)) = 20%nat
  /\ NoDup (locs (qnet s) ++ locs (qnet_support s))
  /\ Adam.params (_optimizer s) = QNet.parameters (qnet s)
  /\ eps_e_greedy s = eps_start
  /\ n_action s = n_act
  /\ batch_size s = dnn_batch_size config
  /\ iteration s = qn_iteration config
  /\ training_start_from s = qn_training_start_from config
  /\ ReplayBuffer.n_experience (replay_buffer s)
     = Z.of_nat (length (ReplayBuffer.contents (replay_buffer s)))
  /\ ReplayBuffer.n_experience (replay_buffer s)
     <= qn_replay_buffer_size config
  /\ Forall plain_exp (ReplayBuffer.contents (replay_buffer s)).
Proof.
  intros Hinit Hrun.
  destruct (reachable_inv _ _ _ _ _ _ _ _ _ _ _ Hinit Hrun)
    as (Hinv & _ & Hs).
  destruct Hs
    as (Hq & Hqs & Hna & Hst & Hbs & Hit & Hsz & Heps & _ & _ & Hsh & _).
  destruct (init_fields _ _ _ _ _ _ _ _ _ Hinit)
    as (Ina & Ieps & Ist & Ibs & Iit & Isz & Ibsz & _ & _ & _ & _ & _ & Ilen & _).
  pose proof Hinv as (Hnd & Hnames & _ & _ & Hopt & Hwf & Hpl & _).
  assert (Hl0 : length (locs (qnet s0)) = 20%nat
                /\ length (locs (qnet_support s0)) = 20%nat).
  { revert Hinit. unfold __init__, rbind.
    destruct (QNet.__init__ [] _ 2 n_act init_qnet) as [[q h1]|] eqn:E1;
      [|discriminate].
    destruct (QNet.__init__ h1 1 2 n_act init_support) as [[q' h2]|] eqn:E2;
      [|discriminate].
    destruct (QNet.load_state_dict q' _ h2) as [h3|]; [|discriminate].
    destruct (Adam.__init__ _ _ _ _) as [o|]; [|discriminate].
    destruct (ReplayBuffer.__init__ _) as [rb|]; [|discriminate].
    intros E. injection E as <-. cbn [qnet qnet_support].
    apply qnet_init_spec in E1 as (-> & _). apply qnet_init_spec in E2 as (-> & _).
    now rewrite !length_seq. }
  rewrite Hq, Hqs, Hna, Hst, Hbs, Hit, Heps.
  split; [destruct Hsh as [-> _]; exact Ilen|].
  split; [apply Hl0|]. split; [apply Hl0|].
  rewrite Hq, Hqs in Hnd. rewrite Hq in Hopt.
  repeat (split; [assumption|]).
  split; [now apply wf_size|]. split; [|assumption].
  (* the bound *)
  assert (Hcap : ReplayBuffer.buffer_size (replay_buffer s)
                 = qn_replay_buffer_size config).
  { clear - Hrun Ibsz. revert s0 Hrun Ibsz.
    induction os as [|o os IH]; intros s0 Hrun Ibsz.
    - apply outcome_mret in Hrun. now injection Hrun as <-.
    - apply run_cons in Hrun as (a & s1 & H1 & Hrun).
      apply (IH s1 Hrun).
      apply step_fields in H1 as (_ & -> & _). unfold stored.
      destruct (_prev_action s0), (_prev_observation s0); exact Ibsz. }
  destruct Hwf as (Hn & _ & _ & Hle). rewrite Hn, <- Hcap. exact Hle.
Qed.

End StepTheorems.

(** ** The period and the direction of the synchronisation *)

Section SyncTheorem.
Context `{Torch}.

Import DQNAgent.

(** C3, as the code has it. [step] compares the counter with [iteration]
    before touching it: when they are equal it copies the online network
    into the target and resets the counter to 0, and only otherwise does
    it increment the counter. So with [iteration >= 0] and a counter
    between 0 and [iteration], a synchronisation takes place once every
    [iteration + 1] steps, not every [iteration] steps: after [n] steps
    that returned, the counter is [(tick + n) mod (iteration + 1)], the
    number of synchronisations has grown by
    [(tick + n) / (iteration + 1)], and whenever a step leaves the counter
    at 0 the target network's [state_dict] equals the online one's.

    The copy goes from the online network to the target. Let [s3] be the
    agent when a step reaches the comparison: trained, when the buffer's
    count is above [training_start_from], and otherwise with the heap the
    forward pass left. A step that finds the counter equal to [iteration]
    leaves the target network with the [state_dict] the online network
    had at [s3], the online network's [state_dict] as it was at [s3] and
    every storage outside the target network untouched; a step that finds
    them different leaves the whole heap as it was at [s3]. *)
Theorem target_sync_period (s s' : DQNAgent.t)
    (observations : list (Image * list Q)) :
  inv s -> 0 <= time_tick s <= iteration s ->
  outcome (run s observations) (Ok s') ->
  time_tick s'
  = (time_tick s + Z.of_nat (length observations)) mod (iteration s + 1)
  /\ syncs s'
     = syncs s
       + (time_tick s + Z.of_nat (length observations)) / (iteration s + 1)
  /\ (observations <> [] -> time_tick s' = 0 ->
      QNet.state_dict (qnet_support s') (memory s')
      = QNet.state_dict (qnet s') (memory s'))
  /\ forall obs done a s1,
       outcome (step s' obs done) (Ok (a, s1)) ->
       exists s3,
         ((training_start_from s'
           < ReplayBuffer.n_experience (replay_buffer s1)
           /\ outcome (train (seen s' obs)) (Ok s3))
          \/ (ReplayBuffer.n_experience (replay_buffer s1)
              <= training_start_from s'
              /\ memory s3 = memory (seen s' obs)))
         /\ qnet s1 = qnet s' /\ qnet_support s1 = qnet_support s'
         /\ (time_tick s' = iteration s' ->
             time_tick s1 = 0 /\ syncs s1 = syncs s' + 1
             /\ QNet.state_dict (qnet_support s') (memory s1)
                = QNet.state_dict (qnet s') (memory s3)
             /\ QNet.state_dict (qnet s') (memory s1)
                = QNet.state_dict (qnet s') (memory s3)
             /\ forall l, l ∉ locs (qnet_support s') ->
                          memory s1 !! l = memory s3 !! l)
         /\ (time_tick s' <> iteration s' ->
             time_tick s1 = time_tick s' + 1 /\ syncs s1 = syncs s'
             /\ memory s1 = memory s3).
Proof.
  intros Hinv Htick Hrun.
  destruct (run_ticks s s' observations Hinv Htick Hrun) as (Ht & Hy & Hc).
  split; [exact Ht|]. split; [exact Hy|]. split; [exact Hc|].
  clear Ht Hy Hc Htick.
  pose proof (run_inv _ _ _ Hinv Hrun) as Hinv'. clear Hinv Hrun s.
  intros obs done a s1 Hstep.
  pose proof (step_fields _ _ _ _ _ Hstep) as (Hset & Hb & _).
  apply step_cases in Hstep as (greedy & s3 & _ & _ & H3 & H4).
  destruct (seen_fields s' obs) as (_ & Ht2 & Hso2 & Hb2).
  destruct (same_setup_seen s' obs) as (Hq2 & Hqs2 & _ & _ & _ & Hi2 & _).
  pose proof (seen_inv s' obs Hinv') as Hinv2.
  rewrite Hb2, <- Hb in H3.
  assert (Hs3 : inv s3 /\ qnet s3 = qnet s'
                /\ qnet_support s3 = qnet_support s'
                /\ time_tick s3 = time_tick s'
                /\ iteration s3 = iteration s'
                /\ syncs s3 = syncs s'
                /\ ((training_start_from s'
                     < ReplayBuffer.n_experience (replay_buffer s1)
                     /\ outcome (train (seen s' obs)) (Ok s3))
                    \/ (ReplayBuffer.n_experience (replay_buffer s1)
                        <= training_start_from s'
                        /\ memory s3 = memory (seen s' obs)))).
  { destruct H3 as [[Hgt Htr] | [Hle [[_ ->] | [_ ->]]]].
    - pose proof (train_inv _ _ Hinv2 Htr) as Hinv3.
      pose proof (same_setup_train _ _ Htr) as (Hs & _ & Htt & Hso).
      destruct Hs as (Hq & Hqs & _ & _ & _ & Hi & _).
      split; [exact Hinv3|].
      split; [now rewrite Hq|]. split; [now rewrite Hqs|].
      split; [now rewrite Htt|]. split; [now rewrite Hi|].
      split; [unfold syncs; now rewrite Hso, Hso2|].
      left. split; assumption.
    - split; [exact Hinv2|]. repeat (split; [assumption|]).
      split; [unfold syncs; now rewrite Hso2|]. right. now split.
    - split; [apply (inv_update (seen s' obs)); try reflexivity;
              apply Hinv2|].
      cbn [qnet qnet_support time_tick iteration memory print].
      repeat (split; [assumption|]).
      split; [rewrite syncs_print_progress; unfold syncs; now rewrite Hso2|].
      right. now split. }
  destruct Hs3 as (Hinv3 & Hq3 & Hqs3 & Ht3 & Hi3 & Hy3 & Hcase).
  exists s3. split; [exact Hcase|].
  destruct Hset as (Hq1 & Hqs1 & _).
  split; [exact Hq1|]. split; [exact Hqs1|].
  pose proof Hinv3 as (Hnd & Hnames & Hnn & Hlt & _).
  rewrite Hq3 in Hnd, Hnames, Hnn, Hlt. rewrite Hqs3 in Hnd, Hnames, Hlt.
  destruct H4 as [(Eq & h & Hload & ->) | (Hne & ->)].
  - rewrite Hq3, Hqs3 in Hload.
    destruct (load_state_dict_copies _ _ _ _ Hnd Hnames Hnn Hlt Hload)
      as (E1 & E2 & Hkeep).
    split.
    + intros _. cbn [time_tick memory with_prev print with_memory
                     with_time_tick].
      split; [reflexivity|]. split; [|split; [exact E1|split; [exact E2|]]].
      * rewrite <- Hy3.
        apply (syncs_print_done (with_memory h (with_time_tick 0 s3))).
      * exact Hkeep.
    + intros Hne. exfalso. apply Hne. rewrite <- Ht3, <- Hi3. exact Eq.
  - split.
    + intros Eq. exfalso. apply Hne. rewrite Ht3, Hi3. exact Eq.
    + intros _. cbn [time_tick memory with_prev with_time_tick].
      split; [now rewrite Ht3|]. split; [exact Hy3 | reflexivity].
Qed.

End SyncTheorem.

Lemma target_sync_period_witness :
  DQNAgent.time_tick Demo.synced = 0 /\ DQNAgent.syncs Demo.synced = 1.
Proof.
  destruct (target_sync_period Demo.fresh Demo.synced Demo.observations)
    as (Ht & Hy & _).
  - exact demo_fresh_inv.
  - vm_compute. split; discriminate.
  - apply first_ok_outcome. vm_compute. reflexivity.
  - split; [rewrite Ht | rewrite Hy]; reflexivity.
Defined.

(** C3 as stated fails: with [iteration = 1] the first step leaves the
    counter at 1, which is the configured interval, without copying the
    network or resetting the counter; the copy comes with the second step,
    so the target is synchronised every two steps and not every step. *)
Lemma sync_comes_one_step_later :
  Demo.ticks (Demo.agent 1 5 1 10 2) [Demo.obs 1 2]
  = [Some (1, 0); Some (1, 0); Some (1, 0)]
  /\ Forall (fun r => r = Some (0, 1))
        (Demo.ticks (Demo.agent 1 5 1 10 2) [Demo.obs 1 2; Demo.obs 3 4]).
Proof.
  split; [vm_compute; reflexivity|].
  vm_compute. repeat constructor.
Qed.

Lemma demo_fresh_init :
  Demo.agent 1 5 2 10 2 = Ok Demo.fresh.
Proof. vm_compute. reflexivity. Qed.

Lemma demo_fresh_step :
  outcome (DQNAgent.step Demo.fresh (Demo.obs 1 2) false)
    (Ok (fst Demo.stepped, snd Demo.stepped)).
Proof. apply first_ok_outcome. vm_compute. reflexivity. Qed.

Lemma demo_fresh_run :
  outcome (DQNAgent.run Demo.fresh Demo.observations) (Ok Demo.synced).
Proof. apply first_ok_outcome. vm_compute. reflexivity. Qed.

Lemma step_stores_previous_transition_witness :
  DQNAgent.replay_buffer (snd Demo.stepped) = DQNAgent.replay_buffer Demo.fresh
  /\ DQNAgent._prev_action (snd Demo.stepped) = Some (fst Demo.stepped)
  /\ ReplayBuffer.n_experience (DQNAgent.replay_buffer (snd Demo.stepped_twice))
     = 1.
Proof.
  destruct (step_stores_previous_transition Demo.fresh (snd Demo.stepped)
              (Demo.obs 1 2) false (fst Demo.stepped) demo_fresh_step)
    as (Hb & _ & Ha & Hnext & _).
  split; [rewrite Hb; reflexivity|]. split; [exact Ha|].
  rewrite (Hnext (Demo.obs 3 4) false (fst Demo.stepped_twice)
             (snd Demo.stepped_twice)).
  - reflexivity.
  - apply first_ok_outcome. vm_compute. reflexivity.
Defined.

Lemma steps_store_trajectory_witness :
  DQNAgent.replay_buffer (snd Demo.stepped_twice)
  = ReplayBuffer.append_all (DQNAgent.replay_buffer Demo.fresh)
      [mkExperience (obs_now Demo.fresh (Demo.obs 1 2)) (fst Demo.stepped)
         (obs_now Demo.fresh (Demo.obs 3 4))]
  /\ ReplayBuffer.n_experience (DQNAgent.replay_buffer (snd Demo.stepped_twice))
     = 1.
Proof.
  destruct (steps_store_trajectory Demo.fresh (snd Demo.stepped_twice)
              (Demo.obs 1 2) [Demo.obs 3 4]
              [fst Demo.stepped; fst Demo.stepped_twice])
    as (_ & Hb & Hn & _).
  - left. reflexivity.
  - apply demo_fresh_inv.
  - apply (steps_cons _ (snd Demo.stepped) _ _ false); [exact demo_fresh_step|].
    apply (steps_cons _ (snd Demo.stepped_twice) _ _ false);
      [|exact (@steps_nil Demo.demo_torch (snd Demo.stepped_twice))].
    apply first_ok_outcome. vm_compute. reflexivity.
  - split; [exact Hb|]. rewrite Hn. reflexivity.
Defined.

Lemma step_trains_after_warm_up_witness :
  DQNAgent._optimizer (snd Demo.stepped) = DQNAgent._optimizer Demo.fresh.
Proof.
  destruct (step_trains_after_warm_up Demo.fresh (snd Demo.stepped)
              (Demo.obs 1 2) false (fst Demo.stepped) demo_fresh_inv
              demo_fresh_step) as [Hcold _].
  apply Hcold. vm_compute. discriminate.
Defined.

Lemma reachable_sync_succeeds_witness :
  is_ok (QNet.load_state_dict (DQNAgent.qnet_support Demo.synced)
           (QNet.state_dict (DQNAgent.qnet Demo.synced)
              (DQNAgent.memory Demo.synced))
           (DQNAgent.memory Demo.synced)) = true.
Proof.
  exact (proj1 (proj2 (reachable_sync_succeeds (H := Demo.demo_torch)
                         (Demo.config 1 5 2 10 2) 2 2 [2] (32, 32, 3) (1 # 2)
                         Demo.init_a Demo.init_b Demo.fresh Demo.synced
                         Demo.observations demo_fresh_init demo_fresh_run))).
Defined.

Lemma reachable_states_witness :
  length (DQNAgent.memory Demo.synced) = 40%nat
  /\ DQNAgent.eps_e_greedy Demo.synced = (1 # 2)%Q.
Proof.
  destruct (reachable_states (H := Demo.demo_torch)
              (Demo.config 1 5 2 10 2) 2 2 [2] (32, 32, 3) (1 # 2)
              Demo.init_a Demo.init_b Demo.fresh Demo.synced
              Demo.observations demo_fresh_init demo_fresh_run)
    as (Hlen & _ & _ & _ & _ & Heps & _).
  split; assumption.
Defined.

(** ** Training that starts too early *)

Section EarlyTraining.
Context `{Torch}.

Import DQNAgent.

Lemma stored_wf (s : DQNAgent.t) (o : Observation) :
  ReplayBuffer.wf (replay_buffer s) ->
  ReplayBuffer.wf (replay_buffer (stored s o)).
Proof.
  intros Hwf. unfold stored.
  destruct (_prev_action s), (_prev_observation s); try assumption.
  now apply append_wf.
Qed.

(** X14. Training needs two stored experiences and a positive batch
    size, and [step] does not check either. When the buffer's count after
    this step's append is above [training_start_from], the step calls
    [train]; if that count is below 2 (with [batch_size >= 1]) or
    [batch_size <= 0], no call of [step] returns: every outcome is an
    exception. In particular, with [training_start_from <= 0] the second
    step of the first episode, which stores the first experience, always
    raises. *)
Theorem step_raises_when_training_cannot_run (s : DQNAgent.t)
    (obs : Image * list Q) (done : bool) (r : result (Z * DQNAgent.t)) :
  ReplayBuffer.wf (replay_buffer s) ->
  training_start_from s
  < ReplayBuffer.n_experience (replay_buffer (stored s (obs_now s obs))) ->
  (ReplayBuffer.n_experience (replay_buffer (stored s (obs_now s obs))) < 2
   /\ 1 <= batch_size s)
  \/ batch_size s <= 0 ->
  outcome (step s obs done) r -> is_ok r = false.
Proof.
  intros Hwf Hgt Hbad Hout. destruct r as [[a s']|e]; [|reflexivity].
  exfalso.
  apply step_cases in Hout as (greedy & s3 & _ & _ & H3 & _).
  destruct (seen_fields s obs) as (_ & _ & _ & Hb).
  rewrite Hb in H3. destruct H3 as [[_ Ht] | [Hle _]]; [|lia].
  assert (Hwf2 : ReplayBuffer.wf (replay_buffer (seen s obs))).
  { rewrite Hb. now apply stored_wf. }
  assert (Hbs : batch_size (seen s obs) = batch_size s)
    by apply (same_setup_seen s obs).
  destruct (train_edges (seen s obs) (Ok s3) Hwf2) as [Hfew Hzero].
  rewrite Hb, Hbs in Hfew. rewrite Hbs in Hzero.
  destruct Hbad as [[Hn Hbatch] | Hbatch].
  - apply (Hfew Hn Hbatch) in Ht. discriminate.
  - apply (Hzero Hbatch) in Ht. discriminate.
Qed.

End EarlyTraining.

Lemma step_raises_when_training_cannot_run_witness :
  Forall (fun wr => is_ok (snd wr) = false)
    (DQNAgent.step Demo.eager (Demo.obs 3 4) false).
Proof.
  apply List.Forall_forall. intros [w r] Hin.
  apply (step_raises_when_training_cannot_run Demo.eager (Demo.obs 3 4) false r).
  - unfold ReplayBuffer.wf. vm_compute. repeat split; congruence.
  - vm_compute. reflexivity.
  - left. split; vm_compute; [reflexivity | congruence].
  - exists w. exact Hin.
Defined.

(** ** The probability of an action *)

Local Open Scope Q_scope.

Lemma expect_app {A} (m1 m2 : dist A) (g : A -> Q) :
  expect (m1 ++ m2) g == expect m1 g + expect m2 g.
Proof.
  induction m1 as [|[w a] m1 IH]; simpl; [ring|]. rewrite IH. ring.
Qed.

Lemma expect_dscale {A} (w : Q) (m : dist A) (g : A -> Q) :
  expect (dscale w m) g == w * expect m g.
Proof.
  induction m as [|[v a] m IH]; simpl; [ring|]. rewrite IH. ring.
Qed.

Lemma expect_ext {A} (m : dist A) (g g' : A -> Q) :
  (forall a, g a == g' a) -> expect m g == expect m g'.
Proof.
  intros Hg. induction m as [|[w a] m IH]; simpl; [reflexivity|].
  rewrite IH, (Hg a). reflexivity.
Qed.

Lemma expect_dbind {A B} (m : dist A) (f : A -> dist B) (g : B -> Q) :
  expect (dbind m f) g == expect m (fun a => expect (f a) g).
Proof.
  induction m as [|[w a] m IH]; [reflexivity|].
  change (dbind ((w, a) :: m) f) with (dscale w (f a) ++ dbind m f).
  rewrite expect_app, expect_dscale, IH. reflexivity.
Qed.

Lemma prob_mbind {A B} (m : M A) (f : A -> M B) (P : B -> bool) :
  prob (mbind m f) P
  == expect m (fun r => match r with
                        | Ok a => prob (f a) P
                        | Raise _ => 0
                        end).
Proof.
  unfold prob, mbind. rewrite expect_dbind. apply expect_ext.
  intros [a|e]; [reflexivity|]. simpl. ring.
Qed.

Lemma prob_mbind_mret {A B} (a : A) (f : A -> M B) (P : B -> bool) :
  prob (mbind (mret a) f) P == prob (f a) P.
Proof. rewrite prob_mbind. simpl. ring. Qed.

Lemma prob_mbind_random_lt {B} (eps : Q) (f : bool -> M B) (P : B -> bool) :
  prob (mbind (random_lt eps) f) P
  == Qmax 0 (Qmin 1 eps) * prob (f true) P
     + (1 - Qmax 0 (Qmin 1 eps)) * prob (f false) P.
Proof. rewrite prob_mbind. simpl. ring. Qed.

Lemma prob_mbind_random_choice {A B} (l : list A) (f : A -> M B)
    (P : B -> bool) :
  l <> [] ->
  prob (mbind (random_choice l) f) P
  == (1 / inject_Z (Z.of_nat (length l)))
     * fold_right (fun x acc => prob (f x) P + acc) 0 l.
Proof.
  intros Hl. rewrite prob_mbind. unfold random_choice.
  destruct l as [|a0 l0]; [congruence|].
  generalize (1 / inject_Z (Z.of_nat (length (a0 :: l0)))). intros c.
  generalize (a0 :: l0). clear. intros l.
  induction l as [|a l IH]; simpl; [ring|]. rewrite IH. ring.
Qed.

Lemma sum_ext {A} (l : list A) (g g' : A -> Q) :
  (forall a, g a == g' a) ->
  fold_right (fun x acc => g x + acc) 0 l
  == fold_right (fun x acc => g' x + acc) 0 l.
Proof.
  intros Hg. induction l as [|a l IH]; simpl; [reflexivity|].
  rewrite IH, (Hg a). reflexivity.
Qed.

Lemma prob_mbind_mbind_mret {A B C} (a : A) (f : A -> M B) (g : B -> M C)
    (P : C -> bool) :
  prob (mbind (mbind (mret a) f) g) P == prob (mbind (f a) g) P.
Proof.
  rewrite !prob_mbind. unfold mbind at 1. rewrite expect_dbind.
  simpl. ring.
Qed.

Lemma prob_mret {A} (a : A) (P : A -> bool) :
  prob (mret a) P == if P a then 1 else 0.
Proof. unfold prob. simpl. ring. Qed.

(** Each number occurs once in [range n]. *)
Lemma count_range (n a0 : Z) :
  count_Q (fun a => (a =? a0)%Z) (range n)
  == if ((0 <=? a0) && (a0 <? n))%Z then 1 else 0.
Proof.
  unfold range.
  assert (Hgen : forall k s,
            count_Q (fun a => (a =? a0)%Z) (List.map Z.of_nat (seq s k))
            == if ((Z.of_nat s <=? a0) && (a0 <? Z.of_nat s + Z.of_nat k))%Z
               then 1 else 0).
  { induction k as [|k IH]; intros s.
    - cbn [seq List.map count_Q fold_right].
      destruct (_ && _)%bool eqn:E; [|reflexivity].
      apply andb_true_iff in E as [E1 E2].
      apply Z.leb_le in E1. apply Z.ltb_lt in E2. lia.
    - cbn [seq List.map].
      change (count_Q (fun a => (a =? a0)%Z)
                (Z.of_nat s :: List.map Z.of_nat (seq (S s) k)))
        with ((if (Z.of_nat s =? a0)%Z then 1 else 0)
              + count_Q (fun a => (a =? a0)%Z)
                  (List.map Z.of_nat (seq (S s) k))).
      rewrite IH.
      destruct (Z.eqb_spec (Z.of_nat s) a0);
        destruct ((Z.of_nat (S s) <=? a0) && _)%bool eqn:E1;
        destruct ((Z.of_nat s <=? a0) && _)%bool eqn:E2;
        try reflexivity; exfalso;
        rewrite ?andb_true_iff, ?andb_false_iff, ?Z.leb_le, ?Z.ltb_lt,
          ?Z.leb_gt, ?Z.ltb_ge in *; lia. }
  rewrite (Hgen (Z.to_nat n) 0%nat).
  destruct ((0 <=? a0) && _)%bool eqn:E1;
    destruct ((Z.of_nat 0 <=? a0) && _)%bool eqn:E2;
    try reflexivity; exfalso;
    rewrite ?andb_true_iff, ?andb_false_iff, ?Z.leb_le, ?Z.ltb_lt,
      ?Z.leb_gt, ?Z.ltb_ge in *; lia.
Qed.

Local Close Scope Q_scope.

Section ActionLaw.
Context `{Torch}.

Import DQNAgent.

Local Open Scope Q_scope.

Lemma count_true {A} (l : list A) :
  count_Q (fun _ => true) l == inject_Z (Z.of_nat (length l)).
Proof.
  induction l as [|a l IH]; [reflexivity|].
  change (count_Q (fun _ => true) (a :: l))
    with (1 + count_Q (fun _ : A => true) l).
  rewrite IH. cbn [length]. rewrite Nat2Z.inj_succ. unfold Z.succ.
  rewrite inject_Z_plus. change (inject_Z 1) with 1. ring.
Qed.

(** While the agent only collects experience and its networks are
    aligned, a step on an observation that [obs_to_tensor] and the
    online network accept returns the greedy action with probability
    [1 - p] and otherwise an element of [range(n_action)] drawn
    uniformly. *)
Lemma step_action_law (s s2 : DQNAgent.t) (obs : Image * list Q)
    (done : bool) (greedy : Z) (q_vec : Vector) (P : Z -> bool) :
  inv s -> aligned s ->
  is_ok (obs_to_tensor s obs) = true ->
  get_greedy_action (stored s (obs_now s obs)) false
    (image (obs_now s obs)) (vector (obs_now s obs))
  = Ok (greedy, q_vec, s2) ->
  (1 <= n_action s)%Z ->
  (ReplayBuffer.n_experience (replay_buffer (stored s (obs_now s obs)))
   <= training_start_from s)%Z ->
  prob (step s obs done) (fun r => P (fst r))
  == (1 - Qmax 0 (Qmin 1 (eps_e_greedy s))) * (if P greedy then 1 else 0)
     + Qmax 0 (Qmin 1 (eps_e_greedy s))
       * (count_Q P (range (n_action s)) / inject_Z (n_action s)).
Proof.
  intros Hinv Hal Hview Hg Hn Hcold.
  assert (Hs2 : s2 = seen s obs).
  { revert Hg. unfold get_greedy_action, rbind.
    destruct (QNet.forward _ _ _ _ _) as [[q h]|] eqn:Ef; [|discriminate].
    apply forward_ok in Ef as (_ & -> & ->).
    destruct (topk1 _); [|discriminate]. intros E. now injection E as _ _ <-. }
  subst s2.
  pose proof (seen_inv s obs Hinv) as Hinv2.
  pose proof (aligned_same_setup _ _ (same_setup_seen s obs) Hal) as Hal2.
  pose proof (load_state_dict_ok (seen s obs) Hinv2 Hal2) as Hload.
  destruct (same_setup_seen s obs)
    as (_ & _ & Hna & Hst & _ & _ & _ & Heps & _).
  destruct (seen_fields s obs) as (_ & _ & _ & Hb).
  unfold step.
  destruct (obs_to_tensor s obs) as [[im vec]|] eqn:Eobs; [|discriminate].
  destruct (obs_to_tensor_now s obs im vec Eobs) as [Hnow ->].
  assert (Him : image (obs_now s obs) = im) by now rewrite Hnow.
  rewrite obs_now_vector, Him in Hg.
  change (lift (Ok (im, constant (snd obs))))
    with (mret (im, constant (A := list Q) (snd obs))).
  rewrite prob_mbind_mret. cbv beta iota zeta.
  rewrite <- Hnow. fold (stored s (obs_now s obs)).
  rewrite Hg. change (lift (Ok (greedy, q_vec, seen s obs)))
                with (mret (greedy, q_vec, seen s obs)).
  rewrite prob_mbind_mret. cbv beta iota.
  rewrite prob_mbind_random_lt. cbv beta iota.
  rewrite Hb, Hst, Hna, Heps.
  destruct (Z.gtb_spec (ReplayBuffer.n_experience
                          (replay_buffer (stored s (obs_now s obs))))
              (training_start_from s)) as [Hgt | _]; [lia|].
  match goal with
  | |- context [mbind (mret greedy) ?K] =>
      assert (Htail : forall a, prob (K a) (fun r => P (fst r))
                                == if P a then 1 else 0)
  end.
  { intros a. cbv beta.
    assert (Hsync : forall s2 : DQNAgent.t,
              qnet s2 = qnet (seen s obs) ->
              qnet_support s2 = qnet_support (seen s obs) ->
              memory s2 = memory (seen s obs) ->
              prob
                (mbind
                   (if (time_tick s2 =? iteration s2)%Z
                    then
                      mbind
                        (lift (QNet.load_state_dict
                                 (qnet_support (with_time_tick 0 s2))
                                 (QNet.state_dict (qnet (with_time_tick 0 s2))
                                    (memory (with_time_tick 0 s2)))
                                 (memory (with_time_tick 0 s2))))
                        (fun h => mret (print QnetIterationDone
                                          (with_memory h (with_time_tick 0 s2))))
                    else mret (with_time_tick (time_tick s2 + 1) s2))
                   (fun self => mret (a, with_prev (Some (obs_now s obs))
                                           (Some a) self)))
                (fun r => P (fst r))
              == if P a then 1 else 0).
    { intros s2 Eq Eqs Em.
      cbn [qnet qnet_support memory with_time_tick].
      rewrite Eq, Eqs, Em.
      destruct (QNet.load_state_dict _ _ _) as [h|]; [|discriminate].
      change (lift (Ok h)) with (mret h).
      destruct (_ =? _)%Z;
        rewrite ?prob_mbind_mbind_mret, ?prob_mbind_mret, prob_mret;
        reflexivity. }
    destruct (_ =? 0)%Z; rewrite prob_mbind_mret; apply Hsync; reflexivity. }
  rewrite prob_mbind_mret, Htail.
  assert (Hne : range (n_action s) <> []).
  { intros E. apply range_nil in E. lia. }
  rewrite (prob_mbind_random_choice _ _ _ Hne).
  match goal with
  | |- context [fold_right ?f 0 (range (n_action s))] =>
      assert (Hsum : fold_right f 0 (range (n_action s))
                     == count_Q P (range (n_action s)))
  end.
  { unfold count_Q. apply (sum_ext (range (n_action s))
                             (fun x => prob _ _)
                             (fun x => if P x then 1 else 0)).
    exact Htail. }
  rewrite Hsum.
  assert (Hlen : Z.of_nat (length (range (n_action s))) = n_action s).
  { unfold range. rewrite length_map, length_seq. lia. }
  rewrite Hlen. unfold Qdiv. ring.
Qed.

(** X15. The exploration law of [step]. Let [p] be [eps_e_greedy] cut to
    [0, 1]. Take a state that satisfies the invariant with aligned
    networks (as every state reached from the constructor does), in which
    the agent only collects experience (the buffer's count after this
    step's append is not above [training_start_from]) and
    [n_action >= 1], and suppose the call of [get_greedy_action] that the
    step makes on the observation returns, with index [greedy]: [view]
    and the layers of the network accept the observation. Then nothing
    after that call can fail, the step returns with probability 1, and
    the action it returns
    is [a] with probability
    [(1 - p) * [a = greedy] + p / n_action * [0 <= a < n_action]]. So
    [eps_e_greedy <= 0] always exploits and [eps_e_greedy >= 1] always
    draws uniformly. *)
Theorem step_is_epsilon_greedy (s s2 : DQNAgent.t) (obs : Image * list Q)
    (done : bool) (greedy a : Z) (q_vec : Vector) :
  inv s -> aligned s ->
  is_ok (obs_to_tensor s obs) = true ->
  get_greedy_action (stored s (obs_now s obs)) false
    (image (obs_now s obs)) (vector (obs_now s obs))
  = Ok (greedy, q_vec, s2) ->
  (1 <= n_action s)%Z ->
  (ReplayBuffer.n_experience (replay_buffer (stored s (obs_now s obs)))
   <= training_start_from s)%Z ->
  prob (step s obs done) (fun _ => true) == 1
  /\ prob (step s obs done) (fun r => (fst r =? a)%Z)
     == (1 - Qmax 0 (Qmin 1 (eps_e_greedy s)))
        * (if (greedy =? a)%Z then 1 else 0)
        + Qmax 0 (Qmin 1 (eps_e_greedy s))
          * (if ((0 <=? a) && (a <? n_action s))%Z
             then 1 / inject_Z (n_action s) else 0).
Proof.
  intros Hinv Hal Hview Hg Hn Hcold. split.
  - rewrite (step_action_law s s2 obs done greedy q_vec (fun _ => true)
               Hinv Hal Hview Hg Hn Hcold).
    rewrite count_true.
    assert (Hlen : Z.of_nat (length (range (n_action s))) = n_action s).
    { unfold range. rewrite length_map, length_seq. lia. }
    rewrite Hlen. field.
    intros E. apply (Qeq_bool_neq (inject_Z (n_action s)) 0); [|exact E].
    unfold Qeq_bool, inject_Z. simpl. apply Z.eqb_neq. lia.
  - rewrite (step_action_law s s2 obs done greedy q_vec
               (fun x => (x =? a)%Z) Hinv Hal Hview Hg Hn Hcold).
    rewrite count_range.
    destruct ((0 <=? a) && (a <? n_action s))%Z; unfold Qdiv; ring.
Qed.

End ActionLaw.

Lemma demo_fresh_aligned : aligned Demo.fresh.
Proof.
  apply (init_aligned (H := Demo.demo_torch) (Demo.config 1 5 2 10 2) 2 2 [2]
           (32, 32, 3) (1 # 2) Demo.init_a Demo.init_b).
  exact demo_fresh_init.
Qed.

Lemma step_is_epsilon_greedy_witness :
  (prob (DQNAgent.step Demo.fresh (Demo.obs 1 2) false)
     (fun r => (fst r =? 1)%Z) == 3 # 4)%Q.
Proof.
  destruct (step_is_epsilon_greedy Demo.fresh (snd Demo.looked)
              (Demo.obs 1 2) false 1 1 (snd (fst Demo.looked))
              demo_fresh_inv demo_fresh_aligned) as [_ Hlaw].
  - vm_compute. reflexivity.
  - vm_compute. reflexivity.
  - vm_compute. discriminate.
  - vm_compute. discriminate.
  - rewrite Hlaw. reflexivity.
Defined.

(** ** Construction *)

Section Construction.
Context `{Torch}.

Import DQNAgent.

Lemma alloc_all_signature (init : string -> Data)
    (lay : list (string * QNet.kind * list Z)) (h h' : heap)
    (es : list (string * QNet.kind * nat)) :
  QNet.alloc_all init h lay = (es, h') ->
  (forall l, (l < length h)%nat -> h' !! l = h !! l)
  /\ List.map (fun e => (fst (fst e), shape_at h' (snd e))) es
     = layout_signature lay.
Proof.
  revert h h' es. induction lay as [|[[name k] shp] lay IH]; intros h h' es.
  - simpl. intros E. injection E as <- <-. split; reflexivity.
  - cbn [QNet.alloc_all].
    destruct (QNet.alloc_all init (h ++ [_]) lay) as [es1 h1] eqn:E1.
    intros E. injection E as <- <-.
    apply IH in E1 as (Hkeep & Hsig).
    assert (Hpre : forall l, (l < length h + 1)%nat ->
                     h1 !! l
                     = (h ++ [mkStorage shp (init name) None
                                (QNet.is_parameter k)]) !! l).
    { intros l Hl. apply Hkeep. rewrite length_app. simpl. lia. }
    split.
    + intros l Hl. rewrite Hpre by lia. now apply lookup_app_l.
    + cbn [List.map layout_signature fst snd]. f_equal; [|exact Hsig].
      unfold shape_at. rewrite Hpre by lia.
      rewrite lookup_app_r by lia. now rewrite Nat.sub_diag.
Qed.

(** The two networks as [__init__] allocates them, before the copy. *)
Lemma nets_allocated (n1 v1 a1 n2 v2 a2 : Z) (i1 i2 : string -> Data)
    (q q' : QNet.t) (h1 h2 : heap) :
  QNet.__init__ [] n1 v1 a1 i1 = Ok (q, h1) ->
  QNet.__init__ h1 n2 v2 a2 i2 = Ok (q', h2) ->
  NoDup (locs q ++ locs q')
  /\ names q' = names q
  /\ NoDup (names q)
  /\ Forall (fun l => (l < length h2)%nat) (locs q ++ locs q')
  /\ signature q h2 = layout_signature (QNet.layout n1 v1 a1)
  /\ signature q' h2 = layout_signature (QNet.layout n2 v2 a2).
Proof.
  intros E1 E2.
  pose proof (qnet_init_spec _ _ _ _ _ _ _ E1) as (Hl1 & Hn1 & Hlen1).
  pose proof (qnet_init_spec _ _ _ _ _ _ _ E2) as (Hl2 & Hn2 & Hlen2).
  simpl in Hl1, Hlen1. rewrite Hlen1 in Hl2, Hlen2. simpl in Hlen2.
  rewrite Hl1, Hl2, Hn1, Hn2, Hlen2.
  split; [apply (NoDup_seq 0 40)|].
  split; [reflexivity|].
  split; [apply names_of_layout_NoDup|].
  split; [apply List.Forall_forall; intros l Hl;
          apply (in_seq 40 0 l) in Hl; lia|].
  unfold QNet.__init__ in E1, E2.
  destruct (forallb _ _) in E1; [|discriminate].
  destruct (forallb _ _) in E2; [|discriminate].
  destruct (QNet.alloc_all i1 [] _) as [es1 g1] eqn:A1.
  destruct (QNet.alloc_all i2 h1 _) as [es2 g2] eqn:A2.
  injection E1 as <- <-. injection E2 as <- <-.
  apply alloc_all_signature in A1 as (_ & Hs1).
  apply alloc_all_signature in A2 as (Hkeep & Hs2).
  split; [|exact Hs2].
  rewrite <- Hs1. unfold signature. cbn [QNet.entries].
  apply map_ext_in. intros e He. f_equal. unfold shape_at.
  rewrite Hkeep; [reflexivity|].
  unfold locs in Hl1. cbn [QNet.entries] in Hl1.
  assert (Hin : In (snd e) (List.map snd es1)).
  { apply in_map_iff. exists e. split; [reflexivity | exact He]. }
  rewrite Hl1 in Hin. apply (in_seq 20 0 (snd e)) in Hin. lia.
Qed.

Lemma Qneg_b_false (x : Q) : Adam.Qneg_b x = false <-> (0 <= x)%Q.
Proof.
  unfold Adam.Qneg_b. destruct (Qlt_le_dec x 0) as [Hlt | Hle].
  - split; [discriminate|]. intros Hx. lra.
  - split; [now intros _ | reflexivity].
Qed.

(** When [__init__] returns. *)
Lemma init_ok_iff (config : Config) (n_act action_size : Z)
    (shape_vector_obs : list Z) (shape_obs_image : Z * Z * Z) (eps_start : Q)
    (init_qnet init_support : string -> Data) :
  is_ok (__init__ config n_act action_size shape_vector_obs shape_obs_image
           eps_start init_qnet init_support) = true
  <-> qn_input_time_horizon config = 1
      /\ 0 <= n_act
      /\ (0 <= dnn_learning_rate config)%Q
      /\ (0 <= dnn_adam_eps config)%Q
      /\ (0 <= dnn_weight_decay config)%Q
      /\ 0 <= qn_replay_buffer_size config < 2 ^ 63.
Proof.
  unfold __init__, rbind. split.
  - destruct (QNet.__init__ [] _ 2 n_act init_qnet) as [[q h1]|] eqn:E1;
      [|discriminate].
    destruct (QNet.__init__ h1 1 2 n_act init_support) as [[q' h2]|] eqn:E2;
      [|discriminate].
    destruct (QNet.load_state_dict q' _ h2) as [h3|] eqn:E3; [|discriminate].
    destruct (Adam.__init__ _ _ _ _) as [o|] eqn:E4; [|discriminate].
    destruct (ReplayBuffer.__init__ _) as [rb|] eqn:E5; [|discriminate].
    intros _.
    destruct (nets_allocated _ _ _ _ _ _ _ _ _ _ _ _ E1 E2)
      as (Hnd & Hnames & Hnn & Hlt & Hs1 & Hs2).
    pose proof (load_state_dict_aligns _ _ _ _ Hnd Hnames Hnn Hlt E3) as Hal.
    pose proof (load_state_dict_same_shapes _ _ _ _ E3) as Hsame.
    rewrite !(signature_same_shapes _ _ _ Hsame), Hs1, Hs2 in Hal.
    injection Hal as Hh.
    split; [lia|]. split.
    { unfold QNet.__init__ in E2.
      destruct (forallb _ _) eqn:Ef in E2; [|discriminate].
      cbn in Ef. destruct (0 <=? n_act) eqn:En; [|discriminate].
      now apply Z.leb_le. }
    unfold Adam.__init__ in E4.
    destruct (Adam.Qneg_b (dnn_learning_rate config)) eqn:N1; [discriminate|].
    destruct (Adam.Qneg_b (dnn_adam_eps config)) eqn:N2; [discriminate|].
    destruct (Adam.Qneg_b (dnn_weight_decay config)) eqn:N3; [discriminate|].
    apply Qneg_b_false in N1, N2, N3.
    repeat (split; [assumption|]).
    unfold ReplayBuffer.__init__ in E5.
    destruct (deque.new _) as [d|] eqn:E6 in E5; [|discriminate].
    now apply deque_new_ok in E6 as [Hsz _].
  - intros (Hh & Hn & Hlr & Heps & Hwd & Hsz). rewrite Hh.
    assert (Hlay : forallb (fun e : string * QNet.kind * list Z =>
                              forallb (fun d => 0 <=? d) (snd e))
                     (QNet.layout 1 2 n_act) = true).
    { cbn. rewrite (proj2 (Z.leb_le 0 n_act) Hn). reflexivity. }
    destruct (QNet.__init__ [] 1 2 n_act init_qnet) as [[q h1]|] eqn:E1.
    2:{ unfold QNet.__init__ in E1. rewrite Hlay in E1.
        destruct (QNet.alloc_all _ _ _); discriminate. }
    destruct (QNet.__init__ h1 1 2 n_act init_support) as [[q' h2]|] eqn:E2.
    2:{ unfold QNet.__init__ in E2. rewrite Hlay in E2.
        destruct (QNet.alloc_all _ _ _); discriminate. }
    destruct (nets_allocated _ _ _ _ _ _ _ _ _ _ _ _ E1 E2)
      as (Hnd & Hnames & Hnn & Hlt & Hs1 & Hs2).
    apply Forall_app in Hlt as [Hlts _].
    pose proof (load_state_dict_between q q' h2 Hnames Hnn Hlts
                  ltac:(now rewrite Hs1, Hs2)) as Hload.
    destruct (QNet.load_state_dict q' _ h2) as [h3|]; [|discriminate].
    unfold Adam.__init__.
    rewrite (proj2 (Qneg_b_false _) Hlr), (proj2 (Qneg_b_false _) Heps),
      (proj2 (Qneg_b_false _) Hwd).
    cbn [orb]. unfold ReplayBuffer.__init__.
    destruct (deque_new_cases (A := Experience Observation)
                (qn_replay_buffer_size config)) as (_ & _ & Hnew).
    rewrite (Hnew Hsz). reflexivity.
Qed.

(** X16. What the constructor requires. [DQNAgent(...)] can return an
    agent only if [input_time_horizon] is 1 (the target network is built
    for one frame), [n_action >= 0], the learning rate, Adam's epsilon and
    the weight decay are not negative, and [replay_buffer_size] lies in
    [0, 2^63): in every other case it raises. [batch_size],
    [training_start_from], [iteration], [eps_start] and the shapes of the
    observations are not among the conditions: no check of the
    constructor reads them. *)
Theorem init_requires (config : Config) (n_act action_size : Z)
    (shape_vector_obs : list Z) (shape_obs_image : Z * Z * Z) (eps_start : Q)
    (init_qnet init_support : string -> Data) :
  is_ok (__init__ config n_act action_size shape_vector_obs shape_obs_image
           eps_start init_qnet init_support) = true ->
  qn_input_time_horizon config = 1
  /\ 0 <= n_act
  /\ (0 <= dnn_learning_rate config)%Q
  /\ (0 <= dnn_adam_eps config)%Q
  /\ (0 <= dnn_weight_decay config)%Q
  /\ 0 <= qn_replay_buffer_size config < 2 ^ 63.
Proof. apply init_ok_iff. Qed.

(** X17. The agent the constructor returns. The tick counter is 0,
    nothing has been printed, no observation or action is recorded, the
    replay buffer is empty with the configured size, the exploration rate
    is [eps_start], and the target network's [state_dict] equals the
    online network's: the values torch drew for the target network are
    all overwritten by the copy, so the agent does not depend on them. *)
Theorem init_state (config : Config) (n_act action_size : Z)
    (shape_vector_obs : list Z) (shape_obs_image : Z * Z * Z) (eps_start : Q)
    (init_qnet init_support init_other : string -> Data) (s : DQNAgent.t) :
  __init__ config n_act action_size shape_vector_obs shape_obs_image
    eps_start init_qnet init_support = Ok s ->
  time_tick s = 0 /\ stdout s = []
  /\ _prev_observation s = None /\ _prev_action s = None
  /\ ReplayBuffer.contents (replay_buffer s) = []
  /\ ReplayBuffer.buffer_size (replay_buffer s) = qn_replay_buffer_size config
  /\ eps_e_greedy s = eps_start
  /\ QNet.state_dict (qnet_support s) (memory s)
     = QNet.state_dict (qnet s) (memory s)
  /\ exists s',
       __init__ config n_act action_size shape_vector_obs shape_obs_image
         eps_start init_qnet init_other = Ok s'
       /\ QNet.state_dict (qnet s') (memory s')
          = QNet.state_dict (qnet s) (memory s)
       /\ QNet.state_dict (qnet_support s') (memory s')
          = QNet.state_dict (qnet_support s) (memory s).
Proof.
  intros Hinit.
  destruct (init_fields _ _ _ _ _ _ _ _ _ Hinit)
    as (_ & Heps & _ & _ & _ & _ & Hbsz & Hc & Ht & Hpo & Hpa & Hout & _ & Hsd).
  repeat (split; [assumption|]).
  assert (Hok : is_ok (__init__ config n_act action_size shape_vector_obs
                         shape_obs_image eps_start init_qnet init_other)
                = true).
  { apply init_ok_iff. apply (init_ok_iff config n_act action_size
                                shape_vector_obs shape_obs_image eps_start
                                init_qnet init_support).
    now rewrite Hinit. }
  destruct (__init__ config n_act action_size shape_vector_obs
              shape_obs_image eps_start init_qnet init_other)
    as [s'|] eqn:Hinit'; [|discriminate].
  exists s'. split; [reflexivity|].
  destruct (init_fields _ _ _ _ _ _ _ _ _ Hinit')
    as (_ & _ & _ & _ & _ & _ & _ & _ & _ & _ & _ & _ & _ & Hsd').
  assert (Honline : QNet.state_dict (qnet s') (memory s')
                    = QNet.state_dict (qnet s) (memory s)).
  { revert Hinit Hinit'. unfold __init__, rbind.
    destruct (QNet.__init__ [] _ 2 n_act init_qnet) as [[q h1]|] eqn:E1;
      [|discriminate].
    destruct (QNet.__init__ h1 1 2 n_act init_support) as [[q1 h2]|] eqn:E2;
      [|discriminate].
    destruct (QNet.__init__ h1 1 2 n_act init_other) as [[q2 g2]|] eqn:F2;
      [|discriminate].
    destruct (QNet.load_state_dict q1 _ h2) as [h3|] eqn:E3; [|discriminate].
    destruct (QNet.load_state_dict q2 _ g2) as [g3|] eqn:F3; [|discriminate].
    destruct (Adam.__init__ _ _ _ _) as [o|]; [|discriminate].
    destruct (ReplayBuffer.__init__ _) as [rb|]; [|discriminate].
    intros E F. injection E as <-. injection F as <-.
    cbn [qnet memory].
    destruct (nets_allocated _ _ _ _ _ _ _ _ _ _ _ _ E1 E2)
      as (Hnd & Hnames & Hnn & Hlt & _ & _).
    destruct (nets_allocated _ _ _ _ _ _ _ _ _ _ _ _ E1 F2)
      as (Hnd' & Hnames' & Hnn' & Hlt' & _ & _).
    destruct (load_state_dict_copies _ _ _ _ Hnd Hnames Hnn Hlt E3)
      as (_ & -> & _).
    destruct (load_state_dict_copies _ _ _ _ Hnd' Hnames' Hnn' Hlt' F3)
      as (_ & -> & _).
    (* both heaps extend [h1], where the online network lives *)
    unfold QNet.__init__ in E1, E2, F2.
    destruct (forallb _ _) in E1; [|discriminate].
    destruct (forallb _ _) in E2; [|discriminate].
    destruct (forallb _ _) in F2; [|discriminate].
    destruct (QNet.alloc_all init_qnet [] _) as [es1 k1] eqn:A1.
    destruct (QNet.alloc_all init_support h1 _) as [es2 k2] eqn:A2.
    destruct (QNet.alloc_all init_other h1 _) as [es3 k3] eqn:A3.
    injection E1 as <- <-. injection E2 as <- <-. injection F2 as <- <-.
    pose proof (alloc_all_spec _ _ _ _ _ A1) as (Hl1 & _ & Hlen1).
    apply alloc_all_signature in A2 as (Hkeep2 & _).
    apply alloc_all_signature in A3 as (Hkeep3 & _).
    unfold QNet.state_dict. cbn [QNet.entries].
    assert (Hread : forall e, In e es1 ->
              QNet.read k3 (fst (fst e)) (snd e)
              = QNet.read k2 (fst (fst e)) (snd e)).
    { intros e He. unfold QNet.read.
      assert (Hin : In (snd e) (seq (length (@nil (Storage Data)))
                                  (length (QNet.layout
                                             (qn_input_time_horizon config)
                                             2 n_act)))).
      { rewrite <- Hl1. apply in_map_iff. exists e. split; [reflexivity | exact He]. }
      apply in_seq in Hin. rewrite Hkeep2, Hkeep3 by lia. reflexivity. }
    clear - Hread. induction es1 as [|e es IH]; [reflexivity|].
    cbn [omap list_omap]. rewrite (Hread e (or_introl eq_refl)).
    destruct (QNet.read k2 _ _); [f_equal|]; apply IH;
      intros e' He'; apply Hread; now right. }
  split; [exact Honline|]. now rewrite Hsd', Hsd.
Qed.

End Construction.

Lemma init_requires_witness :
  DQNAgent.qn_input_time_horizon (Demo.config 1 5 2 10 2) = 1
  /\ 0 <= DQNAgent.qn_replay_buffer_size (Demo.config 1 5 2 10 2) < 2 ^ 63.
Proof.
  destruct (init_requires (H := Demo.demo_torch) (Demo.config 1 5 2 10 2)
              2 2 [2] (32, 32, 3) (1 # 2) Demo.init_a Demo.init_b)
    as (Hh & _ & _ & _ & _ & Hsz).
  - vm_compute. reflexivity.
  - split; assumption.
Defined.

Lemma init_state_witness :
  DQNAgent.time_tick Demo.fresh = 0
  /\ QNet.state_dict (DQNAgent.qnet_support Demo.fresh)
       (DQNAgent.memory Demo.fresh)
     = QNet.state_dict (DQNAgent.qnet Demo.fresh) (DQNAgent.memory Demo.fresh).
Proof.
  destruct (init_state (H := Demo.demo_torch) (Demo.config 1 5 2 10 2) 2 2 [2]
              (32, 32, 3) (1 # 2) Demo.init_a Demo.init_b Demo.init_a Demo.fresh
              demo_fresh_init)
    as (Ht & _ & _ & _ & _ & _ & _ & Hsd & _).
  split; assumption.
Defined.

(** ** The images [QNet] accepts *)

Lemma shapes_forward_iff (training : bool)
    (n_images vector_dim n_action : Z) (c h w : Z)
    (vector_shape out : list Z) :
  Shapes.forward training n_images vector_dim n_action [1; c; h; w]
    vector_shape = Ok out
  <-> c = 3 * n_images /\ vector_shape = [vector_dim]
      /\ 5 <= h /\ 5 <= w /\ (h - 4) * (w - 4) = 784
      /\ out = [n_action].
Proof.
  unfold Shapes.forward, rbind, Shapes.Conv2d at 1. cbn [app].
  destruct (Z.eqb_spec c (3 * n_images)) as [Hc | Hc];
    [|split; [discriminate | intros (Hc' & _); contradiction]].
  destruct (Z.leb_spec 3 h) as [Hh | Hh];
    [|split; [discriminate | intros (_ & _ & Hh' & _); lia]].
  destruct (Z.leb_spec 3 w) as [Hw | Hw];
    [|split; [discriminate | intros (_ & _ & _ & Hw' & _); lia]].
  cbn [andb]. unfold Shapes.BatchNorm2d at 1.
  destruct (training && (1 * (h - 3 + 1) * (w - 3 + 1) =? 1)) eqn:Eb1.
  { split; [discriminate|]. intros (_ & _ & Hh' & Hw' & _).
    apply andb_true_iff in Eb1 as [_ Eb1]. apply Z.eqb_eq in Eb1. nia. }
  cbn [Z.eqb Pos.eqb]. unfold Shapes.Softplus, Shapes.Conv2d.
  cbn [app Z.eqb Pos.eqb].
  destruct (Z.leb_spec 3 (h - 3 + 1)) as [Hh2 | Hh2];
    [|split; [discriminate | intros (_ & _ & Hh' & _); lia]].
  destruct (Z.leb_spec 3 (w - 3 + 1)) as [Hw2 | Hw2];
    [|split; [discriminate | intros (_ & _ & _ & Hw' & _); lia]].
  cbn [andb]. unfold Shapes.BatchNorm2d.
  destruct (training && (1 * (h - 3 + 1 - 3 + 1) * (w - 3 + 1 - 3 + 1) =? 1))
    eqn:Eb2.
  { split; [discriminate|]. intros (_ & _ & _ & _ & Hp & _).
    apply andb_true_iff in Eb2 as [_ Eb2]. apply Z.eqb_eq in Eb2. nia. }
  cbn [Z.eqb Pos.eqb]. unfold Shapes.flatten. cbn [fold_right].
  unfold Shapes.Linear at 1.
  destruct (reverse vector_shape) as [|d batch] eqn:Erev.
  { split; [discriminate|]. intros (_ & -> & _). discriminate. }
  assert (Evs : vector_shape = reverse batch ++ [d]).
  { rewrite <- (reverse_involutive vector_shape), Erev.
    now rewrite reverse_cons. }
  destruct (Z.eqb_spec d vector_dim) as [-> | Hd].
  2:{ split; [discriminate|]. intros (_ & E & _). rewrite E in Erev.
      cbn in Erev. congruence. }
  set (la := 1 * (16 * ((h - 3 + 1 - 3 + 1) * ((w - 3 + 1 - 3 + 1) * 1))) * 1).
  assert (Hla : la = 16 * ((h - 4) * (w - 4))) by (unfold la; ring).
  assert (Hpos : 0 < la) by nia.
  destruct batch as [|b batch].
  - cbn [reverse app] in *. unfold reverse in *. cbn [rev_append app] in *.
    unfold Shapes.cat, Shapes.Linear. unfold reverse. cbn [rev_append app].
    destruct (Z.eqb_spec (la + 50) 12594) as [E | E].
    + cbn [Z.eqb Pos.eqb]. split.
      * intros Eo. injection Eo as <-. repeat split; try lia. exact Evs.
      * intros (_ & _ & _ & _ & _ & ->). reflexivity.
    + split; [discriminate|]. intros (_ & _ & _ & _ & Hp & _). lia.
  - split.
    + unfold Shapes.cat.
      destruct (reverse (b :: batch) ++ [50]) as [|x [|y l]] eqn:El.
      * discriminate.
      * apply (f_equal (@length Z)) in El.
        rewrite length_app, length_reverse in El. simpl in El. lia.
      * destruct (Z.eqb_spec la 0); [lia | discriminate].
    + intros (_ & E & _). rewrite E in Evs.
      apply (f_equal (@length Z)) in Evs.
      rewrite length_app, length_reverse in Evs. simpl in Evs. lia.
Qed.

(** X18. Which inputs [QNet.forward] accepts. For an image tensor of
    shape [(1, c, h, w)], which is what [obs_to_tensor] builds, and a
    vector tensor of any shape, the forward pass of
    [QNet(n_images, vector_dim, n_action)] returns exactly when
    [c = 3 * n_images], the vector is 1-d of length [vector_dim], and
    [(h - 4) * (w - 4) = 784] with [h, w >= 5]: the two 3x3 convolutions
    shrink each side by 4 and [fc1] is built for [12594 = 16 * 784 + 50]
    inputs. The result then has shape [(n_action)], in training and in
    evaluation mode; a square image must be 32 x 32, and a 64 x 64 image
    makes [forward] raise. *)
Theorem forward_accepts (training : bool) (n_images vector_dim n_action : Z)
    (c h w : Z) (vector_shape out : list Z) :
  (Shapes.forward training n_images vector_dim n_action [1; c; h; w]
     vector_shape = Ok out
   <-> c = 3 * n_images /\ vector_shape = [vector_dim]
       /\ 5 <= h /\ 5 <= w /\ (h - 4) * (w - 4) = 784
       /\ out = [n_action])
  /\ (h = w ->
      is_ok (Shapes.forward training n_images vector_dim n_action
               [1; c; h; w] vector_shape) = true ->
      h = 32)
  /\ is_ok (Shapes.forward training n_images vector_dim n_action
              [1; c; 64; 64] vector_shape) = false.
Proof.
  pose proof (shapes_forward_iff training n_images vector_dim n_action c)
    as Hiff.
  split; [apply Hiff|]. split.
  - intros <- Hok.
    destruct (Shapes.forward _ _ _ _ _ _) as [o|] eqn:E; [|discriminate].
    apply Hiff in E as (_ & _ & Hh & _ & Hp & _). nia.
  - destruct (Shapes.forward _ _ _ _ _ _) as [o|] eqn:E; [|reflexivity].
    apply Hiff in E as (_ & _ & _ & _ & Hp & _). discriminate.
Qed.

Lemma forward_accepts_witness :
  Shapes.forward true 1 2 4 [1; 3; 32; 32] [2] = Ok [4].
Proof.
  apply (proj1 (forward_accepts true 1 2 4 3 32 32 [2] [4])).
  repeat split; try reflexivity; lia.
Defined.

(** ** What a step prints and which actions it returns *)

Section StepOutput.
Context `{Torch}.

Import DQNAgent.

Lemma topk1_range (l : list Q) (g : Z) :
  topk1 (constant l) = Ok g -> 0 <= g < Z.of_nat (length l).
Proof.
  unfold topk1. cbn [value constant]. destruct l as [|v l]; [discriminate|].
  intros E. injection E as <-.
  destruct (topk_index_max (v :: l)) as (m & Hl & _); [discriminate|].
  pose proof (lookup_lt_Some _ _ _ Hl). lia.
Qed.

(** X19. What [step] prints. A call that returns has printed, in this
    order and nothing else: the line "Buffer : n/replay_buffer_size"
    when the buffer's count [n] after this step's append is not above
    [training_start_from] and is a multiple of 500 (so also for [n = 0],
    on the first step of a fresh agent), and "Q-net Iteration Done." when
    the tick counter it started with equalled [iteration]. *)
Theorem step_prints (s s' : DQNAgent.t) (obs : Image * list Q) (done : bool)
    (a : Z) :
  outcome (step s obs done) (Ok (a, s')) ->
  stdout s'
  = stdout s
    ++ (if (ReplayBuffer.n_experience (replay_buffer s')
            <=? training_start_from s)
           && (ReplayBuffer.n_experience (replay_buffer s') mod 500 =? 0)
        then [BufferProgress (ReplayBuffer.n_experience (replay_buffer s'))
                (replay_buffer_size s)]
        else [])
    ++ (if time_tick s =? iteration s then [QnetIterationDone] else []).
Proof.
  intros Hout.
  pose proof (step_fields _ _ _ _ _ Hout) as (_ & Hb & _).
  apply step_cases in Hout as (greedy & s3 & _ & _ & H3 & H4).
  destruct (seen_fields s obs) as (_ & Ht2 & Ho2 & Hb2).
  destruct (same_setup_seen s obs) as (_ & _ & _ & _ & _ & Hit2 & _).
  rewrite Hb2, <- Hb in H3.
  set (n := ReplayBuffer.n_experience (replay_buffer s')) in *.
  assert (Hs3 : stdout s3
                = stdout s
                  ++ (if (n <=? training_start_from s) && (n mod 500 =? 0)
                      then [BufferProgress n (replay_buffer_size s)]
                      else [])
                /\ time_tick s3 = time_tick s
                /\ iteration s3 = iteration s).
  { destruct H3 as [[Hgt Ht] | [Hle [[Hm ->] | [Hm ->]]]].
    - apply same_setup_train in Ht as (Hs & _ & Htt & Hso).
      destruct Hs as (_ & _ & _ & _ & _ & Hit & _).
      rewrite Hso, Htt, Hit, Ho2, Ht2, Hit2.
      destruct (Z.leb_spec n (training_start_from s)); [lia|].
      cbn [andb]. now rewrite app_nil_r.
    - rewrite Ho2, Ht2, Hit2.
      destruct (Z.eqb_spec (n mod 500) 0); [contradiction|].
      rewrite andb_false_r. now rewrite app_nil_r.
    - cbn [stdout time_tick iteration print]. rewrite Ho2, Ht2, Hit2.
      destruct (Z.leb_spec n (training_start_from s)); [|lia].
      destruct (Z.eqb_spec (n mod 500) 0); [|contradiction].
      repeat split. }
  destruct Hs3 as (Hso3 & Ht3 & Hi3).
  destruct H4 as [(Eq & h & _ & ->) | (Hne & ->)].
  - cbn [stdout with_prev print with_memory with_time_tick].
    rewrite Hso3, <- Ht3, <- Hi3.
    destruct (Z.eqb_spec (time_tick s3) (iteration s3)); [|contradiction].
    now rewrite app_assoc.
  - cbn [stdout with_prev with_time_tick].
    rewrite Hso3, <- Ht3, <- Hi3.
    destruct (Z.eqb_spec (time_tick s3) (iteration s3)); [contradiction|].
    now rewrite app_nil_r.
Qed.

(** X20. The actions [step] returns. Every action returned is either
    the greedy one, a valid position in the scores of the observation, or
    was drawn from [range(n_action)]: it is never negative and lies below
    the number of scores or below [n_action]. A step for which the
    network returns no scores never returns, and neither does one that
    explores with [n_action <= 0]: the action is then the greedy one. *)
Theorem step_action_range (s s' : DQNAgent.t) (obs : Image * list Q)
    (done : bool) (a : Z) :
  outcome (step s obs done) (Ok (a, s')) ->
  step_scores s obs <> []
  /\ 0 <= a
  /\ (a < Z.of_nat (length (step_scores s obs)) \/ a < n_action s)
  /\ (n_action s <= 0 ->
      topk1 (constant (A := list Q) (step_scores s obs)) = Ok a).
Proof.
  intros Hout.
  apply step_cases in Hout as (greedy & s3 & Htop & Ha & _).
  pose proof (topk1_range _ _ Htop) as Hg.
  split.
  { intros E. rewrite E in Htop. discriminate. }
  destruct Ha as [-> | Hin].
  - split; [lia|]. split; [left; lia | intros _; exact Htop].
  - apply range_spec in Hin. split; [lia|]. split; [right; lia | lia].
Qed.

End StepOutput.

Lemma step_prints_witness :
  DQNAgent.stdout (snd Demo.stepped)
  = [DQNAgent.BufferProgress 0 10].
Proof.
  rewrite (step_prints Demo.fresh (snd Demo.stepped) (Demo.obs 1 2) false
             (fst Demo.stepped) demo_fresh_step).
  reflexivity.
Defined.

Lemma step_action_range_witness :
  0 <= fst Demo.stepped < 2.
Proof.
  destruct (step_action_range Demo.fresh (snd Demo.stepped) (Demo.obs 1 2)
              false (fst Demo.stepped) demo_fresh_step)
    as (_ & H0 & Hlt & _).
  split; [exact H0|]. destruct Hlt as [Hlt | Hlt]; exact Hlt.
Defined.

(** ** The observations a step accepts *)

Section StepObservation.
Context `{Torch}.

Import DQNAgent.

(** With no dimension left open, [view] asks for the number of elements
    to be the product of the dimensions. *)
Lemma infer_size_nonneg (shape : list Z) (n : Z) :
  Forall (fun d => 0 <= d) shape ->
  infer_size shape n
  = if n =? fold_right Z.mul 1 shape then Ok shape else Raise RuntimeError.
Proof.
  intros Hall. unfold infer_size.
  assert (Hf : List.filter (fun d => negb (d =? -1)) shape = shape).
  { induction Hall as [|d l Hd Hl IH]; [reflexivity|]. cbn [List.filter].
    destruct (Z.eqb_spec d (-1)); [lia|]. cbn [negb]. now rewrite IH. }
  rewrite Hf, Nat.sub_diag.
  assert (Hall' : forallb (fun d => 0 <=? d) shape = true).
  { apply forallb_forall. intros d Hd. apply Z.leb_le.
    rewrite List.Forall_forall in Hall. now apply Hall. }
  rewrite Hall'. reflexivity.
Qed.

Lemma step_accepts (s s' : DQNAgent.t) (obs : Image * list Q) (done : bool)
    (a : Z) :
  outcome (step s obs done) (Ok (a, s')) ->
  is_ok (obs_to_tensor s obs) = true /\ accepted (qnet s) (obs_now s obs).
Proof.
  intros Hout. unfold step in Hout.
  apply outcome_mbind_ok in Hout as [[im vec] [Hobs Hout]].
  apply outcome_lift in Hobs.
  destruct (obs_to_tensor_now s obs im vec Hobs) as [Hnow ->].
  split; [now rewrite Hobs|].
  cbv beta iota zeta in Hout.
  apply outcome_mbind_ok in Hout as [[[greedy q_vec] s2] [Hg _]].
  apply outcome_lift in Hg. unfold get_greedy_action, rbind in Hg.
  destruct (QNet.forward _ _ _ _ _) as [[q h]|] eqn:Ef; [|discriminate].
  apply forward_ok in Ef as (Ha & _).
  unfold accepted. rewrite Hnow. cbn [image vector].
  destruct (_prev_action s), (_prev_observation s); exact Ha.
Qed.

Lemma step_refused (s : DQNAgent.t) (obs : Image * list Q) (done : bool)
    (x : exn) (r : result (Z * DQNAgent.t)) :
  obs_to_tensor s obs = Raise x ->
  outcome (step s obs done) r -> r = Raise x.
Proof.
  intros E Hout. unfold step in Hout. rewrite E in Hout.
  apply outcome_mbind in Hout as [(p & Hp & _) | (e & He & ->)].
  - apply outcome_lift in Hp. discriminate.
  - apply outcome_lift in He. now injection He as <-.
Qed.

(** X22. The observations a step accepts. A call of [step] returns only
    if [obs_to_tensor] accepts the raw image and the layers of the online
    network accept the tensors it builds; when [obs_to_tensor] raises,
    that exception is the only outcome of the step. With
    [shape_obs_image = (h, w, c)] of non-negative sizes, [obs_to_tensor]
    accepts exactly the images of [c * h * w] elements and views them
    under the shape [(1, c, h, w)]; a step then returns only if
    [c = 3 * n_images], the raw vector has [vector_dim] components (the
    constructor builds both networks with [vector_dim = 2]) and
    [(h - 4) * (w - 4) = 784] with [h, w >= 5]: an agent configured for
    64 x 64 images never completes a step. *)
Theorem step_needs_fitting_observation (s : DQNAgent.t)
    (obs : Image * list Q) (done : bool) :
  (forall a s', outcome (step s obs done) (Ok (a, s')) ->
     is_ok (obs_to_tensor s obs) = true
     /\ accepted (qnet s) (obs_now s obs))
  /\ (forall x r, obs_to_tensor s obs = Raise x ->
        outcome (step s obs done) r -> r = Raise x)
  /\ (forall h w c,
        shape_obs_image s = (h, w, c) -> 0 <= h -> 0 <= w -> 0 <= c ->
        (is_ok (obs_to_tensor s obs) = true <-> numel (fst obs) = c * h * w)
        /\ (is_ok (obs_to_tensor s obs) = true ->
            image_shape (image (obs_now s obs)) = [1; c; h; w])
        /\ (forall a s', outcome (step s obs done) (Ok (a, s')) ->
              c = 3 * QNet.n_images (qnet s)
              /\ Z.of_nat (length (snd obs)) = QNet.vector_dim (qnet s)
              /\ 5 <= h /\ 5 <= w /\ (h - 4) * (w - 4) = 784)).
Proof.
  split; [intros a s'; apply step_accepts|].
  split; [intros x r; apply step_refused|].
  intros h w c Hshape Hh Hw Hc.
  assert (Hview : obs_to_tensor s obs
                  = if numel (fst obs) =? c * h * w
                    then Ok (reshape (fst obs) [1; c; h; w],
                             constant (snd obs))
                    else Raise RuntimeError).
  { unfold obs_to_tensor, view. rewrite Hshape.
    rewrite infer_size_nonneg by (repeat constructor; lia).
    cbn [fold_right].
    replace (1 * (c * (h * (w * 1)))) with (c * h * w) by ring.
    destruct (_ =? _); reflexivity. }
  assert (Hshp : is_ok (obs_to_tensor s obs) = true ->
                 image_shape (image (obs_now s obs)) = [1; c; h; w]).
  { unfold obs_now. rewrite Hview.
    destruct (_ =? _); [|discriminate]. intros _. cbn [image].
    apply image_shape_reshape. }
  split; [|split; [exact Hshp|]].
  - rewrite Hview. destruct (Z.eqb_spec (numel (fst obs)) (c * h * w));
      split; auto; discriminate.
  - intros a s' Hout. apply step_accepts in Hout as [Hok Hacc].
    unfold accepted in Hacc. rewrite (Hshp Hok), obs_now_vector in Hacc.
    cbn [value constant] in Hacc.
    destruct (Shapes.forward _ _ _ _ _ _) as [out|] eqn:E; [|discriminate].
    apply shapes_forward_iff in E as (Ec & Ev & Eh & Ew & Ep & _).
    injection Ev as Ev. repeat split; assumption.
Qed.

End StepObservation.

Lemma step_needs_fitting_observation_witness :
  (forall r, outcome (DQNAgent.step Demo.fresh ([64; 64; 3], [1; 2]%Q) false) r
             -> r = Raise RuntimeError)
  /\ is_ok (DQNAgent.obs_to_tensor Demo.fresh (Demo.obs 1 2)) = true
  /\ accepted (DQNAgent.qnet Demo.fresh)
       (obs_now Demo.fresh (Demo.obs 1 2)).
Proof.
  destruct (step_needs_fitting_observation Demo.fresh
              ([64; 64; 3], [1; 2]%Q) false) as (_ & Hrefuse & _).
  destruct (step_needs_fitting_observation Demo.fresh (Demo.obs 1 2) false)
    as (Hacc & _).
  split.
  - intros r. apply Hrefuse. vm_compute. reflexivity.
  - apply (Hacc (fst Demo.stepped) (snd Demo.stepped)).
    apply first_ok_outcome. vm_compute. reflexivity.
Defined.

(** ** The running statistics are never frozen *)

Section RunningStatistics.
Context `{Torch}.

Import DQNAgent.

Lemma init_training (config : Config) (n_act action_size : Z)
    (shape_vector_obs : list Z) (shape_obs_image : Z * Z * Z) (eps_start : Q)
    (init_qnet init_support : string -> Data) (s : DQNAgent.t) :
  __init__ config n_act action_size shape_vector_obs shape_obs_image
    eps_start init_qnet init_support = Ok s ->
  QNet.training (qnet s) = true /\ QNet.training (qnet_support s) = true.
Proof.
  unfold __init__, rbind.
  destruct (QNet.__init__ [] _ 2 n_act init_qnet) as [[q h1]|] eqn:E1;
    [|discriminate].
  destruct (QNet.__init__ h1 1 2 n_act init_support) as [[q' h2]|] eqn:E2;
    [|discriminate].
  destruct (QNet.load_state_dict q' _ h2) as [h3|]; [|discriminate].
  destruct (Adam.__init__ _ _ _ _) as [o|]; [|discriminate].
  destruct (ReplayBuffer.__init__ _) as [rb|]; [|discriminate].
  intros E. injection E as <-. cbn [qnet qnet_support].
  unfold QNet.__init__ in E1, E2.
  destruct (forallb _ _) in E1; [|discriminate].
  destruct (forallb _ _) in E2; [|discriminate].
  destruct (QNet.alloc_all init_qnet [] _) as [es1 k1].
  destruct (QNet.alloc_all init_support h1 _) as [es2 k2].
  injection E1 as <- _. injection E2 as <- _. split; reflexivity.
Qed.

(** X21. Both networks stay in training mode: nothing ever calls
    [eval()]. In every state that a run of steps reaches from the
    constructor the two modules have [training = True], so every forward
    pass rewrites the running statistics of the network it goes through.
    In particular the pass of [get_greedy_action] inside [step], although
    made under [torch.no_grad()], replaces the contents of every
    batch-normalisation buffer of the online network by the value
    [BatchNorm2d] computes from the old contents and the observation. *)
Theorem running_statistics_never_frozen (config : Config)
    (n_act action_size : Z) (shape_vector_obs : list Z)
    (shape_obs_image : Z * Z * Z) (eps_start : Q)
    (init_qnet init_support : string -> Data) (s0 s : DQNAgent.t)
    (os : list (Image * list Q)) :
  __init__ config n_act action_size shape_vector_obs shape_obs_image
    eps_start init_qnet init_support = Ok s0 ->
  outcome (run s0 os) (Ok s) ->
  QNet.training (qnet s) = true
  /\ QNet.training (qnet_support s) = true
  /\ forall grad_enabled im vec index q_val s',
       get_greedy_action s grad_enabled im vec = Ok (index, q_val, s') ->
       forall name l st,
         (name, QNet.Buf, l) ∈ QNet.entries (qnet s) ->
         memory s !! l = Some st ->
         memory s' !! l
         = Some (QNet.set_data
                   (bn_running (QNet.param_values (qnet s) (memory s)) im
                      name (data st)) st).
Proof.
  intros Hinit Hrun.
  destruct (reachable_inv _ _ _ _ _ _ _ _ _ _ _ Hinit Hrun)
    as (Hinv & _ & Hq & Hqs & _).
  destruct (init_training _ _ _ _ _ _ _ _ _ Hinit) as [Ht Hts].
  rewrite <- Hq in Ht. rewrite <- Hqs in Hts.
  split; [exact Ht|]. split; [exact Hts|].
  intros grad_enabled im vec index q_val s' Hg name l st Hin Hst.
  unfold get_greedy_action, rbind in Hg.
  destruct (QNet.forward _ _ _ _ _) as [[q h]|] eqn:Ef; [|discriminate].
  apply forward_ok in Ef as (_ & -> & ->).
  destruct (topk1 _); [|discriminate]. injection Hg as _ _ <-.
  cbn [memory with_memory]. unfold QNet.forward_heap. rewrite Ht.
  destruct Hinv as (Hnd & _). apply NoDup_app in Hnd as (Hnd & _).
  now apply track_running_stats_buffer.
Qed.

End RunningStatistics.

Lemma running_statistics_never_frozen_witness :
  QNet.training (DQNAgent.qnet Demo.synced) = true
  /\ QNet.training (DQNAgent.qnet_support Demo.synced) = true.
Proof.
  destruct (running_statistics_never_frozen (H := Demo.demo_torch)
              (Demo.config 1 5 2 10 2) 2 2 [2] (32, 32, 3) (1 # 2)
              Demo.init_a Demo.init_b Demo.fresh Demo.synced
              Demo.observations demo_fresh_init demo_fresh_run)
    as (Ht & Hts & _).
  split; assumption.
Defined.
